(** * Porraza front-end: knockout prediction form, route guard, bracket helpers

    A shallow embedding of the branching logic of the Porraza web front-end:

    - [KnockoutMatchDialog]: the [MatchContent] component of the knockout
      match dialog (derived visibility flags, the reset effects, the
      [isFormIncomplete] gate of the submit button and the [onSubmit] handler);
    - [Proxy]: the request middleware ([isUserAuthenticated] and [proxy]);
    - [KnockoutBracket]: the [getMatchWinner] display helper;
    - [PredictionsPage]: the tab gating of [PredictionsPageContent].

    JavaScript numbers are IEEE 754 binary64 values, so they are modelled by
    Rocq's primitive floats; [===], [<], [>] and [>=] on numbers are the IEEE
    comparisons. *)

From Stdlib Require Import Floats ZArith Uint63 Ascii.
From stdpp Require Import gmap strings list.

Open Scope string_scope.

(** ** JavaScript numbers *)

Module JsNumber.

Definition number : Type := float.

(** [Number.isNaN(x)] for a value that already is a number. *)
Definition isNaN (x : number) : bool := PrimFloat.is_nan x.

(** [x === y] on two numbers. *)
Definition eq (x y : number) : bool := PrimFloat.eqb x y.

(** [x < y], [x > y] and [x >= y] on two numbers. *)
Definition lt (x y : number) : bool := PrimFloat.ltb x y.
Definition gt (x y : number) : bool := PrimFloat.ltb y x.
Definition ge (x y : number) : bool := PrimFloat.leb y x.

End JsNumber.

(** ** Slots that may hold [undefined] or [null] *)

(** A form field or optional property: [undefined], [null], or a value. *)
Inductive slot (A : Type) : Type :=
| Undefined
| Null
| Val (a : A).
Arguments Undefined {A}.
Arguments Null {A}.
Arguments Val {A} a.

Module Slot.
Import JsNumber.

(** [typeof v === "number"]. *)
Definition typeof_number (v : slot number) : bool :=
  match v with Val _ => true | _ => false end.

(** ToNumber: [undefined] becomes NaN, [null] becomes [+0]. *)
Definition ToNumber (v : slot number) : number :=
  match v with
  | Undefined => PrimFloat.nan
  | Null => 0%float
  | Val n => n
  end.

(** The global [isNaN(v)], which converts its argument to a number first. *)
Definition global_isNaN (v : slot number) : bool := isNaN (ToNumber v).

(** [v === null] and [v !== null]. *)
Definition is_null {A} (v : slot A) : bool :=
  match v with Null => true | _ => false end.
Definition not_null {A} (v : slot A) : bool := negb (is_null v).

(** [v === w], given the strict equality of the carried values. *)
Definition strict_eq {A} (veq : A → A → bool) (v w : slot A) : bool :=
  match v, w with
  | Undefined, Undefined => true
  | Null, Null => true
  | Val a, Val b => veq a b
  | _, _ => false
  end.

(** [v < w] on numeric slots: both operands are converted by ToNumber. *)
Definition lt (v w : slot number) : bool := JsNumber.lt (ToNumber v) (ToNumber w).

(** Truthiness of a string slot: [undefined], [null] and the empty string
    are falsy. *)
Definition truthy (v : slot string) : bool :=
  match v with
  | Val s => negb (bool_decide (s = ""))
  | _ => false
  end.

(** [v ?? null]. *)
Definition or_null {A} (v : slot A) : slot A :=
  match v with Undefined | Null => Null | Val a => Val a end.

End Slot.

(** ** Exceptions *)

(** What a [throw] carries: an instance of [Error] with its [message], or any
    other value (here by its printed form). *)
Inductive thrown : Type :=
| ErrorInstance (message : string)
| OtherValue (printed : string).

(** The completion of a call that may throw, or of an awaited promise that
    may reject. *)
Inductive completion (A : Type) : Type :=
| Normal (a : A)
| Throw (e : thrown).
Arguments Normal {A} a.
Arguments Throw {A} e.

(** ** Domain entities

    The components import their entity types from [@/domain/entities/...];
    those declarations are not among the sources. The records below keep the
    fields the components read. [None] is [null]. *)

Module Domain.
Import JsNumber.

(** Modelled from the spec: the declaration of [UserMatchPrediction] is
    missing. A prediction has the regular-time scores (required), optional
    extra-time scores and an optional penalty winner; the components also
    test its [id] against [null], guard the extra-time comparison by
    [homeScoreET !== null], and cast [penaltiesWinner] to ["home" | "away"]. *)
Record UserMatchPrediction := {
  id : option string;
  homeScore : number;
  awayScore : number;
  homeScoreET : option number;
  awayScoreET : option number;
  penaltiesWinner : option string;
}.

(** Modelled from the spec: the declaration of the team of a match is
    missing; the dialog reads its [id] and [name]. *)
Record Team := {
  team_id : string;
  team_name : string;
}.

(** Modelled from the spec: the declaration of [RoundOf32Match] is missing.
    A match has two teams; the dialog also reads its [id]. *)
Record RoundOf32Match := {
  match_id : string;
  homeTeam : Team;
  awayTeam : Team;
}.

(** Modelled from the spec: the declaration of [MatchPhase] is missing; it
    is the phase tag of a match, written as a string literal. *)
Definition MatchPhase : Type := string.

(** Modelled from the spec: the declaration of [MatchPrediction] is missing;
    it is the prediction record handed to the save callback, with the fields
    [onSubmit] fills in. *)
Record MatchPrediction := {
  mp_matchId : string;
  mp_homeTeamId : string;
  mp_awayTeamId : string;
  mp_homeScore : slot number;
  mp_awayScore : slot number;
  mp_homeScoreET : slot number;
  mp_awayScoreET : slot number;
  mp_penaltiesWinner : slot string;
}.

(** Modelled from the spec: the declaration of [MatchWithPrediction] is
    missing; the page reads the prediction of the user from it. *)
Record MatchWithPrediction := {
  userPrediction : UserMatchPrediction;
}.

End Domain.

(** ** The knockout match dialog (component [MatchContent]) *)

Module KnockoutMatchDialog.
Import JsNumber.

(** Modelled from the spec: the declaration of
    [KnockoutMatchPredictionFormData] (the form schema) is missing. The draft
    has the match and team identifiers and the five fields [homeScore],
    [awayScore], [homeScoreET], [awayScoreET] and [penaltiesWinner]. The
    regular-time scores start as [undefined as any], so every score field is
    a slot; [penaltiesWinner] is ["home"], ["away"] or [null] by its type and
    is pre-filled with whatever truthy string the stored prediction has. *)
Record KnockoutMatchPredictionFormData := {
  matchId : string;
  homeTeamId : string;
  awayTeamId : string;
  homeScore : slot number;
  awayScore : slot number;
  homeScoreET : slot number;
  awayScoreET : slot number;
  penaltiesWinner : slot string;
}.

Abbreviation FormData := KnockoutMatchPredictionFormData.

(** [typeof val === "number" && !isNaN(val) && val !== null]. *)
Definition isValidNumber (val : slot number) : bool :=
  Slot.typeof_number val && negb (Slot.global_isNaN val) && Slot.not_null val.

(** The values derived from the watched fields on each render. *)
Definition hasValidRegularTimeScores (d : FormData) : bool :=
  isValidNumber (homeScore d) && isValidNumber (awayScore d).

Definition isTied (d : FormData) : bool :=
  hasValidRegularTimeScores d && Slot.strict_eq JsNumber.eq (homeScore d) (awayScore d).

Definition hasValidETScores (d : FormData) : bool :=
  isValidNumber (homeScoreET d) && isValidNumber (awayScoreET d).

Definition isTiedInET (d : FormData) : bool :=
  hasValidETScores d && Slot.strict_eq JsNumber.eq (homeScoreET d) (awayScoreET d).

Definition showPenalties (d : FormData) : bool := isTied d && isTiedInET d.

(** [isFormIncomplete()]: [true] is "incomplete". The nested [if]s with their
    early [return true] are kept; [rule5] is the block after the [isTied]
    block, reached when none of its returns fired. *)
Definition isFormIncomplete (d : FormData) : bool :=
  let rule5 :=
    if negb (isTied d) then
      if Slot.not_null (homeScoreET d)
         || Slot.not_null (awayScoreET d)
         || Slot.not_null (penaltiesWinner d)
      then true else false
    else false in
  (* Rule 1 *)
  if negb (hasValidRegularTimeScores d) then true
  else if isTied d then
    (* Rule 2 *)
    if negb (hasValidETScores d) then true
    (* Rule 2.1 *)
    else if hasValidETScores d
            && (Slot.lt (homeScoreET d) (homeScore d)
                || Slot.lt (awayScoreET d) (awayScore d)) then true
    (* Rule 3 *)
    else if isTiedInET d && negb (Slot.truthy (penaltiesWinner d)) then true
    (* Rule 4 *)
    else if negb (isTiedInET d) && Slot.not_null (penaltiesWinner d) then true
    else rule5
  else rule5.

(** What the render shows of the form: the extra-time block is rendered
    under [isTied &&], the penalties block under [showPenalties &&], and the
    submit button is [disabled] by
    [isFormIncomplete() || form.formState.isSubmitting || isSaving]. *)
Record view := {
  extraTimeVisible : bool;
  penaltiesVisible : bool;
  submitDisabled : bool;
}.

Definition render (d : FormData) (isSubmitting isSaving : bool) : view :=
  {| extraTimeVisible := isTied d;
     penaltiesVisible := showPenalties d;
     submitDisabled := isFormIncomplete d || isSubmitting || isSaving |}.

(** *** The states of the draft, as the specification names them *)

(** [v] holds the valid number [n]: a number that is not NaN. *)
Definition holds (v : slot number) (n : number) : Prop :=
  v = Val n ∧ isNaN n = false.

(** State B: decided in regular time. *)
Definition StateB (d : FormData) : Prop :=
  ∃ h a, holds (homeScore d) h ∧ holds (awayScore d) a ∧ eq h a = false
    ∧ homeScoreET d = Null ∧ awayScoreET d = Null ∧ penaltiesWinner d = Null.

(** State D: decided in extra time. *)
Definition StateD (d : FormData) : Prop :=
  ∃ h a he ae, holds (homeScore d) h ∧ holds (awayScore d) a ∧ eq h a = true
    ∧ holds (homeScoreET d) he ∧ holds (awayScoreET d) ae
    ∧ ge he h = true ∧ ge ae a = true ∧ eq he ae = false
    ∧ penaltiesWinner d = Null.

(** State F: resolved by penalties. *)
Definition StateF (d : FormData) : Prop :=
  ∃ h a he ae w, holds (homeScore d) h ∧ holds (awayScore d) a ∧ eq h a = true
    ∧ holds (homeScoreET d) he ∧ holds (awayScoreET d) ae
    ∧ ge he h = true ∧ ge ae a = true ∧ eq he ae = true
    ∧ penaltiesWinner d = Val w ∧ w ≠ "".

(** *** Form state and the reset effects *)

(** A write of [value] to one field of the form store, one function for
    each field that the inputs, the penalty buttons and the effects
    write. *)
Definition setValue_homeScore (v : slot number) (f : FormData) : FormData :=
  {| matchId := matchId f; homeTeamId := homeTeamId f; awayTeamId := awayTeamId f;
     homeScore := v; awayScore := awayScore f;
     homeScoreET := homeScoreET f; awayScoreET := awayScoreET f;
     penaltiesWinner := penaltiesWinner f |}.

Definition setValue_awayScore (v : slot number) (f : FormData) : FormData :=
  {| matchId := matchId f; homeTeamId := homeTeamId f; awayTeamId := awayTeamId f;
     homeScore := homeScore f; awayScore := v;
     homeScoreET := homeScoreET f; awayScoreET := awayScoreET f;
     penaltiesWinner := penaltiesWinner f |}.

Definition setValue_homeScoreET (v : slot number) (f : FormData) : FormData :=
  {| matchId := matchId f; homeTeamId := homeTeamId f; awayTeamId := awayTeamId f;
     homeScore := homeScore f; awayScore := awayScore f;
     homeScoreET := v; awayScoreET := awayScoreET f;
     penaltiesWinner := penaltiesWinner f |}.

Definition setValue_awayScoreET (v : slot number) (f : FormData) : FormData :=
  {| matchId := matchId f; homeTeamId := homeTeamId f; awayTeamId := awayTeamId f;
     homeScore := homeScore f; awayScore := awayScore f;
     homeScoreET := homeScoreET f; awayScoreET := v;
     penaltiesWinner := penaltiesWinner f |}.

Definition setValue_penaltiesWinner (v : slot string) (f : FormData) : FormData :=
  {| matchId := matchId f; homeTeamId := homeTeamId f; awayTeamId := awayTeamId f;
     homeScore := homeScore f; awayScore := awayScore f;
     homeScoreET := homeScoreET f; awayScoreET := awayScoreET f;
     penaltiesWinner := v |}.

(** [defaultValues] of [useForm]: pre-filled from [userPrediction] when there
    is one. [x?.homeScore ?? undefined] is [undefined] without a prediction,
    [x?.homeScoreET ?? null] is [null] without a prediction or without an
    extra-time score, and a falsy [penaltiesWinner] becomes [null]. *)
Definition defaultValues (match_ : Domain.RoundOf32Match)
    (userPrediction : option Domain.UserMatchPrediction) : FormData :=
  {| matchId := Domain.match_id match_;
     homeTeamId := Domain.team_id (Domain.homeTeam match_);
     awayTeamId := Domain.team_id (Domain.awayTeam match_);
     homeScore :=
       match userPrediction with
       | Some p => Val (Domain.homeScore p)
       | None => Undefined
       end;
     awayScore :=
       match userPrediction with
       | Some p => Val (Domain.awayScore p)
       | None => Undefined
       end;
     homeScoreET :=
       match userPrediction with
       | Some p => match Domain.homeScoreET p with Some n => Val n | None => Null end
       | None => Null
       end;
     awayScoreET :=
       match userPrediction with
       | Some p => match Domain.awayScoreET p with Some n => Val n | None => Null end
       | None => Null
       end;
     penaltiesWinner :=
       match userPrediction with
       | Some p =>
           match Domain.penaltiesWinner p with
           | Some w => if bool_decide (w = "") then Null else Val w
           | None => Null
           end
       | None => Null
       end |}.

(** The values of one render that the effects close over and depend on. *)
Record derived := {
  d_hasValidRegularTimeScores : bool;
  d_isTied : bool;
  d_hasValidETScores : bool;
  d_isTiedInET : bool;
  d_showPenalties : bool;
}.

Definition derive (f : FormData) : derived :=
  {| d_hasValidRegularTimeScores := hasValidRegularTimeScores f;
     d_isTied := isTied f;
     d_hasValidETScores := hasValidETScores f;
     d_isTiedInET := isTiedInET f;
     d_showPenalties := showPenalties f |}.

(** *** The form library

    [useForm] of react-hook-form keeps the values of the form in a store.
    [form.watch] reads the store during a render. An input written with
    [form.register(name, { setValueAs })] is registered with that function,
    and stays registered when it leaves the page. What the library stores
    for a registered field goes through its [setValueAs]: the text of the
    input on a change, the value the field has when its input is mounted,
    and the value given to [form.setValue] (an [undefined] value is stored
    as it is). Neither the registration of an input nor its mounting causes
    a render. [penaltiesWinner] has no input and is stored as given. *)

(** [v === "" || isNaN(v) ? undefined : Number(v)] on a value of the store:
    [isNaN(undefined)] holds, and [Number(null)] is [0]. *)
Definition setValueAs_regular_stored (v : slot number) : slot number :=
  match v with
  | Undefined => Undefined
  | Null => Val 0%float
  | Val n => if isNaN n then Undefined else Val n
  end.

(** [v === "" || isNaN(v) ? null : Number(v)] on a value of the store. *)
Definition setValueAs_extraTime_stored (v : slot number) : slot number :=
  match v with
  | Undefined => Null
  | Null => Val 0%float
  | Val n => if isNaN n then Null else Val n
  end.

(** What the store holds after [form.setValue(name, v)] on an extra-time
    field. *)
Definition setValue_stored_extraTime (registered : bool) (v : slot number)
    : slot number :=
  if registered then
    match v with
    | Undefined => Undefined
    | _ => setValueAs_extraTime_stored v
    end
  else v.

(** The values of the store when an input is mounted: a field that holds
    [undefined] takes the value of the empty input, any other value goes
    through [setValueAs]. *)
Definition registerRegular (f : FormData) : FormData :=
  setValue_awayScore (setValueAs_regular_stored (awayScore f))
    (setValue_homeScore (setValueAs_regular_stored (homeScore f)) f).

Definition registerExtraTime (f : FormData) : FormData :=
  setValue_awayScoreET (setValueAs_extraTime_stored (awayScoreET f))
    (setValue_homeScoreET (setValueAs_extraTime_stored (homeScoreET f)) f).

(** The body of each [useEffect]. An effect reads the flags of the render it
    belongs to ([r]) and writes to the store ([f]); the result tells whether
    it called [setValue]. [registered] tells whether the extra-time inputs
    are registered. *)

(** "Reset ET and penalties when regular time is no longer tied". *)
Definition resetExtraTimeEffect (registered : bool) (r : derived) (f : FormData)
    : FormData * bool :=
  if d_hasValidRegularTimeScores r && negb (d_isTied r) then
    (setValue_penaltiesWinner Null
       (setValue_awayScoreET (setValue_stored_extraTime registered Null)
          (setValue_homeScoreET (setValue_stored_extraTime registered Null) f)), true)
  else (f, false).

(** "Reset penalties when ET resolves the tie". *)
Definition resetPenaltiesEffect (r : derived) (f : FormData) : FormData * bool :=
  if d_hasValidETScores r && negb (d_isTiedInET r) then
    (setValue_penaltiesWinner Null f, true)
  else (f, false).

(** "Additional safety: Clear penalties if showPenalties becomes false";
    it reads the store with [form.getValues]. *)
Definition clearPenaltiesEffect (r : derived) (f : FormData) : FormData * bool :=
  if negb (d_showPenalties r) && Slot.not_null (penaltiesWinner f) then
    (setValue_penaltiesWinner Null f, true)
  else (f, false).

(** Whether two dependency arrays hold the same values. *)
Fixpoint sameDeps (l1 l2 : list bool) : bool :=
  match l1, l2 with
  | [], [] => true
  | a :: l1', b :: l2' => Bool.eqb a b && sameDeps l1' l2'
  | _, _ => false
  end.

(** Whether a dependency array changed since the previous render; on the
    first render ([None]) every effect runs. The [form] object is stable. *)
Definition depsChanged (prev : option derived) (now : derived)
    (deps : derived → list bool) : bool :=
  match prev with
  | None => true
  | Some p => negb (sameDeps (deps p) (deps now))
  end.

(** A mounted component: the store of the form, the values [form.watch]
    returned to the last render ([None] before the first render), and
    whether the extra-time inputs have been registered. *)
Record instance := {
  values : FormData;
  rendered : option FormData;
  extraTimeRegistered : bool;
}.

(** The flags of the last render. *)
Definition lastRender (s : instance) : option derived :=
  derive <$> rendered s.

(** Whether the last render put the extra-time inputs on the page. *)
Definition extraTimeMounted (s : instance) : bool :=
  match rendered s with
  | Some watched => isTied watched
  | None => false
  end.

(** The page and the store agree on the regular-time flags. *)
Definition regularInStep (s : instance) : Prop :=
  ∃ r, rendered s = Some r
       ∧ hasValidRegularTimeScores r = hasValidRegularTimeScores (values s)
       ∧ isTied r = isTied (values s).

(** The page and the store agree on all flags. *)
Definition inStep (s : instance) : Prop :=
  ∃ r, rendered s = Some r ∧ derive r = derive (values s).

(** The commit of a render: the inputs that come onto the page register
    their values, the regular-time inputs on the first render and the
    extra-time inputs when the render shows them and the one before did
    not. *)
Definition commit (s : instance) : FormData :=
  let f0 :=
    match rendered s with
    | None => registerRegular (values s)
    | Some _ => values s
    end in
  if isTied (values s) && negb (extraTimeMounted s) then registerExtraTime f0 else f0.

(** The three effects after a commit, in source order: each runs when its
    dependencies changed since the render before ([prev]), reads the flags
    of its own render ([now]) and writes to the store. The result tells
    whether any of them called [setValue]. *)
Definition runEffects (registered : bool) (prev : option derived) (now : derived)
    (f : FormData) : FormData * bool :=
  let '(f1, w1) :=
    if depsChanged prev now (λ r, [d_hasValidRegularTimeScores r; d_isTied r])
    then resetExtraTimeEffect registered now f else (f, false) in
  let '(f2, w2) :=
    if depsChanged prev now (λ r, [d_hasValidETScores r; d_isTiedInET r])
    then resetPenaltiesEffect now f1 else (f1, false) in
  let '(f3, w3) :=
    if depsChanged prev now (λ r, [d_showPenalties r])
    then clearPenaltiesEffect now f2 else (f2, false) in
  (f3, w1 || w2 || w3).

(** One render followed by its commit and its effects. The render reads
    the store; the extra-time inputs it shows are registered by the time the
    effects run. *)
Definition renderAndRunEffects (s : instance) : instance * bool :=
  let watched := values s in
  let registered := extraTimeRegistered s || isTied watched in
  let '(f, wrote) := runEffects registered (lastRender s) (derive watched) (commit s) in
  ({| values := f; rendered := Some watched; extraTimeRegistered := registered |},
   wrote).

(** A [setValue] on a watched field schedules another render; rendering
    goes on until a pass writes nothing. [fuel] bounds the passes the way
    React bounds nested updates. *)
Fixpoint settle (fuel : nat) (s : instance) : instance :=
  match fuel with
  | O => s
  | S fuel' =>
      let '(s', wrote) := renderAndRunEffects s in
      if wrote then settle fuel' s' else s'
  end.

Definition maxUpdateDepth : nat := 50.

(** Whether the renders stop within [fuel] passes because a pass wrote
    nothing. *)
Fixpoint comesToRest (fuel : nat) (s : instance) : bool :=
  match fuel with
  | O => false
  | S fuel' =>
      let '(s', wrote) := renderAndRunEffects s in
      if wrote then comesToRest fuel' s' else true
  end.

(** What the user sees of a mounted dialog: the render of the values that
    were watched last. *)
Definition shown (s : instance) (isSubmitting isSaving : bool) : option view :=
  (λ watched, render watched isSubmitting isSaving) <$> rendered s.

(** A regular-time score of the form: [undefined] or a number, never
    [null]. *)
Definition regularScore (v : slot number) : Prop := v ≠ Null.

(** What holds of the form between the renders of one cascade. [z] is what
    [setValue] makes of [null] on an extra-time field. *)
Definition cascadeInvariant (s : instance) : Prop :=
  let z := setValue_stored_extraTime (extraTimeRegistered s) Null in
  regularScore (homeScore (values s)) ∧ regularScore (awayScore (values s))
  ∧ (∀ r, rendered s = Some r →
       setValueAs_regular_stored (homeScore (values s)) = homeScore (values s)
       ∧ setValueAs_regular_stored (awayScore (values s)) = awayScore (values s))
  ∧ (∀ r, rendered s = Some r →
       hasValidRegularTimeScores r = true → isTied r = false →
       hasValidRegularTimeScores (values s) = true → isTied (values s) = false →
       homeScoreET (values s) = z ∧ awayScoreET (values s) = z
       ∧ penaltiesWinner (values s) = Null)
  ∧ (∀ r, rendered s = Some r →
       showPenalties r = false → showPenalties (values s) = false →
       penaltiesWinner (values s) = Null).

(** What holds of a dialog once it has settled, with [watched] the values
    on the page. The store differs from the page by what the inputs made of
    their values when they were mounted, and only there: the regular-time
    scores of the page are invalid or those of the store, the extra-time
    scores are those of the page or, under a tie, what [setValueAs] makes of
    them. With valid regular-time scores that differ, the page shows the
    store, both extra-time scores are what [setValue] makes of [null], and
    the penalty winner is [null]. The penalty winner is [null] unless the
    page shows the penalty buttons. *)
Definition resetInvariant (s : instance) : Prop :=
  let z := setValue_stored_extraTime (extraTimeRegistered s) Null in
  ∃ watched,
    rendered s = Some watched
    ∧ matchId (values s) = matchId watched
    ∧ homeTeamId (values s) = homeTeamId watched
    ∧ awayTeamId (values s) = awayTeamId watched
    ∧ homeScore (values s) = setValueAs_regular_stored (homeScore watched)
    ∧ awayScore (values s) = setValueAs_regular_stored (awayScore watched)
    ∧ regularScore (homeScore watched) ∧ regularScore (awayScore watched)
    ∧ penaltiesWinner (values s) = penaltiesWinner watched
    ∧ ((homeScoreET (values s) = homeScoreET watched
        ∧ awayScoreET (values s) = awayScoreET watched)
       ∨ (isTied watched = true
          ∧ homeScoreET (values s) = setValueAs_extraTime_stored (homeScoreET watched)
          ∧ awayScoreET (values s) = setValueAs_extraTime_stored (awayScoreET watched)))
    ∧ (isTied watched = true → extraTimeRegistered s = true)
    ∧ (hasValidRegularTimeScores watched = true → isTied watched = false →
       watched = values s
       ∧ homeScoreET (values s) = z ∧ awayScoreET (values s) = z
       ∧ penaltiesWinner (values s) = Null)
    ∧ (showPenalties watched = false → penaltiesWinner (values s) = Null).

(** *** User events *)

(** The host's conversion of an input's text to a number, [Number(v)]. *)
Class StringToNumber := Number : string → number.

Section Events.
Context `{StringToNumber}.

(** [setValueAs] of the two regular-time inputs on the text of the input:
    [v === "" || isNaN(v) ? undefined : Number(v)]. *)
Definition setValueAs_regular (v : string) : slot number :=
  if bool_decide (v = "") || isNaN (Number v) then Undefined else Val (Number v).

(** [setValueAs] of the two extra-time inputs on the text of the input:
    [v === "" || isNaN(v) ? null : Number(v)]. *)
Definition setValueAs_extraTime (v : string) : slot number :=
  if bool_decide (v = "") || isNaN (Number v) then Null else Val (Number v).

Inductive side := home | away.

Definition side_name (s : side) : string :=
  match s with home => "home" | away => "away" end.

(** The events that write to the store or render the component: a change
    of an input, a click on a penalty button, and a render that something
    else causes (new props such as [isSaving], or the image error state). *)
Inductive event :=
| ChangeHomeScore (v : string)
| ChangeAwayScore (v : string)
| ChangeHomeScoreET (v : string)
| ChangeAwayScoreET (v : string)
| ClickPenaltiesWinner (s : side)
| Rerender.

(** The events that edit a regular-time score. *)
Definition regularEdit (e : event) : bool :=
  match e with
  | ChangeHomeScore _ | ChangeAwayScore _ => true
  | _ => false
  end.

(** An input can be edited only while it is on the page: the extra-time
    inputs under [isTied], the penalty buttons under [showPenalties], both
    as the last render had them. *)
Definition available (e : event) (f : FormData) : bool :=
  match e with
  | ChangeHomeScore _ | ChangeAwayScore _ | Rerender => true
  | ChangeHomeScoreET _ | ChangeAwayScoreET _ => isTied f
  | ClickPenaltiesWinner _ => showPenalties f
  end.

(** What the event writes to the store. *)
Definition handle (e : event) (f : FormData) : FormData :=
  match e with
  | ChangeHomeScore v => setValue_homeScore (setValueAs_regular v) f
  | ChangeAwayScore v => setValue_awayScore (setValueAs_regular v) f
  | ChangeHomeScoreET v => setValue_homeScoreET (setValueAs_extraTime v) f
  | ChangeAwayScoreET v => setValue_awayScoreET (setValueAs_extraTime v) f
  | ClickPenaltiesWinner s => setValue_penaltiesWinner (Val (side_name s)) f
  | Rerender => f
  end.

(** Mounting the component: the first render and the renders that its
    effects cause. *)
Definition mount (match_ : Domain.RoundOf32Match)
    (userPrediction : option Domain.UserMatchPrediction) : instance :=
  settle maxUpdateDepth
    {| values := defaultValues match_ userPrediction;
       rendered := None;
       extraTimeRegistered := false |}.

(** One event on a mounted component, followed by the renders it causes.
    The event is possible when the page, as rendered last, offers it. *)
Definition dispatch (e : event) (s : instance) : instance :=
  match rendered s with
  | Some watched =>
      if available e watched then
        settle maxUpdateDepth
          {| values := handle e (values s);
             rendered := rendered s;
             extraTimeRegistered := extraTimeRegistered s |}
      else s
  | None => s
  end.

(** The states a mounted dialog can be in. *)
Inductive reachable : instance → Prop :=
| reachable_mount match_ userPrediction :
    reachable (mount match_ userPrediction)
| reachable_dispatch e s :
    reachable s → reachable (dispatch e s).

End Events.

(** *** Submission *)

(** What [onSubmit] can do to the outside: notices ([toast] of sonner), the
    console, and the two callbacks it was given. *)
Inductive call :=
| toast_error (title description : string)
| toast_success (title description : string)
| console_error (label : string) (e : thrown)
| onSave_call (phase : Domain.MatchPhase) (matchPredictions : list Domain.MatchPrediction)
| onClose_call.

(** The world [onSubmit] runs in: the calls made so far and the form store
    of the dialog. *)
Record world := {
  calls : list call;
  form : FormData;
}.

(** Computations with effects on the world that may throw. An exception
    keeps the effects made before it. *)
Definition Eff (A : Type) : Type := world → world * completion A.

#[export] Instance Eff_ret : MRet Eff := λ A a w, (w, Normal a).

#[export] Instance Eff_bind : MBind Eff := λ A B k m w,
  match m w with
  | (w', Normal a) => k a w'
  | (w', Throw e) => (w', Throw e)
  end.

Definition emit (c : call) : Eff unit :=
  λ w, ({| calls := calls w ++ [c]; form := form w |}, Normal tt).

(** [await p] for a promise settled with [p]. *)
Definition await {A} (p : completion A) : Eff A := λ w, (w, p).

(** [try { body } catch (error) { handler }]. *)
Definition try_catch {A} (body : Eff A) (handler : thrown → Eff A) : Eff A :=
  λ w, match body w with
       | (w', Throw e) => handler e w'
       | r => r
       end.

(** The props of [MatchContent] that [onSubmit] uses. The promise returned
    by [onSave] settles as [onSave phase predictions] says. *)
Record MatchContentProps := {
  match_ : Domain.RoundOf32Match;
  predictionId : option string;
  onSave : Domain.MatchPhase → list Domain.MatchPrediction → completion unit;
}.

(** [!predictionId]: [null] and the empty string are falsy. *)
Definition predictionId_falsy (p : option string) : bool :=
  match p with
  | None => true
  | Some s => bool_decide (s = "")
  end.

Definition toMatchPrediction (data : FormData) : Domain.MatchPrediction :=
  {| Domain.mp_matchId := matchId data;
     Domain.mp_homeTeamId := homeTeamId data;
     Domain.mp_awayTeamId := awayTeamId data;
     Domain.mp_homeScore := homeScore data;
     Domain.mp_awayScore := awayScore data;
     Domain.mp_homeScoreET := Slot.or_null (homeScoreET data);
     Domain.mp_awayScoreET := Slot.or_null (awayScoreET data);
     Domain.mp_penaltiesWinner := Slot.or_null (penaltiesWinner data) |}.

(** Kinds of calls, to say which were made. *)
Definition isSaveCall (c : call) : bool :=
  match c with onSave_call _ _ => true | _ => false end.
Definition isSuccessNotice (c : call) : bool :=
  match c with toast_success _ _ => true | _ => false end.
Definition isCloseCall (c : call) : bool :=
  match c with onClose_call => true | _ => false end.

Definition missingPredictionNotice : call :=
  toast_error "Error" "No se encontró la predicción. Intenta recargar la página.".

Definition saveErrorFallback : string := "No se pudo guardar la predicción".

(** [error instanceof Error ? error.message : "No se pudo guardar la predicción"]. *)
Definition errorDescription (error : thrown) : string :=
  match error with
  | ErrorInstance message => message
  | OtherValue _ => saveErrorFallback
  end.

Definition onSubmit (props : MatchContentProps) (data : FormData) : Eff unit :=
  if predictionId_falsy (predictionId props) then
    emit missingPredictionNotice
  else
    try_catch
      (let matchPrediction := toMatchPrediction data in
       emit (onSave_call "ROUND_OF_32" [matchPrediction]) ;;
       await (onSave props "ROUND_OF_32" [matchPrediction]) ;;
       emit (toast_success "Predicción guardada"
               (Domain.team_name (Domain.homeTeam (match_ props)) ++ " vs "
                ++ Domain.team_name (Domain.awayTeam (match_ props)))) ;;
       emit onClose_call)
      (λ error,
       emit (console_error "[KnockoutMatchDialog] Error saving prediction:" error) ;;
       emit (toast_error "Error al guardar" (errorDescription error))).

End KnockoutMatchDialog.

(** ** The knockout bracket: [getMatchWinner] *)

Module KnockoutBracket.
Import JsNumber Domain.

(** Truthiness of a nullable string. *)
Definition truthy (s : option string) : bool :=
  match s with
  | Some w => negb (bool_decide (w = ""))
  | None => false
  end.

(** [getMatchWinner(prediction)]; [None] is [null], and the result is the
    string the function returns (the penalty winner is returned as stored). *)
Definition getMatchWinner (prediction : option UserMatchPrediction) : option string :=
  match prediction with
  | None => None
  | Some prediction =>
      (* 1. penalties *)
      if truthy (penaltiesWinner prediction) then penaltiesWinner prediction
      else
        match homeScoreET prediction, awayScoreET prediction with
        | Some homeScoreET, Some awayScoreET =>
            (* 2. extra time *)
            if gt homeScoreET awayScoreET then Some "home"
            else if gt awayScoreET homeScoreET then Some "away"
            else Some "draw"
        | _, _ =>
            (* 3. regular time *)
            if gt (homeScore prediction) (awayScore prediction) then Some "home"
            else if gt (awayScore prediction) (homeScore prediction) then Some "away"
            else Some "draw"
        end
  end.

(** The outcome of comparing two scores, in the words of the specification:
    the side with the greater score, and a draw when neither is greater. *)
Definition winnerByScores (home away : number) : string :=
  if gt home away then "home" else if gt away home then "away" else "draw".

End KnockoutBracket.

(** ** The predictions page: tab gating *)

Module PredictionsPage.
Import Domain.

(** [m.userPrediction.id !== null]. *)
Definition hasPrediction (m : MatchWithPrediction) : bool :=
  match id (userPrediction m) with
  | Some _ => true
  | None => false
  end.

(** [matches.every(...)], [matches.length] and [matches.filter(...).length]. *)
Definition allGroupPredictionsCompleted (matches : list MatchWithPrediction) : bool :=
  forallb hasPrediction matches.

Definition totalMatches (matches : list MatchWithPrediction) : nat :=
  length matches.

Definition completedMatches (matches : list MatchWithPrediction) : nat :=
  length (List.filter hasPrediction matches).

(** Modelled from the spec: the declaration of [Knockouts] is missing. The
    bracket is an ordered collection of matches per round; the page inspects
    the round of 32 only. *)
Record Knockouts := {
  roundOf32 : list RoundOf32Match;
}.

(** The props of [KnockoutBracket] as the page passes them. *)
Record KnockoutBracketProps := {
  kb_matches : list RoundOf32Match;
  kb_knockouts : Knockouts;
  kb_predictionId : option string;
  kb_isSaving : bool;
}.

(** What the knockout tab contains. *)
Inductive knockoutContent :=
| LockedWithProgress (completed total : nat)
| Bracket (props : KnockoutBracketProps)
| PairingsPending.

(** What the awards tab contains. *)
Inductive awardsContent :=
| AwardsLockedWithProgress (completed total : nat)
| AwardsComingSoon.

Record page := {
  knockoutTabDisabled : bool;
  awardsTabDisabled : bool;
  knockoutTab : knockoutContent;
  awardsTab : awardsContent;
}.

(** [prediction?.id || null]. *)
Definition predictionIdOrNull (prediction : option (option string)) : option string :=
  match prediction with
  | Some (Some i) => if bool_decide (i = "") then None else Some i
  | _ => None
  end.

(** The part of [PredictionsPageContent] that depends on the matches.
    [prediction] is [prediction?.id] where there is a prediction. *)
Definition PredictionsPageContent
    (prediction : option (option string))
    (matches : list MatchWithPrediction)
    (isSaving : bool)
    (roundOf32Matches : option (list RoundOf32Match))
    (knockouts : option Knockouts) : page :=
  let completed := allGroupPredictionsCompleted matches in
  {| knockoutTabDisabled := negb completed;
     awardsTabDisabled := negb completed;
     knockoutTab :=
       if negb completed then
         LockedWithProgress (completedMatches matches) (totalMatches matches)
       else
         match knockouts with
         | Some k =>
             if bool_decide (0 < length (roundOf32 k)) then
               Bracket {| kb_matches := default [] roundOf32Matches;
                          kb_knockouts := k;
                          kb_predictionId := predictionIdOrNull prediction;
                          kb_isSaving := isSaving |}
             else PairingsPending
         | None => PairingsPending
         end;
     awardsTab :=
       if negb completed then
         AwardsLockedWithProgress (completedMatches matches) (totalMatches matches)
       else AwardsComingSoon |}.

End PredictionsPage.

(** ** The request middleware *)

Module Proxy.
Import JsNumber.

(** Values produced by [JSON.parse]. An object is the list of its own
    properties, each name once. *)
#[warnings="-register-all"]
Inductive json : Type :=
| JNull
| JBool (b : bool)
| JNumber (n : number)
| JString (s : string)
| JArray (items : list json)
| JObject (properties : list (string * json)).

(** The host's [JSON.parse], which throws on malformed text. *)
Class JsonParser := JSON_parse : string → completion json.

(** [v?.name] for a property name that no prototype defines (as [state],
    [userId] and [accessToken]): [undefined] ([None]) when [v] is
    [undefined] or [null], or has no such own property. *)
Definition optionalProperty (v : option json) (name : string) : option json :=
  match v with
  | Some (JObject properties) => snd <$> List.find (λ p, bool_decide (fst p = name)) properties
  | _ => None
  end.

(** Truthiness; [None] is [undefined]. *)
Definition truthy (v : option json) : bool :=
  match v with
  | None => false
  | Some JNull => false
  | Some (JBool b) => b
  | Some (JNumber n) => negb (eq n 0%float || isNaN n)
  | Some (JString s) => negb (bool_decide (s = ""))
  | Some (JArray _) => true
  | Some (JObject _) => true
  end.

(** [a && b]: [a] when it is falsy, [b] otherwise. *)
Definition js_and (a b : option json) : option json :=
  if truthy a then b else a.

Record URL := {
  base : string;
  pathname : string;
  searchParams : list (string * string);
}.

(** [new URL(path, base)] for an absolute path without query: the path is
    kept as written. *)
Definition URL_new (path base : string) : URL :=
  {| base := base; pathname := path; searchParams := [] |}.

(** [url.searchParams.set(name, value)]: the first pair named [name] gets
    the value and later ones are dropped; without one the pair is appended. *)
Fixpoint searchParams_set (name value : string) (l : list (string * string))
    : list (string * string) :=
  match l with
  | [] => [(name, value)]
  | (k, v) :: l' =>
      if bool_decide (k = name)
      then (name, value) :: List.filter (λ p, negb (bool_decide (fst p = name))) l'
      else (k, v) :: searchParams_set name value l'
  end.

Definition URL_searchParams_set (name value : string) (u : URL) : URL :=
  {| base := base u; pathname := pathname u;
     searchParams := searchParams_set name value (searchParams u) |}.

Record NextRequest := {
  url : string;
  nextUrl_pathname : string;
  cookies : gmap string string;
}.

(** A response: its status, its headers (names in lower case), and the
    target of its [Location] header, kept structured. *)
Record NextResponse := {
  status : nat;
  headers : gmap string string;
  location : option URL;
}.

(** [NextResponse.redirect(url)]. *)
Definition NextResponse_redirect (u : URL) : NextResponse :=
  {| status := 307; headers := ∅; location := Some u |}.

(** The middleware of next-intl, [createIntlMiddleware(routing)], and the
    default locale of the routing configuration ([./i18n/routing], which is
    not among the sources). *)
Class Intl := {
  handleI18nRouting : NextRequest → NextResponse;
  routing_defaultLocale : string;
}.

Definition protectedRoutes : list string :=
  [ "/dashboard"; "/projects"; "/analytics"; "/settings"; "/predictions";
    "/schedule"; "/stadiums"; "/teams"; "/leagues"; "/leaderboard"; "/rules" ].

Definition authRoutes : list string := [ "/login"; "/signup" ].

(** [s.startsWith(p)]. *)
Definition startsWith (s p : string) : bool := String.prefix p s.

(** [s.replace(/^\/(en|es)/, "")]: a leading [/en] or [/es] is removed. *)
Definition stripLocalePrefix (s : string) : string :=
  match s with
  | String "/"%char (String "e"%char (String "n"%char rest)) => rest
  | String "/"%char (String "e"%char (String "s"%char rest)) => rest
  | _ => s
  end.

(** [a || b] on strings: [b] when [a] is [null] or empty. *)
Definition string_or (a : option string) (b : string) : string :=
  match a with
  | Some s => if bool_decide (s = "") then b else s
  | None => b
  end.

(** [path] starts with one of [routes]. *)
Definition hasPrefixIn (routes : list string) (path : string) : Prop :=
  ∃ route rest, route ∈ routes ∧ path = route ++ rest.

Section Middleware.
Context `{JsonParser} `{Intl}.

(** [isUserAuthenticated(request)] as a computation that might throw. *)
Definition isUserAuthenticated (request : NextRequest) : completion bool :=
  let accessTokenCookie := cookies request !! "accessToken" in
  match accessTokenCookie with
  | Some _ => Normal true
  | None =>
      let authStateCookie := cookies request !! "porraza-auth-state" in
      match authStateCookie with
      | Some value =>
          (* try { ... } catch { return false } *)
          match JSON_parse value with
          | Normal authState =>
              let state := optionalProperty (Some authState) "state" in
              Normal (truthy (js_and (optionalProperty state "userId")
                                     (optionalProperty state "accessToken")))
          | Throw _ => Normal false
          end
      | None => Normal false
      end
  end.

Definition pathnameWithoutLocale (pathname : string) : string :=
  string_or (Some (stripLocalePrefix pathname)) "/".

Definition localeOf (response : NextResponse) : string :=
  string_or (headers response !! "x-middleware-request-x-next-intl-locale")
            routing_defaultLocale.

Definition isProtectedRoute (pathname : string) : bool :=
  existsb (λ route, startsWith (pathnameWithoutLocale pathname) route) protectedRoutes.

Definition isAuthRoute (pathname : string) : bool :=
  existsb (λ route, startsWith (pathnameWithoutLocale pathname) route) authRoutes.

Definition loginUrl (locale : string) (request : NextRequest) : URL :=
  URL_searchParams_set "from" (nextUrl_pathname request)
    (URL_new ("/" ++ locale ++ "/login") (url request)).

Definition dashboardUrl (locale : string) (request : NextRequest) : URL :=
  URL_new ("/" ++ locale ++ "/dashboard") (url request).

(** [proxy(request)]. *)
Definition proxy (request : NextRequest) : completion NextResponse :=
  let pathname := nextUrl_pathname request in
  let response := handleI18nRouting request in
  let locale := localeOf response in
  match isUserAuthenticated request with
  | Throw e => Throw e
  | Normal isAuthenticated =>
      if isProtectedRoute pathname && negb isAuthenticated then
        Normal (NextResponse_redirect (loginUrl locale request))
      else if isAuthRoute pathname && isAuthenticated then
        Normal (NextResponse_redirect (dashboardUrl locale request))
      else Normal response
  end.

End Middleware.

End Proxy.

(** ** Sample data for the examples *)

Module Fixtures.
Import JsNumber KnockoutMatchDialog.

Definition sampleMatch : Domain.RoundOf32Match :=
  {| Domain.match_id := "match-73";
     Domain.homeTeam := {| Domain.team_id := "team-esp"; Domain.team_name := "Spain" |};
     Domain.awayTeam := {| Domain.team_id := "team-jpn"; Domain.team_name := "Japan" |} |}.

(** A draft for [sampleMatch] with the given field values. *)
Definition draft (hs as_ he ae : slot number) (pw : slot string) : FormData :=
  {| matchId := "match-73"; homeTeamId := "team-esp"; awayTeamId := "team-jpn";
     homeScore := hs; awayScore := as_;
     homeScoreET := he; awayScoreET := ae;
     penaltiesWinner := pw |}.

(** A stored prediction with the given scores. *)
Definition stored (hs as_ : number) (he ae : option number) (pw : option string)
    : Domain.UserMatchPrediction :=
  {| Domain.id := Some "pred-1";
     Domain.homeScore := hs; Domain.awayScore := as_;
     Domain.homeScoreET := he; Domain.awayScoreET := ae;
     Domain.penaltiesWinner := pw |}.

(** Props for [sampleMatch] whose save callback settles as given. *)
Definition sampleProps (pid : option string) (outcome : completion unit)
    : MatchContentProps :=
  {| match_ := sampleMatch; predictionId := pid; onSave := λ _ _, outcome |}.

(** A host conversion for the examples: the text of a short unsigned
    decimal integer is converted to its value (the empty text to [0]), any
    other text to NaN. *)
Fixpoint digitsValue (acc : Z) (s : string) : option Z :=
  match s with
  | EmptyString => Some acc
  | String c s' =>
      let n := Z.of_nat (Ascii.nat_of_ascii c) in
      if (48 <=? n)%Z && (n <=? 57)%Z then digitsValue (10 * acc + (n - 48)) s'
      else None
  end.

#[export] Instance decimalNumber : StringToNumber := λ s,
  match digitsValue 0 s with
  | Some z => PrimFloat.of_uint63 (Uint63.of_Z z)
  | None => PrimFloat.nan
  end.

(** A match whose prediction has the given identifier. *)
Definition groupMatch (i : option string) : Domain.MatchWithPrediction :=
  {| Domain.userPrediction :=
       {| Domain.id := i;
          Domain.homeScore := 0%float; Domain.awayScore := 0%float;
          Domain.homeScoreET := None; Domain.awayScoreET := None;
          Domain.penaltiesWinner := None |} |}.

(** A host parser for the examples: it knows the texts of [table] and
    rejects every other text as malformed. *)
Definition tableParser (table : list (string * Proxy.json)) : Proxy.JsonParser :=
  λ text,
    match List.find (λ p, bool_decide (fst p = text)) table with
    | Some p => Normal (snd p)
    | None => Throw (ErrorInstance "Unexpected token")
    end.

(** The double quote character, to write JSON texts. *)
Definition dq : string := String (Ascii.ascii_of_nat 34) EmptyString.

(** [{"state":{"userId":"u-1","accessToken":"tok"}}] and the value it
    parses to. *)
Definition authStateText : string :=
  "{" ++ dq ++ "state" ++ dq ++ ":{" ++ dq ++ "userId" ++ dq ++ ":" ++ dq ++ "u-1" ++ dq
  ++ "," ++ dq ++ "accessToken" ++ dq ++ ":" ++ dq ++ "tok" ++ dq ++ "}}".

Definition authStateValue : Proxy.json :=
  Proxy.JObject
    [("state", Proxy.JObject [("userId", Proxy.JString "u-1");
                              ("accessToken", Proxy.JString "tok")])].

(** [{"state":{"userId":null,"accessToken":null}}]: a signed-out store. *)
Definition signedOutText : string :=
  "{" ++ dq ++ "state" ++ dq ++ ":{" ++ dq ++ "userId" ++ dq ++ ":null,"
  ++ dq ++ "accessToken" ++ dq ++ ":null}}".

Definition signedOutValue : Proxy.json :=
  Proxy.JObject
    [("state", Proxy.JObject [("userId", Proxy.JNull); ("accessToken", Proxy.JNull)])].

Definition sampleParser : Proxy.JsonParser :=
  tableParser [(authStateText, authStateValue); (signedOutText, signedOutValue)].

(** An i18n middleware for the examples: it lets every request through and
    reports the locale [es]; the default locale is [es]. *)
Definition sampleIntl : Proxy.Intl :=
  {| Proxy.handleI18nRouting := λ _,
       {| Proxy.status := 200;
          Proxy.headers := {[ "x-middleware-request-x-next-intl-locale" := "es" ]};
          Proxy.location := None |};
     Proxy.routing_defaultLocale := "es" |}.

Definition sampleRequest (path : string) (cookies : list (string * string))
    : Proxy.NextRequest :=
  {| Proxy.url := "https://porraza.example" ++ path;
     Proxy.nextUrl_pathname := path;
     Proxy.cookies := list_to_map cookies |}.

End Fixtures.

(** ** The knockout match dialog: sessions *)

Module KnockoutMatchDialogSessions.
Import JsNumber KnockoutMatchDialog.

(** The reference for the renders that follow a change of the store: what
    they leave of the store [edited] when the page shows [page] ([None]
    before the first render) and [registered] tells whether the extra-time
    inputs were registered before. The identifiers stay. The regular-time
    scores stay, but on the first render they are what [setValueAs] makes of
    them. The extra-time scores are what [setValue] makes of [null] when the
    regular-time result became decisive, what [setValueAs] makes of them
    when a regular-time tie came onto the page, and stay otherwise. The
    penalty winner stays when the store passes both ties and is [null]
    otherwise. *)
Definition settledDraft (registered : bool) (page : option FormData)
    (edited : FormData) : FormData :=
  let decided := hasValidRegularTimeScores edited && negb (isTied edited) in
  let wasDecided :=
    match page with
    | Some watched => hasValidRegularTimeScores watched && negb (isTied watched)
    | None => false
    end in
  let wasTied :=
    match page with
    | Some watched => isTied watched
    | None => false
    end in
  let regular v :=
    match page with
    | Some _ => v
    | None => setValueAs_regular_stored v
    end in
  let extraTime v :=
    if decided && negb wasDecided then setValue_stored_extraTime registered Null
    else if isTied edited && negb wasTied then setValueAs_extraTime_stored v
    else v in
  {| matchId := matchId edited;
     homeTeamId := homeTeamId edited;
     awayTeamId := awayTeamId edited;
     homeScore := regular (homeScore edited);
     awayScore := regular (awayScore edited);
     homeScoreET := extraTime (homeScoreET edited);
     awayScoreET := extraTime (awayScoreET edited);
     penaltiesWinner :=
       if showPenalties edited then penaltiesWinner edited else Null |}.

(** The notices [onSubmit] shows to the user. *)
Definition isNotice (c : call) : bool :=
  match c with
  | toast_error _ _ | toast_success _ _ => true
  | _ => false
  end.

Section Sessions.
Context `{StringToNumber}.

(** A dialog session: the component is mounted and the user events are
    handled one after the other. *)
Definition session (match_ : Domain.RoundOf32Match)
    (userPrediction : option Domain.UserMatchPrediction)
    (events : list event) : instance :=
  foldl (λ s e, dispatch e s) (mount match_ userPrediction) events.

End Sessions.

End KnockoutMatchDialogSessions.

(** ** The knockout bracket (component [KnockoutBracket]) *)

Module KnockoutBracketComponent.
Import JsNumber Domain KnockoutBracket.

(** Modelled from the spec: the type of the prediction a knockout match
    carries ([pred: any] in [convertPrediction]) is missing; these are the
    properties [convertPrediction] reads. *)
Record UserKnockoutPrediction := {
  kp_id : option string;
  kp_homeScore : number;
  kp_awayScore : number;
  kp_homeScoreET : option number;
  kp_awayScoreET : option number;
  kp_penaltiesWinner : option string;
}.

(** Modelled from the spec: the declaration of the matches of a knockout
    round is missing. A match has an [id], two teams that are [null] until
    they are known, and at most one resolved prediction. *)
Record KnockoutMatch := {
  km_id : string;
  km_homeTeam : option Team;
  km_awayTeam : option Team;
  km_userPrediction : option UserKnockoutPrediction;
}.

(** Modelled from the spec: the declaration of [Knockouts] is missing. The
    bracket is an ordered collection of matches per round, from the round
    of 32 to the final. *)
Record Knockouts := {
  roundOf32 : list KnockoutMatch;
  roundOf16 : list KnockoutMatch;
  quarterFinals : list KnockoutMatch;
  semiFinals : list KnockoutMatch;
  final : KnockoutMatch;
}.

(** [convertPrediction(matchId, pred)], on the fields of
    [UserMatchPrediction] that are modelled. *)
Definition convertPrediction (matchId : string) (pred : UserKnockoutPrediction)
    : UserMatchPrediction :=
  {| id := kp_id pred;
     homeScore := kp_homeScore pred;
     awayScore := kp_awayScore pred;
     homeScoreET := kp_homeScoreET pred;
     awayScoreET := kp_awayScoreET pred;
     penaltiesWinner := kp_penaltiesWinner pred |}.

(** [if (match.userPrediction) map.set(match.id, convertPrediction(...))]. *)
Definition setPrediction (map : gmap string UserMatchPrediction) (m : KnockoutMatch)
    : gmap string UserMatchPrediction :=
  match km_userPrediction m with
  | Some pred => <[km_id m := convertPrediction (km_id m) pred]> map
  | None => map
  end.

(** [predictionsMap]: the predictions of all rounds by match id. *)
Definition predictionsMap (knockouts : option Knockouts)
    : gmap string UserMatchPrediction :=
  match knockouts with
  | None => ∅
  | Some knockouts =>
      let map := foldl setPrediction ∅ (roundOf32 knockouts) in
      let map := foldl setPrediction map (roundOf16 knockouts) in
      let map := foldl setPrediction map (quarterFinals knockouts) in
      let map := foldl setPrediction map (semiFinals knockouts) in
      setPrediction map (final knockouts)
  end.

(** [array.forEach((item, index) => ...)] threading the state that the
    callback updates. *)
Fixpoint forEachIndexed {A St : Type} (f : St → A → nat → St) (l : list A)
    (index : nat) (s : St) : St :=
  match l with
  | [] => s
  | x :: l' => forEachIndexed f l' (S index) (f s x index)
  end.

(** [tournamentMatchMap]: the matches by the number the bracket drawing
    gives them. *)
Definition tournamentMatchMap (knockouts : option Knockouts) : gmap nat KnockoutMatch :=
  match knockouts with
  | None => ∅
  | Some knockouts =>
      let map :=
        forEachIndexed (λ map m index, <[index + 1 := m]> map) (roundOf32 knockouts) 0 ∅ in
      let map :=
        forEachIndexed (λ map m index, <[17 + index := m]> map) (roundOf16 knockouts) 0 map in
      let map :=
        forEachIndexed (λ map m index, <[25 + index := m]> map) (quarterFinals knockouts) 0 map in
      let map :=
        forEachIndexed (λ map m index, <[29 + index := m]> map) (semiFinals knockouts) 0 map in
      <[31 := final knockouts]> map
  end.

(** The match a drawn match stands for. [tournamentMatchId] is
    [Number(match.id)]; [None] is a number that is not a natural number,
    which no key of the map equals. *)
Definition knockoutMatchOf (knockouts : option Knockouts)
    (tournamentMatchId : option nat) : option KnockoutMatch :=
  match tournamentMatchId with
  | Some n => tournamentMatchMap knockouts !! n
  | None => None
  end.

(** [CustomMatchWithPredictions]: the prediction handed to [CustomMatch]. *)
Definition predictionOf (knockouts : option Knockouts)
    (tournamentMatchId : option nat) : option UserMatchPrediction :=
  match knockoutMatchOf knockouts tournamentMatchId with
  | Some knockoutMatch => predictionsMap knockouts !! km_id knockoutMatch
  | None => None
  end.

(** What [CustomMatch] derives from the prediction: which side is styled as
    the winner, and the two score badges, shown only with a prediction. *)
Record matchCell := {
  homeWon : bool;
  awayWon : bool;
  scoreBadges : option (number * number);
}.

Definition CustomMatch (userPrediction : option UserMatchPrediction) : matchCell :=
  let winner :=
    match userPrediction with
    | Some p => getMatchWinner (Some p)
    | None => None
    end in
  {| homeWon := bool_decide (winner = Some "home");
     awayWon := bool_decide (winner = Some "away");
     scoreBadges :=
       match userPrediction with
       | Some p => Some (homeScore p, awayScore p)
       | None => None
       end |}.

(** The state of the bracket component. *)
Record state := {
  selectedMatch : option RoundOf32Match;
  selectedPrediction : option UserMatchPrediction;
  isDialogOpen : bool;
}.

Definition initialState : state :=
  {| selectedMatch := None; selectedPrediction := None; isDialogOpen := false |}.

(** [handleMatchClick]. *)
Definition handleMatchClick (knockouts : option Knockouts)
    (tournamentMatchId : option nat) (st : state) : state :=
  match knockoutMatchOf knockouts tournamentMatchId with
  | Some knockoutMatch =>
      match km_homeTeam knockoutMatch, km_awayTeam knockoutMatch with
      | Some homeTeam, Some awayTeam =>
          let legacyMatch :=
            {| match_id := km_id knockoutMatch;
               Domain.homeTeam := homeTeam;
               Domain.awayTeam := awayTeam |} in
          let userPrediction := predictionsMap knockouts !! km_id knockoutMatch in
          {| selectedMatch := Some legacyMatch;
             selectedPrediction := userPrediction;
             isDialogOpen := true |}
      | _, _ => st
      end
  | None => st
  end.

(** [onClose] of the dialog: [() => setIsDialogOpen(false)]. *)
Definition closeDialog (st : state) : state :=
  {| selectedMatch := selectedMatch st;
     selectedPrediction := selectedPrediction st;
     isDialogOpen := false |}.

Inductive action :=
| ClickMatch (tournamentMatchId : option nat)
| CloseDialog.

Definition step (knockouts : option Knockouts) (st : state) (a : action) : state :=
  match a with
  | ClickMatch n => handleMatchClick knockouts n st
  | CloseDialog => closeDialog st
  end.

(** The state after a sequence of actions on a freshly mounted bracket
    whose [knockouts] stay the same. *)
Definition run (knockouts : option Knockouts) (actions : list action) : state :=
  foldl (step knockouts) initialState actions.

(** The props [MatchContent] gets: the dialog element is rendered under
    [selectedMatch &&] with the selected match and the [predictionId] and
    [onSave] of the bracket, and [KnockoutMatchDialog] hands them on as
    they are. *)
Definition matchContentProps (predictionId : option string)
    (onSave : MatchPhase → list MatchPrediction → completion unit) (st : state)
    : option KnockoutMatchDialog.MatchContentProps :=
  match selectedMatch st with
  | Some m =>
      Some {| KnockoutMatchDialog.match_ := m;
              KnockoutMatchDialog.predictionId := predictionId;
              KnockoutMatchDialog.onSave := onSave |}
  | None => None
  end.

(** All matches of the bracket, in the order the maps are filled. *)
Definition allMatches (knockouts : Knockouts) : list KnockoutMatch :=
  roundOf32 knockouts ++ roundOf16 knockouts ++ quarterFinals knockouts
  ++ semiFinals knockouts ++ [final knockouts].

(** What holds of the state of the bracket after any actions. *)
Definition coherent (knockouts : option Knockouts) (st : state) : Prop :=
  (isDialogOpen st = true → is_Some (selectedMatch st))
  ∧ (selectedMatch st = None → selectedPrediction st = None)
  ∧ ∀ legacyMatch, selectedMatch st = Some legacyMatch →
      ∃ n knockoutMatch,
        knockoutMatchOf knockouts (Some n) = Some knockoutMatch
        ∧ km_homeTeam knockoutMatch = Some (Domain.homeTeam legacyMatch)
        ∧ km_awayTeam knockoutMatch = Some (Domain.awayTeam legacyMatch)
        ∧ km_id knockoutMatch = match_id legacyMatch
        ∧ selectedPrediction st = predictionsMap knockouts !! km_id knockoutMatch.

(** *** Round headers *)

(** [s.slice(n)]: [s] without its first [n] characters. *)
Fixpoint slice (n : nat) (s : string) : string :=
  match n, s with
  | O, _ => s
  | S n', String _ s' => slice n' s'
  | S _, EmptyString => EmptyString
  end.

(** [s.replace(pattern, replacement)] for a string [pattern] and a
    [replacement] without [$]: the first occurrence of the pattern is
    replaced. *)
Fixpoint replace (pattern replacement s : string) : string :=
  if Proxy.startsWith s pattern then
    replacement ++ slice (String.length pattern) s
  else
    match s with
    | EmptyString => EmptyString
    | String c s' => String c (replace pattern replacement s')
    end.

(** What [removeRoundPrefix] does to the text of one [svg text] element. *)
Definition removeRoundPrefix (content : string) : string :=
  if negb (bool_decide (content = "")) && Proxy.startsWith content "Round " then
    replace "Round " "" content
  else content.

(** The three timers of the effect run [removeRoundPrefix] three times. *)
Definition afterTimers (content : string) : string :=
  removeRoundPrefix (removeRoundPrefix (removeRoundPrefix content)).

End KnockoutBracketComponent.

(** ** More values for the examples *)

Module Samples.
Import JsNumber Domain KnockoutBracketComponent.

Definition team (i name : string) : Team := {| team_id := i; team_name := name |}.

Definition knockoutPrediction (hs as_ : number) (he ae : option number)
    (pw : option string) : UserKnockoutPrediction :=
  {| kp_id := Some "kp-1"; kp_homeScore := hs; kp_awayScore := as_;
     kp_homeScoreET := he; kp_awayScoreET := ae; kp_penaltiesWinner := pw |}.

Definition knockoutMatch (i : string) (h a : option Team)
    (p : option UserKnockoutPrediction) : KnockoutMatch :=
  {| km_id := i; km_homeTeam := h; km_awayTeam := a; km_userPrediction := p |}.

(** A small bracket: two matches in the round of 32, one in the round of
    16 whose away team is not known yet, and the final. *)
Definition sampleKnockouts : Knockouts :=
  {| roundOf32 :=
       [knockoutMatch "m-73" (Some (team "team-esp" "Spain")) (Some (team "team-jpn" "Japan"))
          (Some (knockoutPrediction 2%float 0%float None None None));
        knockoutMatch "m-74" (Some (team "team-bra" "Brazil")) (Some (team "team-ned" "Netherlands"))
          None];
     roundOf16 :=
       [knockoutMatch "m-89" (Some (team "team-esp" "Spain")) None None];
     quarterFinals := [];
     semiFinals := [];
     final := knockoutMatch "m-104" None None None |}.

End Samples.

(** * Properties *)

(** ** Facts about JavaScript number comparisons *)

Module JsNumberFacts.
Import JsNumber.

(** The comparison of the binary64 specification is antisymmetric. *)
Lemma SFcompare_antisym x y :
  SFcompare y x = option_map CompOpp (SFcompare x y).
Proof.
  destruct x as [sx|sx| |sx mx ex], y as [sy|sy| |sy my ey]; simpl; try done;
    try (by destruct sx); try (by destruct sy); try (by destruct sx, sy).
  change (PosDef.Pos.compare_cont Eq my mx) with (Pos.compare my mx).
  change (PosDef.Pos.compare_cont Eq mx my) with (Pos.compare mx my).
  rewrite (Z.compare_antisym ex ey), (Pos.compare_antisym mx my).
  destruct sx, sy; simpl; try done;
    destruct (ex ?= ey)%Z; simpl; try done;
    by destruct (mx ?= my)%positive.
Qed.

Lemma SFcompare_refl x : x ≠ S754_nan → SFcompare x x = Some Eq.
Proof.
  destruct x as [s|s| |s m e]; simpl; intros H; try done; try (by destruct s).
  change (PosDef.Pos.compare_cont Eq m m) with (Pos.compare m m).
  rewrite Z.compare_refl, Pos.compare_refl. by destruct s.
Qed.

Lemma SFcompare_defined x y :
  x ≠ S754_nan → y ≠ S754_nan → is_Some (SFcompare x y).
Proof.
  destruct x as [sx|sx| |sx mx ex], y as [sy|sy| |sy my ey]; simpl; try done;
    intros _ _; eexists; reflexivity.
Qed.

Lemma isNaN_spec x : isNaN x = true ↔ Prim2SF x = S754_nan.
Proof.
  unfold isNaN, is_nan. rewrite FloatAxioms.eqb_spec. unfold SFeqb. split.
  - intros H. destruct (Prim2SF x) as [s|s| |s m e] eqn:E; [| |done|];
      by rewrite SFcompare_refl in H.
  - by intros ->.
Qed.

Lemma not_NaN_spec x : isNaN x = false ↔ Prim2SF x ≠ S754_nan.
Proof. rewrite <- isNaN_spec. by destruct (isNaN x). Qed.

(** The outcome of comparing two numbers neither of which is NaN. *)
Lemma compare_cases x y :
  isNaN x = false → isNaN y = false →
  ∃ c, SFcompare (Prim2SF x) (Prim2SF y) = Some c
       ∧ SFcompare (Prim2SF y) (Prim2SF x) = Some (CompOpp c).
Proof.
  rewrite !not_NaN_spec. intros Hx Hy.
  destruct (SFcompare_defined _ _ Hx Hy) as [c Hc]. exists c. split; [done|].
  by rewrite SFcompare_antisym, Hc.
Qed.

(** For numbers that are not NaN, [x < y] is the negation of [x >= y]. *)
Lemma lt_ge x y :
  isNaN x = false → isNaN y = false → lt x y = negb (ge x y).
Proof.
  intros Hx Hy. destruct (compare_cases x y Hx Hy) as (c & H1 & H2).
  unfold lt, ge. rewrite FloatAxioms.ltb_spec, FloatAxioms.leb_spec.
  unfold SFltb, SFleb. rewrite H1, H2. by destruct c.
Qed.

(** Trichotomy for numbers that are not NaN: exactly one of [x > y],
    [y > x] and [x === y] holds. *)
Lemma trichotomy x y :
  isNaN x = false → isNaN y = false →
  (gt x y = true ∧ gt y x = false ∧ eq x y = false)
  ∨ (gt x y = false ∧ gt y x = true ∧ eq x y = false)
  ∨ (gt x y = false ∧ gt y x = false ∧ eq x y = true).
Proof.
  intros Hx Hy. destruct (compare_cases x y Hx Hy) as (c & H1 & H2).
  unfold gt, eq. rewrite !FloatAxioms.ltb_spec, FloatAxioms.eqb_spec.
  unfold SFltb, SFeqb. rewrite H1, H2. destruct c; simpl; auto.
Qed.

Lemma SFcompare_nan x y :
  x = S754_nan ∨ y = S754_nan → SFcompare x y = None ∧ SFcompare y x = None.
Proof. intros [->| ->]; by destruct x || destruct y. Qed.

(** A comparison that involves NaN is false. *)
Lemma NaN_compare x y :
  isNaN x = true ∨ isNaN y = true →
  lt x y = false ∧ gt x y = false ∧ eq x y = false ∧ ge x y = false.
Proof.
  rewrite !isNaN_spec. intros H. apply SFcompare_nan in H as [H1 H2].
  unfold lt, gt, eq, ge.
  rewrite !FloatAxioms.ltb_spec, FloatAxioms.eqb_spec, FloatAxioms.leb_spec.
  unfold SFltb, SFeqb, SFleb. by rewrite H1, H2.
Qed.

(** The comparisons on a few numbers, NaN and the two zeros included. *)
Example number_examples :
  isNaN PrimFloat.nan = true
  ∧ eq PrimFloat.nan PrimFloat.nan = false
  ∧ lt 1%float 2%float = true
  ∧ gt 1%float 2%float = false
  ∧ ge 2%float 2%float = true
  ∧ eq 0%float (-0)%float = true
  ∧ lt PrimFloat.nan 1%float = false
  ∧ ge PrimFloat.nan 1%float = false.
Proof. repeat split. Qed.

End JsNumberFacts.

(** ** The knockout match dialog *)

Module KnockoutMatchDialogFacts.
Import JsNumber JsNumberFacts KnockoutMatchDialog Fixtures.

(** *** Characterisation of the derived values *)

Lemma isValidNumber_spec v : isValidNumber v = true ↔ ∃ n, holds v n.
Proof.
  unfold isValidNumber, holds, Slot.global_isNaN. split.
  - destruct v as [| |n]; simpl; try done.
    intros H. exists n. by destruct (isNaN n).
  - intros (n & -> & Hn). simpl. by rewrite Hn.
Qed.

Lemma isValidNumber_Val n : isValidNumber (Val n) = negb (isNaN n).
Proof. unfold isValidNumber, Slot.global_isNaN. simpl. by destruct (isNaN n). Qed.

Lemma hasValidRegularTimeScores_spec d :
  hasValidRegularTimeScores d = true ↔
  ∃ h a, holds (homeScore d) h ∧ holds (awayScore d) a.
Proof.
  unfold hasValidRegularTimeScores. rewrite andb_true_iff, !isValidNumber_spec.
  split.
  - intros [[h Hh] [a Ha]]. by exists h, a.
  - intros (h & a & Hh & Ha). split; by eexists.
Qed.

Lemma hasValidETScores_spec d :
  hasValidETScores d = true ↔
  ∃ he ae, holds (homeScoreET d) he ∧ holds (awayScoreET d) ae.
Proof.
  unfold hasValidETScores. rewrite andb_true_iff, !isValidNumber_spec.
  split.
  - intros [[h Hh] [a Ha]]. by exists h, a.
  - intros (h & a & Hh & Ha). split; by eexists.
Qed.

Lemma isTied_spec d :
  isTied d = true ↔
  ∃ h a, holds (homeScore d) h ∧ holds (awayScore d) a ∧ eq h a = true.
Proof.
  unfold isTied. rewrite andb_true_iff, hasValidRegularTimeScores_spec. split.
  - intros [(h & a & [Hh ?] & [Ha ?]) He]. exists h, a.
    rewrite Hh, Ha in He. by repeat split.
  - intros (h & a & [Hh ?] & [Ha ?] & He). split.
    + exists h, a. by repeat split.
    + by rewrite Hh, Ha.
Qed.

Lemma isTiedInET_spec d :
  isTiedInET d = true ↔
  ∃ he ae, holds (homeScoreET d) he ∧ holds (awayScoreET d) ae ∧ eq he ae = true.
Proof.
  unfold isTiedInET. rewrite andb_true_iff, hasValidETScores_spec. split.
  - intros [(h & a & [Hh ?] & [Ha ?]) He]. exists h, a.
    rewrite Hh, Ha in He. by repeat split.
  - intros (h & a & [Hh ?] & [Ha ?] & He). split.
    + exists h, a. by repeat split.
    + by rewrite Hh, Ha.
Qed.


(** When both operands hold valid numbers, [<] on the slots is the negation
    of [>=] on the numbers. *)
Lemma slot_lt_holds v w x y :
  holds v x → holds w y → Slot.lt v w = negb (ge x y).
Proof. intros [-> Hx] [-> Hy]. unfold Slot.lt. simpl. by apply lt_ge. Qed.

Lemma holds_inj v x y : holds v x → holds v y → x = y.
Proof. intros [-> _] [[= ->] _]. done. Qed.

Lemma truthy_spec (v : slot string) :
  Slot.truthy v = true ↔ ∃ w, v = Val w ∧ w ≠ "".
Proof.
  destruct v as [| |w]; simpl.
  - split; [done | by intros (? & ? & ?)].
  - split; [done | by intros (? & ? & ?)].
  - rewrite negb_true_iff, bool_decide_eq_false. split.
    + intros H. by exists w.
    + by intros (? & [= ->] & ?).
Qed.

Lemma not_null_false {A} (v : slot A) : Slot.not_null v = false ↔ v = Null.
Proof. by destruct v. Qed.

(** The three decided states make the form complete. *)
Lemma StateB_complete d : StateB d → isFormIncomplete d = false.
Proof.
  intros (h & a & Hh & Ha & Hne & HhE & HaE & Hpw).
  assert (hasValidRegularTimeScores d = true) as Hv
    by (apply hasValidRegularTimeScores_spec; by exists h, a).
  assert (isTied d = false) as Ht.
  { apply not_true_iff_false. rewrite isTied_spec.
    intros (h' & a' & Hh' & Ha' & He).
    rewrite (holds_inj _ _ _ Hh Hh'), (holds_inj _ _ _ Ha Ha') in Hne. congruence. }
  unfold isFormIncomplete. rewrite Hv, Ht, HhE, HaE, Hpw. done.
Qed.

Lemma StateD_complete d : StateD d → isFormIncomplete d = false.
Proof.
  intros (h & a & he & ae & Hh & Ha & He & Hhe & Hae & Hge1 & Hge2 & Hne & Hpw).
  assert (hasValidRegularTimeScores d = true) as Hv
    by (apply hasValidRegularTimeScores_spec; by exists h, a).
  assert (isTied d = true) as Ht by (apply isTied_spec; by exists h, a).
  assert (hasValidETScores d = true) as HvE
    by (apply hasValidETScores_spec; by exists he, ae).
  assert (isTiedInET d = false) as HtE.
  { apply not_true_iff_false. rewrite isTiedInET_spec.
    intros (h' & a' & Hh' & Ha' & He').
    rewrite (holds_inj _ _ _ Hhe Hh'), (holds_inj _ _ _ Hae Ha') in Hne. congruence. }
  unfold isFormIncomplete.
  rewrite Hv, Ht, HvE, HtE, (slot_lt_holds _ _ _ _ Hhe Hh),
    (slot_lt_holds _ _ _ _ Hae Ha), Hge1, Hge2, Hpw. done.
Qed.

Lemma StateF_complete d : StateF d → isFormIncomplete d = false.
Proof.
  intros (h & a & he & ae & w & Hh & Ha & He & Hhe & Hae & Hge1 & Hge2 & HeE & Hpw & Hw).
  assert (hasValidRegularTimeScores d = true) as Hv
    by (apply hasValidRegularTimeScores_spec; by exists h, a).
  assert (isTied d = true) as Ht by (apply isTied_spec; by exists h, a).
  assert (hasValidETScores d = true) as HvE
    by (apply hasValidETScores_spec; by exists he, ae).
  assert (isTiedInET d = true) as HtE by (apply isTiedInET_spec; by exists he, ae).
  assert (Slot.truthy (penaltiesWinner d) = true) as Htr
    by (apply truthy_spec; by exists w).
  unfold isFormIncomplete.
  rewrite Hv, Ht, HvE, HtE, (slot_lt_holds _ _ _ _ Hhe Hh),
    (slot_lt_holds _ _ _ _ Hae Ha), Hge1, Hge2, Htr. done.
Qed.

(** A complete form is in one of the three decided states. *)
Lemma complete_decided d :
  isFormIncomplete d = false → StateB d ∨ StateD d ∨ StateF d.
Proof.
  unfold isFormIncomplete.
  destruct (hasValidRegularTimeScores d) eqn:Hv; simpl; [|done].
  apply hasValidRegularTimeScores_spec in Hv as (h & a & Hh & Ha).
  destruct (isTied d) eqn:Ht; simpl.
  - apply isTied_spec in Ht as (h' & a' & Hh' & Ha' & He).
    rewrite <- (holds_inj _ _ _ Hh Hh'), <- (holds_inj _ _ _ Ha Ha') in He.
    destruct (hasValidETScores d) eqn:HvE; simpl; [|done].
    apply hasValidETScores_spec in HvE as (he & ae & Hhe & Hae).
    rewrite (slot_lt_holds _ _ _ _ Hhe Hh), (slot_lt_holds _ _ _ _ Hae Ha).
    destruct (ge he h) eqn:Hge1; simpl; [|done].
    destruct (ge ae a) eqn:Hge2; simpl; [|done].
    destruct (isTiedInET d) eqn:HtE; simpl.
    + destruct (Slot.truthy (penaltiesWinner d)) eqn:Htr; simpl; [|done].
      intros _. right; right.
      apply truthy_spec in Htr as (w & Hw & Hne).
      apply isTiedInET_spec in HtE as (he' & ae' & Hhe' & Hae' & HeE).
      rewrite <- (holds_inj _ _ _ Hhe Hhe'), <- (holds_inj _ _ _ Hae Hae') in HeE.
      by exists h, a, he, ae, w.
    + destruct (Slot.not_null (penaltiesWinner d)) eqn:Hpw; simpl; [done|].
      intros _. right; left. apply not_null_false in Hpw.
      assert (eq he ae = false) as HneE.
      { apply not_true_iff_false. intros HeE. apply not_true_iff_false in HtE.
        apply HtE, isTiedInET_spec. by exists he, ae. }
      by exists h, a, he, ae.
  - destruct (Slot.not_null (homeScoreET d)) eqn:H1; simpl; [done|].
    destruct (Slot.not_null (awayScoreET d)) eqn:H2; simpl; [done|].
    destruct (Slot.not_null (penaltiesWinner d)) eqn:H3; simpl; [done|].
    intros _. left. apply not_null_false in H1, H2, H3.
    assert (eq h a = false) as Hne.
    { apply not_true_iff_false. intros He. apply not_true_iff_false in Ht.
      apply Ht, isTied_spec. by exists h, a. }
    by exists h, a.
Qed.

(** *** The submit gate *)

(** C1. The form is reported complete ([isFormIncomplete] returns [false])
    exactly when the draft is in one of the three decided states: decided in
    regular time (both regular-time scores valid and unequal, extra-time
    scores and penalty winner [null]), decided in extra time (regular time
    tied, both extra-time scores valid, each [>=] its regular-time score,
    unequal, penalty winner [null]), or resolved by penalties (both tied,
    cumulative ordering honoured, a penalty winner selected). With no
    submission in flight, that is exactly when the rendered submit button is
    enabled. *)
Theorem submit_enabled_iff_decided (d : FormData) :
  (isFormIncomplete d = false ↔ StateB d ∨ StateD d ∨ StateF d)
  ∧ (submitDisabled (render d false false) = false ↔ StateB d ∨ StateD d ∨ StateF d).
Proof.
  assert (isFormIncomplete d = false ↔ StateB d ∨ StateD d ∨ StateF d) as Hiff.
  { split; [apply complete_decided|].
    intros [HB|[HD|HF]];
      [by apply StateB_complete | by apply StateD_complete | by apply StateF_complete]. }
  split; [done|]. simpl. by rewrite !orb_false_r.
Qed.

(** The three decided states exclude one another. *)
Lemma decided_states_exclusive d :
  ¬ (StateB d ∧ StateD d) ∧ ¬ (StateB d ∧ StateF d) ∧ ¬ (StateD d ∧ StateF d).
Proof.
  repeat split.
  - intros [(h & a & Hh & Ha & Hne & _) (h' & a' & _ & _ & Hh' & Ha' & He & _)].
    rewrite (holds_inj _ _ _ Hh Hh'), (holds_inj _ _ _ Ha Ha') in Hne. congruence.
  - intros [(h & a & Hh & Ha & Hne & _) (h' & a' & _ & _ & _ & Hh' & Ha' & He & _)].
    rewrite (holds_inj _ _ _ Hh Hh'), (holds_inj _ _ _ Ha Ha') in Hne. congruence.
  - intros [(_ & _ & _ & _ & _ & _ & _ & _ & _ & _ & _ & _ & Hpw)
            (_ & _ & _ & _ & w & _ & _ & _ & _ & _ & _ & _ & _ & Hpw' & _)].
    congruence.
Qed.

(** The submit button while a submission is in flight is disabled whatever
    the draft. *)
Lemma submit_disabled_while_saving d isSubmitting isSaving :
  isSubmitting = true ∨ isSaving = true →
  submitDisabled (render d isSubmitting isSaving) = true.
Proof. intros [-> | ->]; simpl; by rewrite ?orb_true_r. Qed.

(** C4. When regular time is tied and both extra-time scores are entered,
    an extra-time score strictly below the corresponding regular-time score
    makes the form incomplete, so submission is blocked. *)
Theorem extra_time_below_regular_blocks (d : FormData) (h a he ae : number) :
  holds (homeScore d) h → holds (awayScore d) a → eq h a = true →
  holds (homeScoreET d) he → holds (awayScoreET d) ae →
  lt he h = true ∨ lt ae a = true →
  isFormIncomplete d = true
  ∧ ∀ isSubmitting isSaving, submitDisabled (render d isSubmitting isSaving) = true.
Proof.
  intros Hh Ha He Hhe Hae Hlt.
  assert (isFormIncomplete d = true) as Hinc.
  { assert (hasValidRegularTimeScores d = true) as Hv
      by (apply hasValidRegularTimeScores_spec; by exists h, a).
    assert (isTied d = true) as Ht by (apply isTied_spec; by exists h, a).
    assert (hasValidETScores d = true) as HvE
      by (apply hasValidETScores_spec; by exists he, ae).
    assert (Slot.lt (homeScoreET d) (homeScore d)
            || Slot.lt (awayScoreET d) (awayScore d) = true) as Hb.
    { destruct Hh as [-> _], Ha as [-> _], Hhe as [-> _], Hae as [-> _].
      unfold Slot.lt. simpl. apply orb_true_iff. done. }
    unfold isFormIncomplete. by rewrite Hv, Ht, HvE, Hb. }
  split; [done|]. intros. simpl. by rewrite Hinc.
Qed.

(** C5. The extra-time fields are rendered exactly when both regular-time
    scores are valid numbers and equal; the penalty-winner field is rendered
    exactly when, in addition, both extra-time scores are valid numbers and
    equal. Hence with valid unequal regular-time scores neither is rendered,
    whatever the other fields hold. *)
Theorem fields_visibility (d : FormData) (isSubmitting isSaving : bool) :
  let v := render d isSubmitting isSaving in
  (extraTimeVisible v = true ↔
     ∃ h a, holds (homeScore d) h ∧ holds (awayScore d) a ∧ eq h a = true)
  ∧ (penaltiesVisible v = true ↔
     (∃ h a, holds (homeScore d) h ∧ holds (awayScore d) a ∧ eq h a = true)
     ∧ (∃ he ae, holds (homeScoreET d) he ∧ holds (awayScoreET d) ae ∧ eq he ae = true))
  ∧ (∀ h a, holds (homeScore d) h → holds (awayScore d) a → eq h a = false →
     extraTimeVisible v = false ∧ penaltiesVisible v = false).
Proof.
  simpl. split; [apply isTied_spec|]. split.
  - unfold showPenalties. by rewrite andb_true_iff, isTied_spec, isTiedInET_spec.
  - intros h a Hh Ha Hne.
    assert (isTied d = false) as Ht.
    { apply not_true_iff_false. rewrite isTied_spec.
      intros (h' & a' & Hh' & Ha' & He).
      rewrite (holds_inj _ _ _ Hh Hh'), (holds_inj _ _ _ Ha Ha') in Hne. congruence. }
    unfold showPenalties. by rewrite Ht.
Qed.

(** C4 at 1-1 with extra time 0-2: the home extra-time score is below the
    home regular-time score. *)
Lemma extra_time_below_regular_blocks_witness :
  isFormIncomplete
    (draft (Val 1%float) (Val 1%float) (Val 0%float) (Val 2%float) Null) = true.
Proof.
  refine (proj1 (extra_time_below_regular_blocks
                   (draft (Val 1%float) (Val 1%float) (Val 0%float) (Val 2%float) Null)
                   1%float 1%float 0%float 2%float _ _ _ _ _ _)).
  - split; reflexivity.
  - split; reflexivity.
  - reflexivity.
  - split; reflexivity.
  - split; reflexivity.
  - left. reflexivity.
Defined.

(** C5 at 2-0: neither the extra-time fields nor the penalty field is
    rendered, even with stale extra-time scores and a stale penalty winner. *)
Lemma fields_visibility_witness :
  let v := render (draft (Val 2%float) (Val 0%float) (Val 3%float) (Val 3%float)
                     (Val "home")) false false in
  extraTimeVisible v = false ∧ penaltiesVisible v = false.
Proof.
  refine (proj2 (proj2 (fields_visibility
            (draft (Val 2%float) (Val 0%float) (Val 3%float) (Val 3%float) (Val "home"))
            false false)) 2%float 0%float _ _ _).
  - split; reflexivity.
  - split; reflexivity.
  - reflexivity.
Defined.

(** The examples of the specification. 2-0 is complete at once; 1-1 needs
    extra time; 1-1 then 1-2 is complete without a penalty winner; 1-1 then
    1-1 needs a penalty winner; an extra-time score below the regular-time
    score is refused. *)
Example isFormIncomplete_examples :
  isFormIncomplete (draft (Val 2%float) (Val 0%float) Null Null Null) = false
  ∧ isFormIncomplete (draft (Val 1%float) (Val 1%float) Null Null Null) = true
  ∧ isFormIncomplete (draft (Val 1%float) (Val 1%float) (Val 1%float) (Val 2%float) Null)
    = false
  ∧ isFormIncomplete (draft (Val 1%float) (Val 1%float) (Val 1%float) (Val 1%float) Null)
    = true
  ∧ isFormIncomplete
      (draft (Val 1%float) (Val 1%float) (Val 1%float) (Val 1%float) (Val "home"))
    = false
  ∧ isFormIncomplete (draft (Val 1%float) (Val 1%float) (Val 0%float) (Val 2%float) Null)
    = true
  ∧ isFormIncomplete (draft Undefined (Val 1%float) Null Null Null) = true
  ∧ isFormIncomplete (draft (Val 2%float) (Val 0%float) (Val 2%float) (Val 0%float) Null)
    = true.
Proof. repeat split. Qed.

(** *** The reset effects *)

Lemma sameDeps_refl l : sameDeps l l = true.
Proof. induction l as [|[] l IH]; simpl; auto. Qed.

Lemma depsChanged_same d deps : depsChanged (Some d) d deps = false.
Proof. unfold depsChanged. by rewrite sameDeps_refl. Qed.

Lemma depsChanged_false d d' deps :
  depsChanged (Some d) d' deps = false → deps d = deps d'.
Proof.
  unfold depsChanged. rewrite negb_false_iff.
  generalize (deps d) (deps d'). induction l as [|a l IH]; intros [|b l']; simpl; try done.
  intros [Hab Hl]%andb_true_iff. apply eqb_prop in Hab. f_equal; auto.
Qed.

Lemma depsChanged_eq d d' deps :
  deps d = deps d' → depsChanged (Some d) d' deps = false.
Proof. unfold depsChanged. intros ->. by rewrite sameDeps_refl. Qed.

(** The flags are read off the four scores. *)
Lemma derive_scores f g :
  homeScore f = homeScore g → awayScore f = awayScore g →
  homeScoreET f = homeScoreET g → awayScoreET f = awayScoreET g →
  derive f = derive g.
Proof.
  intros Hh Ha HhE HaE.
  unfold derive, showPenalties, isTiedInET, isTied, hasValidETScores,
    hasValidRegularTimeScores.
  by rewrite Hh, Ha, HhE, HaE.
Qed.

Lemma regular_flags f g :
  homeScore f = homeScore g → awayScore f = awayScore g →
  hasValidRegularTimeScores f = hasValidRegularTimeScores g ∧ isTied f = isTied g.
Proof.
  intros Hh Ha. unfold isTied, hasValidRegularTimeScores. by rewrite Hh, Ha.
Qed.

(** What [setValueAs] makes of a regular-time score that is not [null]
    has the validity and the value of the score. *)
Lemma setValueAs_regular_stored_valid v :
  regularScore v →
  isValidNumber (setValueAs_regular_stored v) = isValidNumber v
  ∧ (isValidNumber v = true → setValueAs_regular_stored v = v).
Proof.
  unfold regularScore. destruct v as [| |n]; [by intros _|by intros ?|intros _].
  cbn [setValueAs_regular_stored].
  rewrite isValidNumber_Val. destruct (isNaN n) eqn:Hn; cbn.
  - done.
  - by rewrite isValidNumber_Val, Hn.
Qed.

Lemma setValueAs_regular_stored_idemp v :
  setValueAs_regular_stored (setValueAs_regular_stored v) = setValueAs_regular_stored v.
Proof.
  destruct v as [| |n]; cbn; [done|done|].
  destruct (isNaN n) eqn:Hn; cbn; [done|]. by rewrite Hn.
Qed.

Lemma setValueAs_regular_stored_regularScore v :
  regularScore (setValueAs_regular_stored v).
Proof. unfold regularScore. destruct v as [| |n]; cbn; [done|done|]. by destruct (isNaN n). Qed.

(** A valid extra-time score is stored as it is. *)
Lemma setValueAs_extraTime_stored_valid v :
  isValidNumber v = true → setValueAs_extraTime_stored v = v.
Proof.
  destruct v as [| |n]; [done|done|]. rewrite isValidNumber_Val. cbn.
  by destruct (isNaN n).
Qed.

Lemma registerRegular_flags f :
  regularScore (homeScore f) → regularScore (awayScore f) →
  hasValidRegularTimeScores (registerRegular f) = hasValidRegularTimeScores f
  ∧ isTied (registerRegular f) = isTied f.
Proof.
  intros Hh Ha.
  destruct (setValueAs_regular_stored_valid _ Hh) as [Hvh Hih],
    (setValueAs_regular_stored_valid _ Ha) as [Hva Hia].
  unfold isTied, hasValidRegularTimeScores, registerRegular. cbn.
  rewrite Hvh, Hva. split; [done|].
  destruct (isValidNumber (homeScore f)) eqn:E1; [|done].
  destruct (isValidNumber (awayScore f)) eqn:E2; [|done].
  by rewrite Hih, Hia.
Qed.

(** *** One render *)

Lemma runEffects_cases registered prev now f :
  let z := setValue_stored_extraTime registered Null in
  let r1 := depsChanged prev now (λ r, [d_hasValidRegularTimeScores r; d_isTied r]) in
  let fires := r1 && d_hasValidRegularTimeScores now && negb (d_isTied now) in
  let out := runEffects registered prev now f in
  (fires = false ∧ out = (f, false))
  ∨ (fires = false ∧ out = (setValue_penaltiesWinner Null f, true))
  ∨ (fires = true
     ∧ out = (setValue_penaltiesWinner Null
                (setValue_awayScoreET z (setValue_homeScoreET z f)), true)).
Proof.
  cbn zeta. unfold runEffects, resetExtraTimeEffect, resetPenaltiesEffect,
    clearPenaltiesEffect.
  destruct (depsChanged prev now (λ r, [d_hasValidRegularTimeScores r; d_isTied r])),
    (depsChanged prev now (λ r, [d_hasValidETScores r; d_isTiedInET r])),
    (depsChanged prev now (λ r, [d_showPenalties r])),
    (d_hasValidRegularTimeScores now), (d_isTied now),
    (d_hasValidETScores now), (d_isTiedInET now), (d_showPenalties now); cbn;
    try destruct (Slot.not_null (penaltiesWinner f)); cbn; auto 10.
Qed.

(** With unchanged dependencies no effect runs. *)
Lemma runEffects_quiet registered d now f :
  d = now → runEffects registered (Some d) now f = (f, false).
Proof. intros ->. unfold runEffects. by rewrite !depsChanged_same. Qed.

(** The third effect clears a penalty winner when it runs with the penalty
    buttons hidden. *)
Lemma runEffects_clears registered prev now f :
  depsChanged prev now (λ r, [d_showPenalties r]) = true →
  d_showPenalties now = false →
  penaltiesWinner (runEffects registered prev now f).1 = Null.
Proof.
  intros Hr3 Hsp. unfold runEffects, resetExtraTimeEffect, resetPenaltiesEffect,
    clearPenaltiesEffect. rewrite Hr3, Hsp.
  destruct (depsChanged prev now (λ r, [d_hasValidRegularTimeScores r; d_isTied r])),
    (depsChanged prev now (λ r, [d_hasValidETScores r; d_isTiedInET r])),
    (d_hasValidRegularTimeScores now), (d_isTied now),
    (d_hasValidETScores now), (d_isTiedInET now); cbn; try done;
    destruct (penaltiesWinner f) eqn:Hpw; cbn; done.
Qed.

Lemma pass_eq s :
  renderAndRunEffects s =
    ({| values := (runEffects (extraTimeRegistered s || isTied (values s))
                     (lastRender s) (derive (values s)) (commit s)).1;
        rendered := Some (values s);
        extraTimeRegistered := extraTimeRegistered s || isTied (values s) |},
     (runEffects (extraTimeRegistered s || isTied (values s))
        (lastRender s) (derive (values s)) (commit s)).2).
Proof. unfold renderAndRunEffects. cbn zeta. by destruct (runEffects _ _ _ _). Qed.

Lemma pass_rendered s : rendered (renderAndRunEffects s).1 = Some (values s).
Proof. by rewrite pass_eq. Qed.

Lemma pass_registered s :
  extraTimeRegistered (renderAndRunEffects s).1
  = extraTimeRegistered s || isTied (values s).
Proof. by rewrite pass_eq. Qed.

(** The commit *)

Lemma commit_frame s :
  matchId (commit s) = matchId (values s)
  ∧ homeTeamId (commit s) = homeTeamId (values s)
  ∧ awayTeamId (commit s) = awayTeamId (values s)
  ∧ penaltiesWinner (commit s) = penaltiesWinner (values s).
Proof.
  unfold commit. destruct (rendered s), (isTied (values s) && negb (extraTimeMounted s)); done.
Qed.

Lemma commit_regular s :
  homeScore (commit s) =
    (if rendered s is None then setValueAs_regular_stored (homeScore (values s))
     else homeScore (values s))
  ∧ awayScore (commit s) =
    (if rendered s is None then setValueAs_regular_stored (awayScore (values s))
     else awayScore (values s)).
Proof.
  unfold commit. destruct (rendered s), (isTied (values s) && negb (extraTimeMounted s)); done.
Qed.

Lemma commit_extraTime s :
  homeScoreET (commit s) =
    (if isTied (values s) && negb (extraTimeMounted s)
     then setValueAs_extraTime_stored (homeScoreET (values s))
     else homeScoreET (values s))
  ∧ awayScoreET (commit s) =
    (if isTied (values s) && negb (extraTimeMounted s)
     then setValueAs_extraTime_stored (awayScoreET (values s))
     else awayScoreET (values s)).
Proof.
  unfold commit. destruct (rendered s), (isTied (values s) && negb (extraTimeMounted s)); done.
Qed.

(** A commit that mounts nothing leaves the store as it is. *)
Lemma commit_nothing s r :
  rendered s = Some r → isTied r = isTied (values s) → commit s = values s.
Proof.
  intros Hr Ht. unfold commit, extraTimeMounted. rewrite Hr, Ht.
  by destruct (isTied (values s)).
Qed.

(** The effects write neither the identifiers nor the regular-time
    scores. *)
Lemma runEffects_frame registered prev now f :
  let f' := (runEffects registered prev now f).1 in
  matchId f' = matchId f ∧ homeTeamId f' = homeTeamId f ∧ awayTeamId f' = awayTeamId f
  ∧ homeScore f' = homeScore f ∧ awayScore f' = awayScore f.
Proof.
  cbn zeta.
  destruct (runEffects_cases registered prev now f) as [[_ ->]|[[_ ->]|[_ ->]]]; done.
Qed.

(** The effects write [null] to the penalty winner or leave it. *)
Lemma runEffects_penaltiesWinner registered prev now f :
  let out := runEffects registered prev now f in
  (out.2 = true → penaltiesWinner out.1 = Null)
  ∧ (out.2 = false → out.1 = f)
  ∧ (penaltiesWinner f = Null → penaltiesWinner out.1 = Null).
Proof.
  cbn zeta.
  destruct (runEffects_cases registered prev now f) as [[_ ->]|[[_ ->]|[_ ->]]]; done.
Qed.

(** The extra-time scores after the effects. *)
Lemma runEffects_extraTime registered prev now f :
  let z := setValue_stored_extraTime registered Null in
  let fires := depsChanged prev now (λ r, [d_hasValidRegularTimeScores r; d_isTied r])
               && d_hasValidRegularTimeScores now && negb (d_isTied now) in
  let f' := (runEffects registered prev now f).1 in
  homeScoreET f' = (if fires then z else homeScoreET f)
  ∧ awayScoreET f' = (if fires then z else awayScoreET f)
  ∧ (fires = true → penaltiesWinner f' = Null).
Proof.
  cbn zeta.
  destruct (runEffects_cases registered prev now f) as [[-> ->]|[[-> ->]|[-> ->]]]; done.
Qed.

(** *** The renders come to rest *)

Lemma inStep_quiet s :
  inStep s →
  renderAndRunEffects s =
    ({| values := values s; rendered := Some (values s);
        extraTimeRegistered := extraTimeRegistered s || isTied (values s) |}, false).
Proof.
  intros (r & Hr & Hd). rewrite pass_eq.
  assert (isTied r = isTied (values s)) as Ht
    by (change (d_isTied (derive r) = d_isTied (derive (values s))); by rewrite Hd).
  rewrite (commit_nothing s r Hr Ht). unfold lastRender. rewrite Hr. cbn [fmap option_fmap option_map].
  by rewrite (runEffects_quiet _ _ _ _ Hd).
Qed.

(** With the regular-time flags in step a render writes no score. *)
Lemma regularInStep_pass s :
  regularInStep s →
  let s' := (renderAndRunEffects s).1 in
  homeScore (values s') = homeScore (values s)
  ∧ awayScore (values s') = awayScore (values s)
  ∧ homeScoreET (values s') = homeScoreET (values s)
  ∧ awayScoreET (values s') = awayScoreET (values s).
Proof.
  intros (r & Hr & Hhv & Ht). cbn zeta. rewrite pass_eq. cbn [fst values].
  destruct (runEffects_frame (extraTimeRegistered s || isTied (values s))
              (lastRender s) (derive (values s)) (commit s)) as (_ & _ & _ & -> & ->).
  destruct (runEffects_extraTime (extraTimeRegistered s || isTied (values s))
              (lastRender s) (derive (values s)) (commit s)) as (-> & -> & _).
  rewrite (commit_nothing s r Hr Ht).
  unfold lastRender. rewrite Hr. cbn [fmap option_fmap option_map].
  rewrite depsChanged_eq; [done|]. cbn. by rewrite Hhv, Ht.
Qed.

Lemma regularInStep_inStep s :
  regularInStep s → inStep (renderAndRunEffects s).1.
Proof.
  intros Hs. destruct (regularInStep_pass s Hs) as (Hh & Ha & HhE & HaE).
  exists (values s). split; [apply pass_rendered|]. symmetry. by apply derive_scores.
Qed.

(** After the first render the regular-time scores stay as they are. *)
Lemma pass_regular s r :
  rendered s = Some r →
  homeScore (values (renderAndRunEffects s).1) = homeScore (values s)
  ∧ awayScore (values (renderAndRunEffects s).1) = awayScore (values s).
Proof.
  intros Hr. rewrite pass_eq. cbn [fst values].
  destruct (runEffects_frame (extraTimeRegistered s || isTied (values s))
              (lastRender s) (derive (values s)) (commit s)) as (_ & _ & _ & -> & ->).
  destruct (commit_regular s) as [-> ->]. by rewrite Hr.
Qed.

Lemma pass_regularInStep s r :
  rendered s = Some r → regularInStep (renderAndRunEffects s).1.
Proof.
  intros Hr. destruct (pass_regular s r Hr) as [Hh Ha].
  exists (values s). split; [apply pass_rendered|]. by apply regular_flags.
Qed.

Lemma comesToRest_S n s : comesToRest n s = true → comesToRest (S n) s = true.
Proof.
  revert s. induction n as [|n IH]; intros s; [done|].
  cbn [comesToRest]. destruct (renderAndRunEffects s) as [s' []]; [|done]. apply IH.
Qed.

Lemma comesToRest_le n m s :
  (n ≤ m)%nat → comesToRest n s = true → comesToRest m s = true.
Proof. induction 1; [done|]. intros Hn. by apply comesToRest_S, IHle. Qed.

Lemma inStep_comesToRest s : inStep s → comesToRest 1 s = true.
Proof. intros Hs. cbn. by rewrite (inStep_quiet s Hs). Qed.

Lemma regularInStep_comesToRest s : regularInStep s → comesToRest 2 s = true.
Proof.
  intros Hs. pose proof (regularInStep_inStep s Hs) as Hs'.
  cbn [comesToRest]. destruct (renderAndRunEffects s) as [s' []]; [|done].
  by apply inStep_comesToRest.
Qed.

Lemma rendered_comesToRest s r : rendered s = Some r → comesToRest 3 s = true.
Proof.
  intros Hr. pose proof (pass_regularInStep s r Hr) as Hs'.
  cbn [comesToRest]. destruct (renderAndRunEffects s) as [s' []]; [|done].
  by apply regularInStep_comesToRest.
Qed.

Lemma always_comesToRest s : comesToRest 4 s = true.
Proof.
  pose proof (pass_rendered s) as Hr. cbn [comesToRest].
  destruct (renderAndRunEffects s) as [s' []]; [|done].
  by apply (rendered_comesToRest s' (values s)).
Qed.

(** More fuel than the renders need changes nothing. *)
Lemma settle_comesToRest n m s :
  comesToRest n s = true → (n ≤ m)%nat → settle m s = settle n s.
Proof.
  revert m s. induction n as [|n IH]; intros m s; [done|].
  intros Hn Hm. destruct m as [|m]; [lia|]. cbn [settle comesToRest] in *.
  destruct (renderAndRunEffects s) as [s' []]; [|done]. apply IH; [done|lia].
Qed.


(** *** What holds between and after the renders *)

Lemma lastRender_Some s d :
  lastRender s = Some d → ∃ r, rendered s = Some r ∧ d = derive r.
Proof.
  unfold lastRender. destruct (rendered s) as [r|]; [|done].
  intros [= <-]. by exists r.
Qed.

(** The first effect did not run on valid scores that differ: the render
    before had such scores too. *)
Lemma resetExtraTime_skipped s :
  depsChanged (lastRender s) (derive (values s))
    (λ r, [d_hasValidRegularTimeScores r; d_isTied r]) = false →
  ∃ r, rendered s = Some r
       ∧ hasValidRegularTimeScores r = hasValidRegularTimeScores (values s)
       ∧ isTied r = isTied (values s).
Proof.
  destruct (lastRender s) as [d|] eqn:Hd; [|done].
  apply lastRender_Some in Hd as (r & Hr & ->).
  intros [= Hhv Ht]%depsChanged_false. by exists r.
Qed.

Lemma clearPenalties_skipped s :
  depsChanged (lastRender s) (derive (values s)) (λ r, [d_showPenalties r]) = false →
  ∃ r, rendered s = Some r ∧ showPenalties r = showPenalties (values s).
Proof.
  destruct (lastRender s) as [d|] eqn:Hd; [|done].
  apply lastRender_Some in Hd as (r & Hr & ->).
  intros [= Hsp]%depsChanged_false. by exists r.
Qed.

Lemma cascadeInvariant_pass s :
  cascadeInvariant s → cascadeInvariant (renderAndRunEffects s).1.
Proof.
  intros (Hh & Ha & Hfix & Hd & He).
  set (registered := extraTimeRegistered s || isTied (values s)).
  set (prev := lastRender s). set (now := derive (values s)).
  pose proof (runEffects_frame registered prev now (commit s)) as (_ & _ & _ & Hh' & Ha').
  pose proof (runEffects_extraTime registered prev now (commit s)) as (HhE & HaE & Hpw).
  pose proof (runEffects_penaltiesWinner registered prev now (commit s)) as (_ & _ & Hkeep).
  pose proof (commit_regular s) as [Hch Hca].
  pose proof (commit_frame s) as (_ & _ & _ & Hcpw).
  unfold cascadeInvariant. rewrite pass_eq.
  cbn [fst values rendered extraTimeRegistered].
  fold registered prev now. cbn zeta in *. rewrite Hh', Ha', Hch, Hca.
  split; [|split; [|split; [|split]]].
  - destruct (rendered s); [done|apply setValueAs_regular_stored_regularScore].
  - destruct (rendered s); [done|apply setValueAs_regular_stored_regularScore].
  - intros r _. destruct (rendered s) as [r0|] eqn:Hr.
    + apply (Hfix r0 eq_refl).
    + split; apply setValueAs_regular_stored_idemp.
  - intros r [= <-] Hhv Ht _ _.
    assert (registered = extraTimeRegistered s) as Hreg
      by (unfold registered; rewrite Ht; apply orb_false_r).
    rewrite HhE, HaE.
    destruct (depsChanged prev now (λ r, [d_hasValidRegularTimeScores r; d_isTied r]))
      eqn:Hr1; cbn [d_hasValidRegularTimeScores d_isTied now derive andb] in *.
    + rewrite Hhv, Ht in *. cbn [andb negb] in *. by rewrite Hpw.
    + cbn [andb] in *.
      apply resetExtraTime_skipped in Hr1 as (r0 & Hr0 & Hhv0 & Ht0).
      rewrite Hhv in Hhv0. rewrite Ht in Ht0.
      destruct (Hd r0 Hr0 Hhv0 Ht0 Hhv Ht) as (HE1 & HE2 & Hw).
      destruct (commit_extraTime s) as [-> ->]. rewrite Ht. cbn [andb].
      split; [by rewrite Hreg|]. split; [by rewrite Hreg|].
      apply Hkeep. by rewrite Hcpw.
  - intros r [= <-] Hsp _.
    destruct (depsChanged prev now (λ r, [d_showPenalties r])) eqn:Hr3.
    + by apply runEffects_clears.
    + apply clearPenalties_skipped in Hr3 as (r0 & Hr0 & Hsp0). rewrite Hsp in Hsp0.
      apply Hkeep. rewrite Hcpw. by apply (He r0).
Qed.

(** A render that writes nothing leaves a settled dialog. *)
Lemma resetInvariant_quiet s :
  cascadeInvariant s → (renderAndRunEffects s).2 = false →
  resetInvariant (renderAndRunEffects s).1.
Proof.
  intros (Hh & Ha & Hfix & Hd & He).
  set (registered := extraTimeRegistered s || isTied (values s)).
  set (prev := lastRender s). set (now := derive (values s)).
  pose proof (runEffects_cases registered prev now (commit s)) as Hcases.
  pose proof (runEffects_clears registered prev now (commit s)) as Hclears.
  pose proof (commit_regular s) as [Hch Hca].
  pose proof (commit_extraTime s) as [HchE HcaE].
  pose proof (commit_frame s) as (Hid1 & Hid2 & Hid3 & Hcpw).
  rewrite pass_eq. cbn [fst snd]. fold registered prev now. intros Hquiet.
  cbn zeta in Hcases.
  destruct Hcases as [[Hfires Hout]|[[_ Hout]|[_ Hout]]];
    [|by rewrite Hout in Hquiet..].
  rewrite Hout in *. cbn [fst snd] in *. clear Hquiet Hout.
  exists (values s). cbn [values rendered extraTimeRegistered].
  rewrite Hid1, Hid2, Hid3, Hcpw.
  split; [done|]. split; [done|]. split; [done|]. split; [done|].
  split; [|split].
  { rewrite Hch. destruct (rendered s) as [r0|] eqn:Hr; [|done].
    symmetry. apply (Hfix r0 eq_refl). }
  { rewrite Hca. destruct (rendered s) as [r0|] eqn:Hr; [|done].
    symmetry. apply (Hfix r0 eq_refl). }
  split; [done|]. split; [done|]. split; [done|]. split; [|split; [|split]].
  - rewrite HchE, HcaE.
    destruct (isTied (values s) && negb (extraTimeMounted s)) eqn:Hm; [|by left].
    right. by apply andb_true_iff in Hm as [-> _].
  - intros Ht. unfold registered. rewrite Ht. apply orb_true_r.
  - intros Hhv Ht.
    assert (registered = extraTimeRegistered s) as Hreg
      by (unfold registered; rewrite Ht; apply orb_false_r).
    cbn [now derive d_hasValidRegularTimeScores d_isTied] in Hfires.
    rewrite Hhv, Ht in Hfires. cbn [negb] in Hfires. rewrite !andb_true_r in Hfires.
    apply resetExtraTime_skipped in Hfires as (r0 & Hr0 & Hhv0 & Ht0).
    rewrite Hhv in Hhv0. rewrite Ht in Ht0.
    destruct (Hd r0 Hr0 Hhv0 Ht0 Hhv Ht) as (HE1 & HE2 & Hw).
    rewrite (commit_nothing s r0 Hr0) by congruence. by rewrite Hreg.
  - intros Hsp.
    destruct (depsChanged prev now (λ r, [d_showPenalties r])) eqn:Hr3.
    + rewrite <- Hcpw. by apply Hclears.
    + apply clearPenalties_skipped in Hr3 as (r0 & Hr0 & Hsp0). rewrite Hsp in Hsp0.
      by apply (He r0).
Qed.

Lemma resetInvariant_settle n s :
  cascadeInvariant s → comesToRest n s = true → resetInvariant (settle n s).
Proof.
  revert s. induction n as [|n IH]; intros s Hs Hn; [done|].
  cbn [settle comesToRest] in *.
  pose proof (cascadeInvariant_pass s Hs) as Hs'.
  pose proof (resetInvariant_quiet s Hs) as Hq.
  destruct (renderAndRunEffects s) as [s' []]; cbn [fst snd] in *.
  - by apply IH.
  - by apply Hq.
Qed.

Lemma comesToRest_maxUpdateDepth s : comesToRest maxUpdateDepth s = true.
Proof.
  apply (comesToRest_le 4); [unfold maxUpdateDepth; lia|apply always_comesToRest].
Qed.

(** The page and the store of a settled dialog agree on the regular-time
    flags. *)
Lemma resetInvariant_flags s :
  resetInvariant s →
  ∃ watched, rendered s = Some watched
    ∧ hasValidRegularTimeScores watched = hasValidRegularTimeScores (values s)
    ∧ isTied watched = isTied (values s).
Proof.
  intros (w & Hw & _ & _ & _ & Hh & Ha & Hrh & Hra & _). exists w. split; [done|].
  destruct (registerRegular_flags w Hrh Hra) as [<- <-].
  by apply regular_flags.
Qed.

Lemma resetInvariant_regularInStep s : resetInvariant s → regularInStep s.
Proof. intros (w & Hw & Hhv & Ht)%resetInvariant_flags. by exists w. Qed.

(** *** What the renders of one cascade keep *)

Lemma pass_frame s :
  matchId (values (renderAndRunEffects s).1) = matchId (values s)
  ∧ homeTeamId (values (renderAndRunEffects s).1) = homeTeamId (values s)
  ∧ awayTeamId (values (renderAndRunEffects s).1) = awayTeamId (values s).
Proof.
  rewrite pass_eq. cbn [fst values].
  destruct (runEffects_frame (extraTimeRegistered s || isTied (values s))
              (lastRender s) (derive (values s)) (commit s)) as (-> & -> & -> & _).
  by destruct (commit_frame s) as (-> & -> & -> & _).
Qed.

Lemma pass_penaltiesWinner s :
  let out := renderAndRunEffects s in
  (out.2 = true → penaltiesWinner (values out.1) = Null)
  ∧ (out.2 = false → values out.1 = commit s)
  ∧ (penaltiesWinner (values s) = Null → penaltiesWinner (values out.1) = Null).
Proof.
  cbn zeta. rewrite pass_eq. cbn [fst snd values].
  destruct (runEffects_penaltiesWinner (extraTimeRegistered s || isTied (values s))
              (lastRender s) (derive (values s)) (commit s)) as (H1 & H2 & H3).
  split; [done|]. split; [done|]. intros Hpw. apply H3.
  by destruct (commit_frame s) as (_ & _ & _ & ->).
Qed.

Lemma settle_frame n s :
  matchId (values (settle n s)) = matchId (values s)
  ∧ homeTeamId (values (settle n s)) = homeTeamId (values s)
  ∧ awayTeamId (values (settle n s)) = awayTeamId (values s).
Proof.
  revert s. induction n as [|n IH]; intros s; [done|]. cbn [settle].
  pose proof (pass_frame s) as (H1 & H2 & H3).
  destruct (renderAndRunEffects s) as [s' []]; cbn [fst] in *; [|done].
  destruct (IH s') as (-> & -> & ->). done.
Qed.

Lemma settle_regular n s r :
  rendered s = Some r →
  homeScore (values (settle n s)) = homeScore (values s)
  ∧ awayScore (values (settle n s)) = awayScore (values s).
Proof.
  revert s r. induction n as [|n IH]; intros s r Hr; [done|]. cbn [settle].
  pose proof (pass_regular s r Hr) as [H1 H2]. pose proof (pass_rendered s) as Hr'.
  destruct (renderAndRunEffects s) as [s' []]; cbn [fst] in *; [|done].
  destruct (IH s' _ Hr') as [-> ->]. done.
Qed.

Lemma settle_extraTime n s :
  regularInStep s →
  homeScoreET (values (settle n s)) = homeScoreET (values s)
  ∧ awayScoreET (values (settle n s)) = awayScoreET (values s).
Proof.
  revert s. induction n as [|n IH]; intros s Hs; [done|]. cbn [settle].
  pose proof (regularInStep_pass s Hs) as (_ & _ & H1 & H2).
  pose proof (regularInStep_inStep s Hs) as (r' & Hr' & Hd').
  destruct (renderAndRunEffects s) as [s' []]; cbn [fst] in *; [|done].
  destruct (IH s') as [-> ->]; [|done].
  exists r'. split; [done|].
  change (d_hasValidRegularTimeScores (derive r') = d_hasValidRegularTimeScores (derive (values s'))
          ∧ d_isTied (derive r') = d_isTied (derive (values s'))).
  by rewrite Hd'.
Qed.

Lemma settle_penaltiesWinner n s :
  penaltiesWinner (values s) = Null → penaltiesWinner (values (settle n s)) = Null.
Proof.
  revert s. induction n as [|n IH]; intros s Hs; [done|]. cbn [settle].
  pose proof (pass_penaltiesWinner s) as (_ & _ & H3). specialize (H3 Hs).
  destruct (renderAndRunEffects s) as [s' []]; cbn [fst] in *; [|done].
  by apply IH.
Qed.

Lemma settle_registered n s r :
  rendered s = Some r →
  extraTimeRegistered (settle (S n) s) = extraTimeRegistered s || isTied (values s).
Proof.
  revert s r. induction n as [|n IH]; intros s r Hr.
  - cbn [settle]. pose proof (pass_registered s) as Hreg.
    by destruct (renderAndRunEffects s) as [s' []].
  - cbn [settle]. pose proof (pass_registered s) as Hreg.
    pose proof (pass_regular s r Hr) as [H1 H2]. pose proof (pass_rendered s) as Hr'.
    destruct (renderAndRunEffects s) as [s' []] eqn:E; cbn [fst] in *; [|done].
    change (extraTimeRegistered (settle (S n) s')
            = extraTimeRegistered s || isTied (values s)).
    rewrite (IH s' _ Hr'), Hreg.
    destruct (regular_flags (values s') (values s) H1 H2) as [_ ->].
    by destruct (extraTimeRegistered s), (isTied (values s)).
Qed.

Section Reachable.
Context `{StringToNumber}.

Lemma setValueAs_regular_fixed v :
  regularScore (setValueAs_regular v)
  ∧ setValueAs_regular_stored (setValueAs_regular v) = setValueAs_regular v.
Proof.
  unfold setValueAs_regular, regularScore.
  destruct (bool_decide (v = "")); cbn; [done|].
  destruct (isNaN (Number v)) eqn:Hn; cbn; [done|]. by rewrite Hn.
Qed.

Lemma mount_invariant m up : resetInvariant (mount m up).
Proof.
  unfold mount. apply resetInvariant_settle; [|apply comesToRest_maxUpdateDepth].
  unfold cascadeInvariant, regularScore. cbn.
  split; [by destruct up|]. split; [by destruct up|]. done.
Qed.

(** The store an event leaves, before the renders. *)
Lemma cascadeInvariant_handle e s watched :
  resetInvariant s → rendered s = Some watched → available e watched = true →
  cascadeInvariant
    {| values := handle e (values s);
       rendered := rendered s;
       extraTimeRegistered := extraTimeRegistered s |}.
Proof.
  intros (w & Hw & _ & _ & _ & Hh & Ha & Hrh & Hra & Hpw & _ & _ & Hd & He) Hr Hav.
  rewrite Hw in Hr. injection Hr as <-.
  assert (regularScore (homeScore (values s))
          ∧ setValueAs_regular_stored (homeScore (values s)) = homeScore (values s))
    as [Hsh Hfh].
  { rewrite Hh. split; [apply setValueAs_regular_stored_regularScore
                       |apply setValueAs_regular_stored_idemp]. }
  assert (regularScore (awayScore (values s))
          ∧ setValueAs_regular_stored (awayScore (values s)) = awayScore (values s))
    as [Hsa Hfa].
  { rewrite Ha. split; [apply setValueAs_regular_stored_regularScore
                       |apply setValueAs_regular_stored_idemp]. }
  unfold cascadeInvariant. cbn [values rendered extraTimeRegistered]. rewrite Hw.
  split; [|split; [|split; [|split]]].
  - destruct e; cbn; try done. apply setValueAs_regular_fixed.
  - destruct e; cbn; try done. apply setValueAs_regular_fixed.
  - intros r _. destruct e; cbn; try done;
      (split; [try done|try done]); apply setValueAs_regular_fixed.
  - intros r [= <-] Hhv Ht _ _. destruct (Hd Hhv Ht) as (_ & HE1 & HE2 & Hn).
    destruct e; cbn in Hav |- *; try done; try congruence.
    unfold showPenalties in Hav. by rewrite Ht in Hav.
  - intros r [= <-] Hsp _. specialize (He Hsp).
    destruct e; cbn in Hav |- *; try done. congruence.
Qed.

Lemma dispatch_invariant e s : resetInvariant s → resetInvariant (dispatch e s).
Proof.
  intros Hs. unfold dispatch.
  destruct (rendered s) as [watched|] eqn:Hr; [|done].
  destruct (available e watched) eqn:Hav; [|done].
  apply resetInvariant_settle; [|apply comesToRest_maxUpdateDepth].
  rewrite <- Hr. by apply (cascadeInvariant_handle e s watched).
Qed.

Lemma reachable_invariant s : reachable s → resetInvariant s.
Proof.
  induction 1; [apply mount_invariant | by apply dispatch_invariant].
Qed.

(** Once registered, the extra-time inputs stay registered. *)
Lemma dispatch_registered e s :
  extraTimeRegistered s = true → extraTimeRegistered (dispatch e s) = true.
Proof.
  intros Hreg. unfold dispatch.
  destruct (rendered s) as [watched|] eqn:Hr; [|done].
  destruct (available e watched); [|done].
  change maxUpdateDepth with (S 49).
  rewrite (settle_registered 49 _ watched) by done. cbn. by rewrite Hreg.
Qed.

End Reachable.




(** *** Renders that change nothing *)

Lemma FormData_eq (f g : FormData) :
  matchId f = matchId g → homeTeamId f = homeTeamId g → awayTeamId f = awayTeamId g →
  homeScore f = homeScore g → awayScore f = awayScore g →
  homeScoreET f = homeScoreET g → awayScoreET f = awayScoreET g →
  penaltiesWinner f = penaltiesWinner g → f = g.
Proof. destruct f, g. cbn. by intros -> -> -> -> -> -> -> ->. Qed.

Lemma derive_flags f g :
  hasValidRegularTimeScores f = hasValidRegularTimeScores g → isTied f = isTied g →
  homeScoreET f = homeScoreET g → awayScoreET f = awayScoreET g →
  derive f = derive g.
Proof.
  intros Hhv Ht HhE HaE.
  unfold derive, showPenalties, isTiedInET, hasValidETScores.
  by rewrite Hhv, Ht, HhE, HaE.
Qed.

(** A page with valid extra-time scores shows the flags of the store. *)
Lemma resetInvariant_inStep s watched :
  resetInvariant s → rendered s = Some watched →
  hasValidETScores watched = true → derive watched = derive (values s).
Proof.
  intros Hs Hr Hve.
  destruct (resetInvariant_flags s Hs) as (w & Hw & Hhv & Ht).
  rewrite Hr in Hw. injection Hw as <-.
  destruct Hs as (w' & Hw' & _ & _ & _ & _ & _ & _ & _ & _ & HE & _).
  rewrite Hr in Hw'. injection Hw' as <-.
  unfold hasValidETScores in Hve. apply andb_true_iff in Hve as [Hvh Hva].
  apply derive_flags; try done.
  - destruct HE as [[-> _]|(_ & -> & _)]; [done|].
    by rewrite setValueAs_extraTime_stored_valid.
  - destruct HE as [[_ ->]|(_ & _ & ->)]; [done|].
    by rewrite setValueAs_extraTime_stored_valid.
Qed.

(** A penalty winner is held only while the store passes both ties. *)
Lemma resetInvariant_penaltiesWinner s :
  resetInvariant s → showPenalties (values s) = false →
  penaltiesWinner (values s) = Null.
Proof.
  intros Hs Hhidden.
  pose proof Hs as (w & Hw & _ & _ & _ & _ & _ & _ & _ & _ & _ & _ & _ & He).
  apply He. destruct (hasValidETScores w) eqn:Hve.
  - pose proof (resetInvariant_inStep s w Hs Hw Hve) as Hd.
    apply (f_equal d_showPenalties) in Hd. cbn in Hd. by rewrite Hd.
  - unfold showPenalties, isTiedInET. rewrite Hve. apply andb_false_r.
Qed.

Section ResetCascade.
Context `{StringToNumber}.

(** C2, as the code has it. In a dialog that is mounted, after any events:
    while the regular-time tie or the extra-time tie fails, for whatever
    reason, the penalty winner is [null]. A regular-time tie means that the
    extra-time inputs are registered, and they stay registered whatever
    follows. With valid regular-time scores that differ, the two extra-time
    scores are [null] only while the extra-time inputs have never been
    registered: once they are, both scores are [0], which is what
    [setValueAs] makes of the [null] that the effect writes. Nothing is
    said of the extra-time scores while a regular-time score is missing:
    they keep their values. *)
Theorem reset_cascade (s : instance) :
  reachable s →
  (showPenalties (values s) = false → penaltiesWinner (values s) = Null)
  ∧ (isTied (values s) = true → extraTimeRegistered s = true)
  ∧ (∀ e, extraTimeRegistered s = true → extraTimeRegistered (dispatch e s) = true)
  ∧ (hasValidRegularTimeScores (values s) = true → isTied (values s) = false →
     homeScoreET (values s) = (if extraTimeRegistered s then Val 0%float else Null)
     ∧ awayScoreET (values s) = (if extraTimeRegistered s then Val 0%float else Null)
     ∧ penaltiesWinner (values s) = Null).
Proof.
  intros Hs%reachable_invariant.
  split; [by apply resetInvariant_penaltiesWinner|].
  destruct (resetInvariant_flags s Hs) as (w & Hw & Hhv & Ht).
  destruct Hs as (w' & Hw' & _ & _ & _ & _ & _ & _ & _ & _ & _ & Hreg & Hd & _).
  rewrite Hw in Hw'. injection Hw' as <-.
  split; [|split].
  - intros Htied. apply Hreg. by rewrite Ht.
  - intros e. apply dispatch_registered.
  - intros Hhv' Ht'. rewrite <- Hhv in Hhv'. rewrite <- Ht in Ht'.
    destruct (Hd Hhv' Ht') as (_ & -> & -> & ->).
    by destruct (extraTimeRegistered s).
Qed.

End ResetCascade.

(** Rendering a settled dialog again, for whatever reason, leaves the
    values of the form as they are. *)
Lemma settle_settled n s :
  resetInvariant s → values (settle n s) = values s.
Proof.
  intros Hs. pose proof (resetInvariant_regularInStep s Hs) as Hstep.
  destruct (resetInvariant_flags s Hs) as (w & Hw & Hhv & Ht).
  destruct (settle_frame n s) as (H1 & H2 & H3).
  destruct (settle_regular n s w Hw) as [H4 H5].
  destruct (settle_extraTime n s Hstep) as [H6 H7].
  apply FormData_eq; try done.
  destruct n as [|n]; [done|]. cbn [settle].
  pose proof (pass_penaltiesWinner s) as (Hwrote & Hquiet & _).
  destruct (renderAndRunEffects s) as [s' []] eqn:E; cbn [fst snd] in *.
  - assert (penaltiesWinner (values s) = Null) as Hpw.
    { destruct (hasValidETScores w) eqn:Hve.
      - pose proof (resetInvariant_inStep s w Hs Hw Hve) as Hd.
        assert (inStep s) as Hin by by exists w.
        rewrite (inStep_quiet s Hin) in E. done.
      - destruct Hs as (w' & Hw' & _ & _ & _ & _ & _ & _ & _ & _ & _ & _ & _ & He).
        rewrite Hw in Hw'. injection Hw' as <-. apply He.
        unfold showPenalties, isTiedInET. rewrite Hve. apply andb_false_r. }
    rewrite Hpw. apply settle_penaltiesWinner. by apply Hwrote.
  - rewrite (Hquiet eq_refl). by rewrite (commit_nothing s w Hw Ht).
Qed.

Lemma instance_eta s :
  {| values := values s; rendered := rendered s;
     extraTimeRegistered := extraTimeRegistered s |} = s.
Proof. by destruct s. Qed.

Section Absorbed.
Context `{StringToNumber}.

Lemma dispatch_Rerender s :
  resetInvariant s → dispatch Rerender s = settle maxUpdateDepth s.
Proof.
  intros (w & Hw & _). unfold dispatch. rewrite Hw. cbn [available handle].
  by rewrite <- Hw, instance_eta.
Qed.

(** An event on an input that is on the page writes to the store what the
    settled dialog still holds. *)
Lemma handle_dispatch e s watched :
  resetInvariant s → rendered s = Some watched → available e watched = true →
  handle e (values (dispatch e s)) = values (dispatch e s).
Proof.
  intros Hs Hr Hav. unfold dispatch. rewrite Hr, Hav.
  set (s0 := {| values := handle e (values s); rendered := Some watched;
                extraTimeRegistered := extraTimeRegistered s |}).
  destruct (resetInvariant_flags s Hs) as (w & Hw & Hhv & Ht).
  rewrite Hr in Hw. injection Hw as <-.
  destruct (settle_regular maxUpdateDepth s0 watched eq_refl) as [Hh Ha].
  destruct e; cbn [handle] in *.
  - apply FormData_eq; try done; cbn; by rewrite Hh.
  - apply FormData_eq; try done; cbn; by rewrite Ha.
  - assert (regularInStep s0) as Hstep by by exists watched.
    destruct (settle_extraTime maxUpdateDepth s0 Hstep) as [HhE _].
    apply FormData_eq; try done; cbn; by rewrite HhE.
  - assert (regularInStep s0) as Hstep by by exists watched.
    destruct (settle_extraTime maxUpdateDepth s0 Hstep) as [_ HaE].
    apply FormData_eq; try done; cbn; by rewrite HaE.
  - assert (inStep s0) as Hin.
    { exists watched. split; [done|]. cbn [values s0].
      unfold showPenalties, isTiedInET in Hav.
      apply andb_true_iff in Hav as [_ [Hve _]%andb_true_iff].
      by rewrite (resetInvariant_inStep s watched Hs Hr Hve). }
    change maxUpdateDepth with (S 49). cbn [settle].
    rewrite (inStep_quiet s0 Hin). done.
  - done.
Qed.

Lemma dispatch_absorbed e s :
  reachable s → values (dispatch e (dispatch e s)) = values (dispatch e s).
Proof.
  intros Hs. pose proof (reachable_invariant s Hs) as Hinv.
  pose proof (dispatch_invariant e s Hinv) as Hinv'.
  destruct Hinv as (w & Hw & Hrest).
  assert (resetInvariant s) as Hinv by by exists w.
  destruct (available e w) eqn:Hav.
  - pose proof (handle_dispatch e s w Hinv Hw Hav) as Hfix.
    set (s' := dispatch e s) in *.
    destruct Hinv' as (w' & Hw' & Hrest').
    assert (resetInvariant s') as Hinv' by by exists w'.
    unfold dispatch at 1. rewrite Hw'.
    destruct (available e w'); [|done].
    rewrite Hfix, <- Hw', instance_eta. by apply settle_settled.
  - assert (dispatch e s = s) as -> by (unfold dispatch; by rewrite Hw, Hav).
    unfold dispatch. by rewrite Hw, Hav.
Qed.

End Absorbed.


(** *** Edits of the regular-time scores *)

(** The extra-time scores of a cascade are those its first render leaves. *)
Lemma settle_extraTime_first n s r :
  rendered s = Some r →
  homeScoreET (values (settle (S n) s)) = homeScoreET (values (renderAndRunEffects s).1)
  ∧ awayScoreET (values (settle (S n) s)) = awayScoreET (values (renderAndRunEffects s).1).
Proof.
  intros Hr. cbn [settle]. pose proof (pass_regularInStep s r Hr) as Hstep.
  destruct (renderAndRunEffects s) as [s' []]; cbn [fst] in *; [|done].
  by apply settle_extraTime.
Qed.

(** The extra-time scores after one render. *)
Lemma pass_extraTime s :
  let z := setValue_stored_extraTime (extraTimeRegistered s || isTied (values s)) Null in
  let fires :=
    depsChanged (lastRender s) (derive (values s))
      (λ r, [d_hasValidRegularTimeScores r; d_isTied r])
    && hasValidRegularTimeScores (values s) && negb (isTied (values s)) in
  let mounts := isTied (values s) && negb (extraTimeMounted s) in
  let s' := (renderAndRunEffects s).1 in
  homeScoreET (values s') =
    (if fires then z
     else if mounts then setValueAs_extraTime_stored (homeScoreET (values s))
     else homeScoreET (values s))
  ∧ awayScoreET (values s') =
    (if fires then z
     else if mounts then setValueAs_extraTime_stored (awayScoreET (values s))
     else awayScoreET (values s)).
Proof.
  cbn zeta. rewrite pass_eq. cbn [fst values].
  destruct (runEffects_extraTime (extraTimeRegistered s || isTied (values s))
              (lastRender s) (derive (values s)) (commit s)) as (-> & -> & _).
  cbn [derive d_hasValidRegularTimeScores d_isTied].
  by destruct (commit_extraTime s) as [-> ->].
Qed.

Section RoundTrips.
Context `{StringToNumber}.

Lemma regularEdit_frame e f :
  regularEdit e = true →
  (∀ g, available e g = true)
  ∧ matchId (handle e f) = matchId f ∧ homeTeamId (handle e f) = homeTeamId f
  ∧ awayTeamId (handle e f) = awayTeamId f
  ∧ homeScoreET (handle e f) = homeScoreET f ∧ awayScoreET (handle e f) = awayScoreET f
  ∧ penaltiesWinner (handle e f) = penaltiesWinner f.
Proof. by destruct e. Qed.

(** What an edit of a regular-time score leaves in a settled dialog. *)
Lemma dispatch_regularEdit e s watched :
  resetInvariant s → rendered s = Some watched → regularEdit e = true →
  let edited := handle e (values s) in
  let s' := dispatch e s in
  let fires :=
    depsChanged (Some (derive watched)) (derive edited)
      (λ r, [d_hasValidRegularTimeScores r; d_isTied r])
    && hasValidRegularTimeScores edited && negb (isTied edited) in
  let mounts := isTied edited && negb (isTied watched) in
  let z := setValue_stored_extraTime (extraTimeRegistered s || isTied edited) Null in
  matchId (values s') = matchId (values s)
  ∧ homeTeamId (values s') = homeTeamId (values s)
  ∧ awayTeamId (values s') = awayTeamId (values s)
  ∧ homeScore (values s') = homeScore edited
  ∧ awayScore (values s') = awayScore edited
  ∧ homeScoreET (values s') =
      (if fires then z
       else if mounts then setValueAs_extraTime_stored (homeScoreET (values s))
       else homeScoreET (values s))
  ∧ awayScoreET (values s') =
      (if fires then z
       else if mounts then setValueAs_extraTime_stored (awayScoreET (values s))
       else awayScoreET (values s))
  ∧ (penaltiesWinner (values s) = Null → penaltiesWinner (values s') = Null)
  ∧ extraTimeRegistered s' = extraTimeRegistered s || isTied edited.
Proof.
  intros Hs Hr He. cbn zeta.
  destruct (regularEdit_frame e (values s) He) as (Hav & Hi1 & Hi2 & Hi3 & HhE & HaE & Hpw).
  unfold dispatch. rewrite Hr, Hav.
  set (s0 := {| values := handle e (values s); rendered := Some watched;
                extraTimeRegistered := extraTimeRegistered s |}).
  destruct (settle_frame maxUpdateDepth s0) as (-> & -> & ->).
  destruct (settle_regular maxUpdateDepth s0 watched eq_refl) as [-> ->].
  change maxUpdateDepth with (S 49).
  destruct (settle_extraTime_first 49 s0 watched eq_refl) as [-> ->].
  destruct (pass_extraTime s0) as [-> ->].
  rewrite (settle_registered 49 s0 watched eq_refl).
  cbn [values s0 extraTimeRegistered lastRender rendered extraTimeMounted fmap
       option_fmap option_map].
  rewrite HhE, HaE.
  repeat split; try done.
  intros Hnull. apply settle_penaltiesWinner. cbn [values s0]. by rewrite Hpw.
Qed.

(** Clearing a regular-time score and typing it again, for either score:
    [clear] empties an input and [retype] writes the former score to the
    same input. *)
Lemma clear_and_retype_general (clear retype : event) s :
  reachable s →
  regularEdit clear = true → regularEdit retype = true →
  hasValidRegularTimeScores (handle clear (values s)) = false →
  (∀ g, homeScore g = homeScore (handle clear (values s)) →
        awayScore g = awayScore (handle clear (values s)) →
        homeScore (handle retype g) = homeScore (values s)
        ∧ awayScore (handle retype g) = awayScore (values s)) →
  values (dispatch retype (dispatch clear s))
  = setValue_penaltiesWinner Null
      (if isTied (values s) then registerExtraTime (values s) else values s).
Proof.
  intros Hs Hc Hrt Hinvalid Hback.
  pose proof (reachable_invariant s Hs) as Hinv.
  pose proof (dispatch_invariant clear s Hinv) as Hinv1.
  destruct Hinv as (w & Hw & Hrest). assert (resetInvariant s) as Hinv by by exists w.
  destruct (dispatch_regularEdit clear s w Hinv Hw Hc)
    as (Hi1 & Hi2 & Hi3 & Hh1 & Ha1 & HhE1 & HaE1 & _ & Hreg1).
  cbn zeta in *.
  assert (isTied (handle clear (values s)) = false) as Htied1
    by (unfold isTied; by rewrite Hinvalid).
  rewrite Hinvalid, Htied1, andb_false_r in HhE1, HaE1. cbn [andb] in HhE1, HaE1.
  rewrite Htied1, orb_false_r in Hreg1.
  set (s1 := dispatch clear s) in *.
  destruct (resetInvariant_flags s1 Hinv1) as (w1 & Hw1 & Hhv1 & Ht1).
  destruct (regular_flags (values s1) (handle clear (values s)) Hh1 Ha1) as [Hhv1' Ht1'].
  rewrite Hhv1', Hinvalid in Hhv1. rewrite Ht1', Htied1 in Ht1.
  assert (penaltiesWinner (values s1) = Null) as Hpw1.
  { destruct Hinv1 as (w1' & Hw1' & _ & _ & _ & _ & _ & _ & _ & _ & _ & _ & _ & He).
    rewrite Hw1 in Hw1'. injection Hw1' as <-. apply He.
    unfold showPenalties. by rewrite Ht1. }
  destruct (dispatch_regularEdit retype s1 w1 Hinv1 Hw1 Hrt)
    as (Hj1 & Hj2 & Hj3 & Hh2 & Ha2 & HhE2 & HaE2 & Hpw2 & _).
  cbn zeta in *. specialize (Hpw2 Hpw1).
  destruct (Hback (values s1) Hh1 Ha1) as [Hbh Hba].
  rewrite Hbh in Hh2. rewrite Hba in Ha2.
  destruct (regular_flags (handle retype (values s1)) (values s) Hbh Hba) as [Hhv2 Ht2].
  rewrite Hhv2 in HhE2, HaE2. rewrite !Ht2 in HhE2, HaE2. rewrite Ht1 in HhE2, HaE2.
  cbn [negb] in HhE2, HaE2. rewrite andb_true_r in HhE2, HaE2.
  rewrite Hreg1 in HhE2, HaE2.
  rewrite HhE1 in HhE2. rewrite HaE1 in HaE2.
  assert (depsChanged (Some (derive w1)) (derive (handle retype (values s1)))
            (λ r, [d_hasValidRegularTimeScores r; d_isTied r])
          && hasValidRegularTimeScores (values s) && negb (isTied (values s))
          = hasValidRegularTimeScores (values s) && negb (isTied (values s))) as Hfires.
  { destruct (hasValidRegularTimeScores (values s)) eqn:Hhv.
    - rewrite andb_true_r. unfold depsChanged. cbn. by rewrite Hhv1, Hhv2.
    - by rewrite andb_false_r. }
  rewrite Hfires in HhE2, HaE2.
  apply FormData_eq.
  - rewrite Hj1, Hi1. by destruct (isTied (values s)).
  - rewrite Hj2, Hi2. by destruct (isTied (values s)).
  - rewrite Hj3, Hi3. by destruct (isTied (values s)).
  - rewrite Hh2. by destruct (isTied (values s)).
  - rewrite Ha2. by destruct (isTied (values s)).
  - rewrite HhE2. destruct (isTied (values s)) eqn:Ht.
    + by rewrite andb_false_r.
    + destruct (hasValidRegularTimeScores (values s)) eqn:Hhv; [|done]. cbn.
      rewrite orb_false_r.
      destruct Hrest as (_ & _ & _ & _ & _ & _ & _ & _ & _ & _ & Hd & _).
      destruct (resetInvariant_flags s Hinv) as (w' & Hw' & Hhvw & Htw).
      rewrite Hw in Hw'. injection Hw' as <-. rewrite <- Hhvw in Hhv. rewrite <- Htw in Ht.
      by destruct (Hd Hhv Ht) as (_ & -> & _).
  - rewrite HaE2. destruct (isTied (values s)) eqn:Ht.
    + by rewrite andb_false_r.
    + destruct (hasValidRegularTimeScores (values s)) eqn:Hhv; [|done]. cbn.
      rewrite orb_false_r.
      destruct Hrest as (_ & _ & _ & _ & _ & _ & _ & _ & _ & _ & Hd & _).
      destruct (resetInvariant_flags s Hinv) as (w' & Hw' & Hhvw & Htw).
      rewrite Hw in Hw'. injection Hw' as <-. rewrite <- Hhvw in Hhv. rewrite <- Htw in Ht.
      by destruct (Hd Hhv Ht) as (_ & _ & -> & _).
  - rewrite Hpw2. by destruct (isTied (values s)).
Qed.

End RoundTrips.


(** *** Settled dialogs with a decisive result, and complete drafts *)

Section Decisive.
Context `{StringToNumber}.

(** With valid regular-time scores that differ, the page shows the store,
    the penalty winner is [null] and the extra-time scores are what
    [setValue] has made of [null]. *)
Lemma reachable_decisive s :
  reachable s →
  hasValidRegularTimeScores (values s) = true → isTied (values s) = false →
  rendered s = Some (values s)
  ∧ homeScoreET (values s) = (if extraTimeRegistered s then Val 0%float else Null)
  ∧ awayScoreET (values s) = (if extraTimeRegistered s then Val 0%float else Null)
  ∧ penaltiesWinner (values s) = Null.
Proof.
  intros Hs%reachable_invariant Hhv Ht.
  destruct (resetInvariant_flags s Hs) as (w & Hw & Hhvw & Htw).
  destruct Hs as (w' & Hw' & _ & _ & _ & _ & _ & _ & _ & _ & _ & _ & Hd & _).
  rewrite Hw in Hw'. injection Hw' as <-.
  rewrite <- Hhvw in Hhv. rewrite <- Htw in Ht.
  destruct (Hd Hhv Ht) as (Heq & HE1 & HE2 & Hpw).
  rewrite Hw, Heq, HE1, HE2. by destruct (extraTimeRegistered s).
Qed.

End Decisive.

(** A render that changes no value is the last one that does anything. *)
Lemma settle_fixed n s :
  values (renderAndRunEffects s).1 = values s → values (settle n s) = values s.
Proof.
  intros Hv. destruct n as [|n]; [done|]. cbn [settle].
  pose proof (pass_rendered s) as Hr.
  destruct (renderAndRunEffects s) as [s' []]; cbn [fst] in *; [|done].
  assert (inStep s') as Hin by (exists (values s); by rewrite Hv).
  destruct n as [|n]; [done|]. cbn [settle]. by rewrite (inStep_quiet s' Hin).
Qed.

(** With both ties the effects write nothing. *)
Lemma runEffects_showPenalties registered prev f g :
  showPenalties f = true → runEffects registered prev (derive f) g = (g, false).
Proof.
  unfold showPenalties. intros [Ht Hte]%andb_true_iff.
  unfold runEffects, resetExtraTimeEffect, resetPenaltiesEffect, clearPenaltiesEffect.
  cbn [derive d_hasValidRegularTimeScores d_isTied d_hasValidETScores d_isTiedInET
       d_showPenalties]. unfold showPenalties. rewrite Ht, Hte.
  rewrite !andb_false_r. cbn. by repeat destruct (depsChanged _ _ _).
Qed.

(** The first render of a complete draft leaves it as it is. *)
Lemma complete_first_render d :
  isFormIncomplete d = false →
  values (renderAndRunEffects
            {| values := d; rendered := None; extraTimeRegistered := false |}).1 = d.
Proof.
  intros Hc. set (s0 := {| values := d; rendered := None; extraTimeRegistered := false |}).
  destruct (pass_frame s0) as (H1 & H2 & H3).
  pose proof (pass_extraTime s0) as [HhE HaE].
  pose proof (pass_penaltiesWinner s0) as (_ & Hquiet & Hnull).
  assert (homeScore (values (renderAndRunEffects s0).1)
            = setValueAs_regular_stored (homeScore d)
          ∧ awayScore (values (renderAndRunEffects s0).1)
            = setValueAs_regular_stored (awayScore d)) as [Hh Ha].
  { rewrite pass_eq. cbn [fst values].
    destruct (runEffects_frame (extraTimeRegistered s0 || isTied (values s0))
                (lastRender s0) (derive (values s0)) (commit s0)) as (_ & _ & _ & -> & ->).
    by destruct (commit_regular s0) as [-> ->]. }
  cbn zeta in HhE, HaE.
  cbn [values s0 extraTimeRegistered lastRender rendered extraTimeMounted depsChanged
       fmap option_fmap option_map orb andb negb] in HhE, HaE.
  assert (∀ v n, holds v n → setValueAs_regular_stored v = v) as Hreg.
  { intros v n [-> Hn]. cbn. by rewrite Hn. }
  assert (∀ v n, holds v n → setValueAs_extraTime_stored v = v) as HregE.
  { intros v n [-> Hn]. cbn. by rewrite Hn. }
  destruct (complete_decided d Hc) as [HB|[HD|HF]].
  - destruct HB as (h & a & Hhh & Hha & Hne & HE1 & HE2 & Hpw).
    assert (hasValidRegularTimeScores d = true) as Hhv
      by (apply hasValidRegularTimeScores_spec; by exists h, a).
    assert (isTied d = false) as Ht.
    { unfold isTied. rewrite Hhv. destruct Hhh as [-> _], Hha as [-> _]. done. }
    rewrite Hhv, Ht in HhE, HaE. cbn in HhE, HaE.
    apply FormData_eq; try done.
    + by rewrite Hh, (Hreg _ _ Hhh).
    + by rewrite Ha, (Hreg _ _ Hha).
    + by rewrite HhE, HE1.
    + by rewrite HaE, HE2.
    + rewrite Hpw. by apply Hnull.
  - destruct HD as (h & a & he & ae & Hhh & Hha & He & Hhe & Hae & _ & _ & Hne & Hpw).
    assert (isTied d = true) as Ht by (apply isTied_spec; by exists h, a).
    rewrite Ht in HhE, HaE. rewrite !andb_false_r in HhE, HaE. cbn in HhE, HaE.
    apply FormData_eq; try done.
    + by rewrite Hh, (Hreg _ _ Hhh).
    + by rewrite Ha, (Hreg _ _ Hha).
    + by rewrite HhE, (HregE _ _ Hhe).
    + by rewrite HaE, (HregE _ _ Hae).
    + rewrite Hpw. by apply Hnull.
  - destruct HF as (h & a & he & ae & w & Hhh & Hha & He & Hhe & Hae & _ & _ & HeE & Hpw & Hw).
    assert (isTied d = true) as Ht by (apply isTied_spec; by exists h, a).
    assert (isTiedInET d = true) as HtE by (apply isTiedInET_spec; by exists he, ae).
    rewrite Ht in HhE, HaE. rewrite !andb_false_r in HhE, HaE. cbn in HhE, HaE.
    apply FormData_eq; try done.
    + by rewrite Hh, (Hreg _ _ Hhh).
    + by rewrite Ha, (Hreg _ _ Hha).
    + by rewrite HhE, (HregE _ _ Hhe).
    + by rewrite HaE, (HregE _ _ Hae).
    + rewrite Hquiet.
      * by destruct (commit_frame s0) as (_ & _ & _ & ->).
      * rewrite pass_eq. cbn [snd]. rewrite runEffects_showPenalties; [done|].
        cbn [values s0]. unfold showPenalties. by rewrite Ht, HtE.
Qed.

(** Reachability of a session that is written out. *)
Ltac reach :=
  lazymatch goal with
  | |- reachable (dispatch _ _) => apply reachable_dispatch; reach
  | |- reachable (mount _ _) => apply reachable_mount
  | |- reachable ?s => unfold s; reach
  end.

(** C2 on a fresh dialog: 1 and 1 are typed, which shows the extra-time
    inputs, then the away score is changed to 3. *)
Lemma reset_cascade_witness :
  let s := dispatch (ChangeAwayScore "3")
             (dispatch (ChangeAwayScore "1")
                (dispatch (ChangeHomeScore "1") (mount sampleMatch None))) in
  homeScoreET (values s) = (if extraTimeRegistered s then Val 0%float else Null)
  ∧ awayScoreET (values s) = (if extraTimeRegistered s then Val 0%float else Null)
  ∧ penaltiesWinner (values s) = Null.
Proof.
  intros s. refine (proj2 (proj2 (proj2 (reset_cascade s _))) _ _).
  - reach.
  - vm_compute. reflexivity.
  - vm_compute. reflexivity.
Defined.

(** C2, as specified, fails in two ways. On a fresh dialog, 1 and 1 are
    typed and the away score is changed to 3: the tie is gone, the
    extra-time scores are [0] and [0], not [null], and the submit button is
    disabled. And a stored 1-1 with extra time 1-2 is opened and the home
    score is cleared: the tie is gone and the extra-time scores are still
    1 and 2. *)
Lemma reset_cascade_counterexample :
  let tied := dispatch (ChangeAwayScore "1")
                (dispatch (ChangeHomeScore "1") (mount sampleMatch None)) in
  let broken := dispatch (ChangeAwayScore "3") tied in
  let opened := mount sampleMatch
                  (Some (stored 1%float 1%float (Some 1%float) (Some 2%float) None)) in
  let cleared := dispatch (ChangeHomeScore "") opened in
  (reachable broken
   ∧ isTied (values tied) = true ∧ isTied (values broken) = false
   ∧ homeScoreET (values broken) = Val 0%float
   ∧ awayScoreET (values broken) = Val 0%float
   ∧ shown broken false false
     = Some {| extraTimeVisible := false; penaltiesVisible := false;
               submitDisabled := true |})
  ∧ (reachable cleared
     ∧ isTied (values opened) = true ∧ isTied (values cleared) = false
     ∧ homeScoreET (values cleared) = Val 1%float
     ∧ awayScoreET (values cleared) = Val 2%float).
Proof.
  split; (split; [reach|]); vm_compute; done.
Qed.

(** Sessions. A stored 1-1 without extra-time scores is opened: the store
    holds [0] for both extra-time scores while the page still shows none,
    and a render for another reason shows them as a tie with the penalty
    buttons. A stored 1-1 with extra time 1-1 is opened and the home side is
    picked on penalties; changing the away score to 3 then leaves [0] and
    [0] and no penalty winner, and changing it to a text that is not a
    number clears the penalty winner only. *)
Example dispatch_examples :
  let lagging := mount sampleMatch (Some (stored 1%float 1%float None None None)) in
  let opened := mount sampleMatch
                  (Some (stored 1%float 1%float (Some 1%float) (Some 1%float) None)) in
  let picked := dispatch (ClickPenaltiesWinner home) opened in
  values lagging = draft (Val 1%float) (Val 1%float) (Val 0%float) (Val 0%float) Null
  ∧ rendered lagging = Some (draft (Val 1%float) (Val 1%float) Null Null Null)
  ∧ shown (dispatch Rerender lagging) false false
    = Some {| extraTimeVisible := true; penaltiesVisible := true;
              submitDisabled := true |}
  ∧ values picked
    = draft (Val 1%float) (Val 1%float) (Val 1%float) (Val 1%float) (Val "home")
  ∧ values (dispatch (ChangeAwayScore "3") picked)
    = draft (Val 1%float) (Val 3%float) (Val 0%float) (Val 0%float) Null
  ∧ values (dispatch (ChangeAwayScore "x") picked)
    = draft (Val 1%float) Undefined (Val 1%float) (Val 1%float) Null
  ∧ values (dispatch (ChangeHomeScoreET "2") picked)
    = draft (Val 1%float) (Val 1%float) (Val 2%float) (Val 1%float) Null.
Proof. vm_compute. repeat split. Qed.

(** *** Submission *)

Ltac run_eff :=
  unfold mbind, Eff_bind, emit, await, try_catch; cbn.

(** C7. A submission without a prediction identifier ([predictionId] is
    [null]) shows one error notice and stops: the only call added is that
    notice, so the save callback is not invoked, no success notice is shown
    and the close handler is not called; the form store is untouched. *)
Theorem onSubmit_without_predictionId (props : MatchContentProps) (data : FormData)
    (w : world) :
  predictionId props = None →
  ∃ added,
    onSubmit props data w
      = ({| calls := calls w ++ added; form := form w |}, Normal tt)
    ∧ added = [toast_error "Error"
                 "No se encontró la predicción. Intenta recargar la página."]
    ∧ Forall (λ c, isSaveCall c = false ∧ isSuccessNotice c = false
                   ∧ isCloseCall c = false) added.
Proof.
  intros Hid. eexists. split; [|split; [reflexivity|]].
  - unfold onSubmit. rewrite Hid. reflexivity.
  - repeat constructor.
Qed.

(** C8. When the promise of the save callback rejects, [onSubmit] logs the
    error and shows one error notice whose description is the message of the
    rejection when that is an [Error] instance (whatever the message) and
    the fallback text otherwise; it completes normally, shows no success
    notice, does not call the close handler and leaves the form store as it
    was. *)
Theorem onSubmit_save_rejected (props : MatchContentProps) (data : FormData)
    (w : world) (error : thrown) :
  predictionId_falsy (predictionId props) = false →
  onSave props "ROUND_OF_32" [toMatchPrediction data] = Throw error →
  ∃ description added,
    onSubmit props data w
      = ({| calls := calls w ++ added; form := form w |}, Normal tt)
    ∧ added = [onSave_call "ROUND_OF_32" [toMatchPrediction data];
               console_error "[KnockoutMatchDialog] Error saving prediction:" error;
               toast_error "Error al guardar" description]
    ∧ (∀ message, error = ErrorInstance message → description = message)
    ∧ ((∀ message, error ≠ ErrorInstance message) →
       description = "No se pudo guardar la predicción")
    ∧ Forall (λ c, isSuccessNotice c = false ∧ isCloseCall c = false) added.
Proof.
  intros Hid Hsave. eexists _, _. split; [|split; [reflexivity|]].
  - unfold onSubmit. rewrite Hid. run_eff. rewrite Hsave. cbn.
    rewrite <- !app_assoc. reflexivity.
  - split; [|split].
    + by intros message ->.
    + intros Hne. destruct error; [by destruct (Hne message)|done].
    + repeat constructor.
Qed.

(** The successful path, for comparison: the save call, the success notice
    and the close handler, in that order. *)
Lemma onSubmit_save_resolved (props : MatchContentProps) (data : FormData)
    (w : world) :
  predictionId_falsy (predictionId props) = false →
  onSave props "ROUND_OF_32" [toMatchPrediction data] = Normal tt →
  onSubmit props data w
  = ({| calls := calls w ++
          [onSave_call "ROUND_OF_32" [toMatchPrediction data];
           toast_success "Predicción guardada"
             (Domain.team_name (Domain.homeTeam (match_ props)) ++ " vs "
              ++ Domain.team_name (Domain.awayTeam (match_ props)));
           onClose_call];
        form := form w |}, Normal tt).
Proof.
  intros Hid Hsave. unfold onSubmit. rewrite Hid. run_eff. rewrite Hsave. cbn.
  rewrite <- !app_assoc. reflexivity.
Qed.

(** C7 on a submission of 2-0 without a prediction identifier. *)
Lemma onSubmit_without_predictionId_witness :
  onSubmit (sampleProps None (Normal tt))
    (draft (Val 2%float) (Val 0%float) Null Null Null)
    {| calls := []; form := draft (Val 2%float) (Val 0%float) Null Null Null |}
  = ({| calls := [toast_error "Error"
                    "No se encontró la predicción. Intenta recargar la página."];
        form := draft (Val 2%float) (Val 0%float) Null Null Null |}, Normal tt).
Proof.
  destruct (onSubmit_without_predictionId (sampleProps None (Normal tt))
              (draft (Val 2%float) (Val 0%float) Null Null Null)
              {| calls := []; form := draft (Val 2%float) (Val 0%float) Null Null Null |}
              eq_refl) as (added & Heq & -> & _).
  exact Heq.
Defined.

(** C8 on a submission of 2-0 whose save rejects with
    [new Error("Network down")]. *)
Lemma onSubmit_save_rejected_witness :
  ∃ w', onSubmit (sampleProps (Some "pred-1") (Throw (ErrorInstance "Network down")))
          (draft (Val 2%float) (Val 0%float) Null Null Null)
          {| calls := []; form := draft (Val 2%float) (Val 0%float) Null Null Null |}
        = (w', Normal tt)
    ∧ last (calls w') = Some (toast_error "Error al guardar" "Network down").
Proof.
  destruct (onSubmit_save_rejected
              (sampleProps (Some "pred-1") (Throw (ErrorInstance "Network down")))
              (draft (Val 2%float) (Val 0%float) Null Null Null)
              {| calls := []; form := draft (Val 2%float) (Val 0%float) Null Null Null |}
              (ErrorInstance "Network down") eq_refl eq_refl)
    as (description & added & Heq & -> & Hmsg & _).
  rewrite (Hmsg _ eq_refl) in Heq. eexists. split; [exact Heq|reflexivity].
Defined.

End KnockoutMatchDialogFacts.

(** ** The knockout bracket *)

Module KnockoutBracketFacts.
Import JsNumber JsNumberFacts Domain KnockoutBracket Fixtures.

(** Without a prediction there is no winner. *)
Lemma getMatchWinner_null : getMatchWinner None = None.
Proof. reflexivity. Qed.

(** For scores that are numbers (not NaN), comparing them gives the side
    with the greater score and a draw exactly when they are equal. *)
Lemma winnerByScores_spec (x y : number) :
  isNaN x = false → isNaN y = false →
  (winnerByScores x y = "home" ↔ gt x y = true)
  ∧ (winnerByScores x y = "away" ↔ gt y x = true)
  ∧ (winnerByScores x y = "draw" ↔ eq x y = true).
Proof.
  intros Hx Hy. unfold winnerByScores.
  destruct (trichotomy x y Hx Hy) as [(-> & -> & ->)|[(-> & -> & ->)|(-> & -> & ->)]];
    repeat split; done.
Qed.

(** C6. The winner shown for a prediction is resolved in this order: a
    penalty winner, when one is set, is returned as it is; otherwise, when
    both extra-time scores are present, they are compared (the side with the
    greater score, a draw when neither is greater); otherwise the
    regular-time scores are compared in the same way. *)
Theorem getMatchWinner_order (p : UserMatchPrediction) :
  (∀ w, penaltiesWinner p = Some w → w ≠ "" → getMatchWinner (Some p) = Some w)
  ∧ (penaltiesWinner p = None ∨ penaltiesWinner p = Some "" →
     (∀ he ae, homeScoreET p = Some he → awayScoreET p = Some ae →
        getMatchWinner (Some p) = Some (winnerByScores he ae))
     ∧ (homeScoreET p = None ∨ awayScoreET p = None →
        getMatchWinner (Some p) = Some (winnerByScores (homeScore p) (awayScore p)))).
Proof.
  split.
  - intros w Hw Hne. unfold getMatchWinner, truthy. rewrite Hw.
    by rewrite bool_decide_eq_false_2.
  - intros Hpw.
    assert (truthy (penaltiesWinner p) = false) as Hf
      by (destruct Hpw as [-> | ->]; reflexivity).
    unfold getMatchWinner. rewrite Hf. split.
    + intros he ae -> ->. unfold winnerByScores.
      by destruct (gt he ae), (gt ae he).
    + unfold winnerByScores.
      intros [-> | ->]; destruct (homeScoreET p);
        by destruct (gt (homeScore p) (awayScore p)), (gt (awayScore p) (homeScore p)).
Qed.

Example getMatchWinner_examples :
  getMatchWinner (Some (stored 1%float 1%float (Some 1%float) (Some 1%float) (Some "away")))
    = Some "away"
  ∧ getMatchWinner (Some (stored 1%float 1%float (Some 1%float) (Some 2%float) None))
    = Some "away"
  ∧ getMatchWinner (Some (stored 2%float 0%float None None None)) = Some "home"
  ∧ getMatchWinner (Some (stored 1%float 1%float None None None)) = Some "draw"
  ∧ getMatchWinner (Some (stored 1%float 1%float (Some 2%float) (Some 2%float) None))
    = Some "draw".
Proof. repeat split. Qed.

End KnockoutBracketFacts.

(** ** The predictions page *)

Module PredictionsPageFacts.
Import Domain PredictionsPage Fixtures.

Lemma hasPrediction_spec m :
  hasPrediction m = true ↔ is_Some (id (userPrediction m)).
Proof.
  unfold hasPrediction. destruct (id (userPrediction m)); split; done.
Qed.

Lemma allGroupPredictionsCompleted_spec matches :
  allGroupPredictionsCompleted matches = true ↔
  ∀ m, m ∈ matches → is_Some (id (userPrediction m)).
Proof.
  unfold allGroupPredictionsCompleted. rewrite forallb_forall. split.
  - intros Hall m Hm. apply hasPrediction_spec, Hall. by apply list_elem_of_In.
  - intros Hall m Hm. apply hasPrediction_spec, Hall. by apply list_elem_of_In.
Qed.

Lemma completedMatches_spec matches :
  completedMatches matches
  = length (filter (λ m, is_Some (id (userPrediction m))) matches).
Proof.
  unfold completedMatches. induction matches as [|m l IH]; [done|].
  rewrite filter_cons. cbn [List.filter].
  destruct (hasPrediction m) eqn:Hm.
  - rewrite decide_True by (by apply hasPrediction_spec). cbn. by rewrite IH.
  - rewrite decide_False; [done|].
    rewrite <- hasPrediction_spec. by rewrite Hm.
Qed.

(** C10. The knockout and awards tabs are enabled exactly when every match
    of the list has a prediction with a non-null id. While some match lacks
    one, the knockout tab shows the locked placeholder with the count of
    predicted matches out of the total, and no bracket; once all have one,
    that placeholder is not shown. With an empty list both tabs are enabled. *)
Theorem tabs_locked_until_all_predicted
    (prediction : option (option string)) (matches : list MatchWithPrediction)
    (isSaving : bool) (roundOf32Matches : option (list RoundOf32Match))
    (knockouts : option Knockouts) :
  let p := PredictionsPageContent prediction matches isSaving roundOf32Matches knockouts in
  let allPredicted := ∀ m, m ∈ matches → is_Some (id (userPrediction m)) in
  (knockoutTabDisabled p = false ↔ allPredicted)
  ∧ (awardsTabDisabled p = false ↔ allPredicted)
  ∧ (¬ allPredicted →
     knockoutTab p =
       LockedWithProgress
         (length (filter (λ m, is_Some (id (userPrediction m))) matches))
         (length matches))
  ∧ (allPredicted → ∀ completed total, knockoutTab p ≠ LockedWithProgress completed total)
  ∧ (matches = [] → knockoutTabDisabled p = false ∧ awardsTabDisabled p = false).
Proof.
  cbn zeta. unfold PredictionsPageContent. cbn.
  rewrite <- allGroupPredictionsCompleted_spec, negb_false_iff.
  split; [done|]. split; [done|]. split; [|split].
  - intros Hnot. apply not_true_is_false in Hnot. rewrite Hnot. cbn.
    by rewrite completedMatches_spec.
  - intros -> completed total.
    cbn. destruct knockouts as [k|]; [|done]. by case_bool_decide.
  - by intros ->.
Qed.

Example tabs_examples :
  let locked := PredictionsPageContent None
                  [groupMatch (Some "p1"); groupMatch None; groupMatch (Some "p3")]
                  false None None in
  let open := PredictionsPageContent None
                [groupMatch (Some "p1"); groupMatch (Some "p2")] false None None in
  knockoutTabDisabled locked = true
  ∧ knockoutTab locked = LockedWithProgress 2 3
  ∧ knockoutTabDisabled open = false
  ∧ knockoutTab open = PairingsPending
  ∧ knockoutTabDisabled (PredictionsPageContent None [] false None None) = false.
Proof. repeat split. Qed.

End PredictionsPageFacts.

(** ** The request middleware *)

Module ProxyFacts.
Import JsNumber Proxy Fixtures.

Lemma append_cons c (p rest : string) :
  String c p ++ rest = String c (p ++ rest).
Proof. reflexivity. Qed.

Lemma startsWith_spec (s p : string) :
  startsWith s p = true ↔ ∃ rest, s = p ++ rest.
Proof.
  unfold startsWith. revert s. induction p as [|c p IH]; intros s.
  - split; [intros _; exists s; reflexivity | intros _; by destruct s].
  - destruct s as [|c' s]; cbn [String.prefix].
    + split; [done | intros [rest Hr]; by rewrite append_cons in Hr].
    + destruct (Ascii.ascii_dec c c') as [->|Hne].
      * rewrite IH. split; intros [rest Hr]; exists rest; rewrite append_cons in *;
          congruence.
      * split; [done|]. intros [rest Hr]. rewrite append_cons in Hr. congruence.
Qed.

Lemma existsb_startsWith routes path :
  existsb (λ route, startsWith path route) routes = true ↔ hasPrefixIn routes path.
Proof.
  rewrite existsb_exists. unfold hasPrefixIn. split.
  - intros (route & Hin & [rest Hr]%startsWith_spec).
    exists route, rest. by rewrite list_elem_of_In.
  - intros (route & rest & Hin & Hr). exists route. rewrite <- list_elem_of_In.
    split; [done|]. apply startsWith_spec. by exists rest.
Qed.

(** The locale prefix is removed from [/en...] and [/es...] paths, and
    other paths are left as they are. *)
Lemma stripLocalePrefix_spec (rest : string) :
  stripLocalePrefix ("/en" ++ rest) = rest ∧ stripLocalePrefix ("/es" ++ rest) = rest.
Proof. split; reflexivity. Qed.

Example pathnameWithoutLocale_examples :
  pathnameWithoutLocale "/en/dashboard" = "/dashboard"
  ∧ pathnameWithoutLocale "/es/login" = "/login"
  ∧ pathnameWithoutLocale "/dashboard" = "/dashboard"
  ∧ pathnameWithoutLocale "/es" = "/"
  ∧ pathnameWithoutLocale "/" = "/".
Proof. repeat split. Qed.

(** A property is found on objects only, under its first listing. *)
Lemma optionalProperty_spec (v : option json) (name : string) (x : json) :
  optionalProperty v name = Some x ↔
  ∃ properties before after,
    v = Some (JObject properties)
    ∧ properties = (before ++ (name, x) :: after)%list
    ∧ ∀ p, p ∈ before → p.1 ≠ name.
Proof.
  unfold optionalProperty. split.
  - destruct v as [[| | | | |properties]|]; try done. intros Hfind.
    exists properties. induction properties as [|[k y] l IH]; [done|].
    cbn in Hfind. case_bool_decide as Hk.
    + cbn in Hk, Hfind. injection Hfind as ->. subst k.
      exists [], l. split; [done|]. split; [done|]. by intros p ?%elem_of_nil.
    + destruct (IH Hfind) as (before & after & _ & -> & Hbefore).
      exists ((k, y) :: before), after. split; [done|]. split; [done|].
      intros p [->|Hp]%elem_of_cons; [done | by apply Hbefore].
  - intros (properties & before & after & -> & -> & Hbefore).
    induction before as [|[k y] before IH]; cbn.
    + by rewrite bool_decide_eq_true_2.
    + rewrite bool_decide_eq_false_2.
      * apply IH. intros p Hp. apply Hbefore. by right.
      * apply (Hbefore (k, y)). by left.
Qed.

Section Middleware.
Context `{JsonParser} `{Intl}.

(** The locale is the one the i18n response names, and the default locale
    when the header is missing or empty. *)
Lemma localeOf_spec (response : NextResponse) :
  (∀ l, headers response !! "x-middleware-request-x-next-intl-locale" = Some l →
        l ≠ "" → localeOf response = l)
  ∧ (headers response !! "x-middleware-request-x-next-intl-locale" = None
     ∨ headers response !! "x-middleware-request-x-next-intl-locale" = Some "" →
     localeOf response = routing_defaultLocale).
Proof.
  unfold localeOf, string_or. split.
  - intros l -> Hl. by rewrite bool_decide_eq_false_2.
  - by intros [-> | ->].
Qed.

(** [isUserAuthenticated] always returns; it never throws. *)
Lemma isUserAuthenticated_returns (request : NextRequest) :
  ∃ b, isUserAuthenticated request = Normal b.
Proof.
  unfold isUserAuthenticated.
  destruct (cookies request !! "accessToken"); [by eexists|].
  destruct (cookies request !! "porraza-auth-state"); [|by eexists].
  destruct (JSON_parse _); by eexists.
Qed.

(** C9. The authentication check returns [true] as soon as an
    [accessToken] cookie is present, whatever its value. Without it, when a
    [porraza-auth-state] cookie is present, the check returns [true] exactly
    when the cookie value parses as JSON whose [state.userId] and
    [state.accessToken] are both truthy, and [false] when the text is
    malformed (the exception of the parser is caught). With neither cookie it
    returns [false]. In every case it returns: no exception escapes. *)
Theorem isUserAuthenticated_spec (request : NextRequest) :
  (∀ token, cookies request !! "accessToken" = Some token →
     isUserAuthenticated request = Normal true)
  ∧ (cookies request !! "accessToken" = None →
     ∀ value, cookies request !! "porraza-auth-state" = Some value →
       (isUserAuthenticated request = Normal true ↔
          ∃ authState, JSON_parse value = Normal authState
            ∧ let state := optionalProperty (Some authState) "state" in
              truthy (optionalProperty state "userId") = true
              ∧ truthy (optionalProperty state "accessToken") = true)
       ∧ (∀ e, JSON_parse value = Throw e → isUserAuthenticated request = Normal false))
  ∧ (cookies request !! "accessToken" = None →
     cookies request !! "porraza-auth-state" = None →
     isUserAuthenticated request = Normal false)
  ∧ (∃ b, isUserAuthenticated request = Normal b).
Proof.
  split; [|split; [|split]].
  - intros token Htok. unfold isUserAuthenticated. by rewrite Htok.
  - intros Hno value Hval. unfold isUserAuthenticated. rewrite Hno, Hval. split.
    + destruct (JSON_parse value) as [authState|e]; cbn zeta.
      * unfold js_and.
        destruct (truthy (optionalProperty
                            (optionalProperty (Some authState) "state") "userId")) eqn:Hu.
        -- split.
           ++ intros [= Ha]. by exists authState.
           ++ intros (a & [= <-] & _ & Ha). by rewrite Ha.
        -- rewrite Hu. split; [done|]. intros (a & [= <-] & Hu' & _). congruence.
      * split; [done|]. by intros (a & ? & _).
    + by intros e ->.
  - intros Hno Hno'. unfold isUserAuthenticated. by rewrite Hno, Hno'.
  - apply isUserAuthenticated_returns.
Qed.

(** C3. For every request, with [path] the pathname without its locale
    prefix and [locale] the locale named by the i18n response (the default
    locale when it names none): a protected path requested without
    authentication is redirected to [/<locale>/login] with the original
    pathname as the [from] parameter; an auth-only path requested with
    authentication is redirected to [/<locale>/dashboard]; every other
    request gets the response of the i18n middleware, unchanged. *)
Theorem proxy_guard (request : NextRequest) :
  let path := pathnameWithoutLocale (nextUrl_pathname request) in
  let locale := localeOf (handleI18nRouting request) in
  ∃ isAuthenticated,
    isUserAuthenticated request = Normal isAuthenticated
    ∧ (hasPrefixIn protectedRoutes path → isAuthenticated = false →
       proxy request =
         Normal (NextResponse_redirect
                   {| base := url request;
                      pathname := "/" ++ locale ++ "/login";
                      searchParams := [("from", nextUrl_pathname request)] |}))
    ∧ (hasPrefixIn authRoutes path → isAuthenticated = true →
       proxy request =
         Normal (NextResponse_redirect
                   {| base := url request;
                      pathname := "/" ++ locale ++ "/dashboard";
                      searchParams := [] |}))
    ∧ (¬ (hasPrefixIn protectedRoutes path ∧ isAuthenticated = false) →
       ¬ (hasPrefixIn authRoutes path ∧ isAuthenticated = true) →
       proxy request = Normal (handleI18nRouting request)).
Proof.
  cbn zeta. destruct (isUserAuthenticated_returns request) as [b Hb].
  exists b. split; [done|]. unfold proxy. rewrite Hb.
  unfold isProtectedRoute, isAuthRoute.
  split; [|split].
  - intros Hp%existsb_startsWith ->. by rewrite Hp.
  - intros Ha%existsb_startsWith ->. rewrite Ha. by rewrite andb_false_r.
  - intros Hnp Hna.
    destruct (existsb (λ route, startsWith _ route) protectedRoutes) eqn:Hp,
      (existsb (λ route, startsWith _ route) authRoutes) eqn:Ha, b;
      cbn; try done; exfalso;
      try apply existsb_startsWith in Hp; try apply existsb_startsWith in Ha; auto.
Qed.

End Middleware.

(** The examples of the specification: [/dashboard] without cookies goes to
    the login page with [from=/dashboard]; [/login] with an [accessToken]
    cookie goes to the dashboard; a public path passes through. *)
Example proxy_examples :
  @proxy sampleParser sampleIntl (sampleRequest "/dashboard" [])
    = Normal (NextResponse_redirect
                {| base := "https://porraza.example/dashboard";
                   pathname := "/es/login";
                   searchParams := [("from", "/dashboard")] |})
  ∧ @proxy sampleParser sampleIntl (sampleRequest "/login" [("accessToken", "x")])
    = Normal (NextResponse_redirect
                {| base := "https://porraza.example/login";
                   pathname := "/es/dashboard";
                   searchParams := [] |})
  ∧ @proxy sampleParser sampleIntl (sampleRequest "/en/rules" [("accessToken", "")])
    = Normal (@handleI18nRouting sampleIntl
                (sampleRequest "/en/rules" [("accessToken", "")]))
  ∧ @proxy sampleParser sampleIntl (sampleRequest "/" [])
    = Normal (@handleI18nRouting sampleIntl (sampleRequest "/" [])).
Proof. repeat split. Qed.

Example isUserAuthenticated_examples :
  @isUserAuthenticated sampleParser
    (sampleRequest "/teams" [("porraza-auth-state", authStateText)]) = Normal true
  ∧ @isUserAuthenticated sampleParser
      (sampleRequest "/teams" [("porraza-auth-state", signedOutText)]) = Normal false
  ∧ @isUserAuthenticated sampleParser
      (sampleRequest "/teams" [("porraza-auth-state", "{oops")]) = Normal false
  ∧ @isUserAuthenticated sampleParser
      (sampleRequest "/teams" [("accessToken", ""); ("porraza-auth-state", "{oops")])
    = Normal true
  ∧ @isUserAuthenticated sampleParser (sampleRequest "/teams" []) = Normal false.
Proof. repeat split. Qed.

End ProxyFacts.

(** ** The knockout match dialog: sessions *)

Module KnockoutMatchDialogSessionFacts.
Import JsNumber JsNumberFacts KnockoutMatchDialog KnockoutMatchDialogFacts.
Import KnockoutMatchDialogSessions Fixtures.

(** After a render of a settled dialog the page shows the store. *)
Lemma settle_rendered n s :
  resetInvariant s → rendered (settle (S n) s) = Some (values s).
Proof.
  intros Hs. pose proof (settle_settled 1 s Hs) as Hv. cbn [settle] in *.
  pose proof (pass_rendered s) as Hr.
  destruct (renderAndRunEffects s) as [s' wrote]; cbn [fst] in *.
  assert (values s' = values s) as Hv' by by destruct wrote.
  destruct wrote; [|done].
  assert (inStep s') as Hin by (exists (values s); by rewrite Hv').
  destruct n as [|n]; [done|]. cbn [settle]. rewrite (inStep_quiet s' Hin).
  cbn [rendered]. by rewrite Hv'.
Qed.

(** The first effect runs and writes exactly when the regular-time result
    became decisive. *)
Lemma resetExtraTime_fires prev f :
  depsChanged prev (derive f) (λ r, [d_hasValidRegularTimeScores r; d_isTied r])
  && hasValidRegularTimeScores f && negb (isTied f)
  = hasValidRegularTimeScores f && negb (isTied f)
    && negb (match prev with
             | Some p => d_hasValidRegularTimeScores p && negb (d_isTied p)
             | None => false
             end).
Proof.
  unfold depsChanged. destruct prev as [p|]; cbn.
  - destruct (d_hasValidRegularTimeScores p), (d_isTied p),
      (hasValidRegularTimeScores f), (isTied f); done.
  - by rewrite andb_true_r.
Qed.

(** The first render leaves the regular-time flags of the defaults. *)
Lemma first_pass_regular s :
  rendered s = None →
  homeScore (values (renderAndRunEffects s).1)
  = setValueAs_regular_stored (homeScore (values s))
  ∧ awayScore (values (renderAndRunEffects s).1)
    = setValueAs_regular_stored (awayScore (values s)).
Proof.
  intros Hr. rewrite pass_eq. cbn [fst values].
  destruct (runEffects_frame (extraTimeRegistered s || isTied (values s))
              (lastRender s) (derive (values s)) (commit s)) as (_ & _ & _ & -> & ->).
  destruct (commit_regular s) as [-> ->]. by rewrite Hr.
Qed.

Lemma first_pass_regularInStep s :
  rendered s = None →
  regularScore (homeScore (values s)) → regularScore (awayScore (values s)) →
  regularInStep (renderAndRunEffects s).1.
Proof.
  intros Hr Hh Ha. exists (values s). split; [apply pass_rendered|].
  destruct (first_pass_regular s Hr) as [Hh1 Ha1].
  destruct (registerRegular_flags (values s) Hh Ha) as [<- <-].
  destruct (regular_flags (values (renderAndRunEffects s).1) (registerRegular (values s)))
    as [-> ->]; done.
Qed.

(** The scores that the renders leave are those that the first render
    leaves. *)
Lemma settle_scores_first n s :
  (rendered s = None →
   regularScore (homeScore (values s)) ∧ regularScore (awayScore (values s))) →
  let s1 := (renderAndRunEffects s).1 in
  homeScore (values (settle (S n) s)) = homeScore (values s1)
  ∧ awayScore (values (settle (S n) s)) = awayScore (values s1)
  ∧ homeScoreET (values (settle (S n) s)) = homeScoreET (values s1)
  ∧ awayScoreET (values (settle (S n) s)) = awayScoreET (values s1).
Proof.
  intros Hnone. cbn zeta.
  assert (regularInStep (renderAndRunEffects s).1) as Hstep.
  { destruct (rendered s) as [r|] eqn:Hr; [by apply (pass_regularInStep s r)|].
    destruct (Hnone eq_refl). by apply first_pass_regularInStep. }
  pose proof (pass_rendered s) as Hr1. cbn [settle].
  destruct (renderAndRunEffects s) as [s1 []]; cbn [fst] in *; [|done].
  destruct (settle_regular n s1 (values s) Hr1) as [-> ->].
  by destruct (settle_extraTime n s1 Hstep) as [-> ->].
Qed.

(** The penalty winner that the renders leave: the one of the store when
    the store passes both ties, none otherwise. A penalty winner is in the
    store only when the page shows the penalty buttons. *)
Lemma settle_penaltiesWinner_first n s :
  (∀ w, rendered s = Some w → penaltiesWinner (values s) ≠ Null →
        showPenalties w = true) →
  penaltiesWinner (values (settle (S n) s))
  = (if showPenalties (values s) then penaltiesWinner (values s) else Null).
Proof.
  intros Hpage. cbn [settle]. destruct (showPenalties (values s)) eqn:Hshow.
  - rewrite pass_eq. rewrite (runEffects_showPenalties _ _ (values s) (commit s) Hshow).
    cbn. by destruct (commit_frame s) as (_ & _ & _ & ->).
  - assert (penaltiesWinner (values (renderAndRunEffects s).1) = Null) as Hpw.
    { destruct (penaltiesWinner (values s)) eqn:Hold.
      1,3: rewrite pass_eq; cbn [fst values]; apply runEffects_clears;
        [|done];
        unfold depsChanged, lastRender;
        destruct (rendered s) as [w|] eqn:Hr; [|done];
        cbn; rewrite (Hpage w eq_refl), Hshow; done.
      by apply (pass_penaltiesWinner s). }
    destruct (renderAndRunEffects s) as [s1 []]; cbn [fst] in *; [|done].
    by apply settle_penaltiesWinner.
Qed.

(** The renders after a change of the store, in one equation. *)
Lemma settle_settledDraft n s :
  (rendered s = None →
   regularScore (homeScore (values s)) ∧ regularScore (awayScore (values s))) →
  (∀ w, rendered s = Some w → penaltiesWinner (values s) ≠ Null →
        showPenalties w = true) →
  values (settle (S n) s) = settledDraft (extraTimeRegistered s) (rendered s) (values s).
Proof.
  intros Hnone Hpage.
  destruct (settle_frame (S n) s) as (H1 & H2 & H3).
  destruct (settle_scores_first n s Hnone) as (H4 & H5 & H6 & H7).
  pose proof (settle_penaltiesWinner_first n s Hpage) as H8.
  destruct (pass_extraTime s) as [H9 H10]. cbn zeta in *.
  rewrite H9 in H6. rewrite H10 in H7. clear H9 H10.
  rewrite resetExtraTime_fires in H6, H7.
  assert (∀ v,
    (if hasValidRegularTimeScores (values s) && negb (isTied (values s))
        && negb (match lastRender s with
                 | Some p => d_hasValidRegularTimeScores p && negb (d_isTied p)
                 | None => false
                 end)
     then setValue_stored_extraTime (extraTimeRegistered s || isTied (values s)) Null
     else if isTied (values s) && negb (extraTimeMounted s)
          then setValueAs_extraTime_stored v else v)
    = (if hasValidRegularTimeScores (values s) && negb (isTied (values s))
          && negb (match rendered s with
                   | Some watched => hasValidRegularTimeScores watched && negb (isTied watched)
                   | None => false
                   end)
       then setValue_stored_extraTime (extraTimeRegistered s) Null
       else if isTied (values s)
               && negb (match rendered s with
                        | Some watched => isTied watched
                        | None => false
                        end)
            then setValueAs_extraTime_stored v else v)) as HE.
  { intros v. unfold lastRender, extraTimeMounted.
    destruct (rendered s) as [w|]; cbn;
      destruct (isTied (values s)); cbn; by rewrite ?andb_false_r, ?orb_false_r. }
  rewrite HE in H6, H7.
  apply FormData_eq; unfold settledDraft;
    cbn [matchId homeTeamId awayTeamId homeScore awayScore homeScoreET awayScoreET
         penaltiesWinner]; try done.
  - rewrite H4. destruct (rendered s) as [w|] eqn:Hr.
    + by destruct (pass_regular s w Hr) as [-> _].
    + by destruct (first_pass_regular s Hr) as [-> _].
  - rewrite H5. destruct (rendered s) as [w|] eqn:Hr.
    + by destruct (pass_regular s w Hr) as [_ ->].
    + by destruct (first_pass_regular s Hr) as [_ ->].
Qed.

Section Sessions.
Context `{StringToNumber}.

(** X1. The renders that follow the mounting of the dialog or an event
    compute a function of the store, of the page and of the registration of
    the extra-time inputs. Mounting leaves [settledDraft] of the default
    values with no page; an event that the page of a reachable dialog
    offers leaves [settledDraft] of the store it wrote to, with the page as
    it was; an event that the page does not offer leaves the values as they
    are. *)
Theorem renders_compute_settledDraft :
  (∀ m up, values (mount m up) = settledDraft false None (defaultValues m up))
  ∧ (∀ e s w, reachable s → rendered s = Some w →
       values (dispatch e s)
       = (if available e w
          then settledDraft (extraTimeRegistered s) (Some w) (handle e (values s))
          else values s)).
Proof.
  split.
  - intros m up. unfold mount. change maxUpdateDepth with (S 49).
    rewrite settle_settledDraft; [done| |done].
    intros _. unfold regularScore. cbn. by destruct up.
  - intros e s w Hs%reachable_invariant Hw. unfold dispatch. rewrite Hw.
    destruct (available e w) eqn:Hav; [|done].
    change maxUpdateDepth with (S 49).
    rewrite settle_settledDraft; [done|done|]. cbn [rendered values].
    intros w' [= <-] Hpw. destruct (showPenalties w) eqn:Hshow; [done|].
    destruct Hs as (w' & Hw' & _ & _ & _ & _ & _ & _ & _ & _ & _ & _ & _ & He).
    rewrite Hw in Hw'. injection Hw' as <-. specialize (He Hshow).
    destruct e; cbn in Hav, Hpw; congruence.
Qed.

(** X2. In a reachable dialog an edit made twice in a row leaves the
    values of the form that the edit made once leaves, and a render that
    something else causes leaves the values of the form as they are and
    brings the page in step with the store. Only the page can change: it
    may show what an input made of its value when it was mounted. *)
Theorem repeated_edit_absorbed e s :
  reachable s →
  values (dispatch e (dispatch e s)) = values (dispatch e s)
  ∧ values (dispatch Rerender s) = values s
  ∧ rendered (dispatch Rerender s) = Some (values s).
Proof.
  intros Hs. pose proof (reachable_invariant s Hs) as Hinv.
  split; [by apply dispatch_absorbed|].
  rewrite (dispatch_Rerender s Hinv). split.
  - by apply settle_settled.
  - change maxUpdateDepth with (S 49). by apply settle_rendered.
Qed.

(** X3. Clearing a regular-time input of a reachable dialog and typing the
    former score again brings back the regular-time scores and, without a
    tie, the extra-time scores. Under a tie the extra-time inputs are
    mounted again, so each extra-time score comes back as its input makes
    it: a number as it was, an empty field as [0]. The penalty winner is
    lost. *)
Theorem clear_and_retype v s :
  reachable s →
  (setValueAs_regular v = homeScore (values s) →
     values (dispatch (ChangeHomeScore v) (dispatch (ChangeHomeScore "") s))
     = setValue_penaltiesWinner Null
         (if isTied (values s) then registerExtraTime (values s) else values s))
  ∧ (setValueAs_regular v = awayScore (values s) →
     values (dispatch (ChangeAwayScore v) (dispatch (ChangeAwayScore "") s))
     = setValue_penaltiesWinner Null
         (if isTied (values s) then registerExtraTime (values s) else values s)).
Proof.
  intros Hs. split; intros Hv.
  - by apply clear_and_retype_general.
  - apply clear_and_retype_general; try done.
    unfold hasValidRegularTimeScores. cbn. apply andb_false_r.
Qed.

(** X4. In a reachable dialog with valid regular-time scores that differ
    the page shows the store, without the extra-time inputs and the penalty
    buttons, and the submit button is disabled exactly when the extra-time
    inputs are registered, that is when a regular-time tie has been on the
    page before: the [0] that the reset leaves in the extra-time scores
    trips the rule on extra-time scores without a tie. *)
Theorem decisive_scores_gate s :
  reachable s →
  hasValidRegularTimeScores (values s) = true → isTied (values s) = false →
  rendered s = Some (values s)
  ∧ isFormIncomplete (values s) = extraTimeRegistered s
  ∧ shown s false false
    = Some {| extraTimeVisible := false; penaltiesVisible := false;
              submitDisabled := extraTimeRegistered s |}.
Proof.
  intros Hs Hhv Ht.
  destruct (reachable_decisive s Hs Hhv Ht) as (Hr & HhE & HaE & Hpw).
  assert (isFormIncomplete (values s) = extraTimeRegistered s) as Hgate.
  { unfold isFormIncomplete. rewrite Hhv, Ht, HhE, HaE, Hpw.
    by destruct (extraTimeRegistered s). }
  split; [done|]. split; [done|].
  unfold shown, render. rewrite Hr. cbn [fmap option_fmap option_map].
  unfold showPenalties. rewrite Ht, Hgate. cbn. by rewrite !orb_false_r.
Qed.

(** X5. Opening the dialog on a stored prediction that passes the submit
    gate shows that prediction unchanged, with the submission enabled: the
    effects of the first render erase nothing of it. *)
Theorem mount_keeps_complete_prediction (m : Domain.RoundOf32Match)
    (p : Domain.UserMatchPrediction) :
  isFormIncomplete (defaultValues m (Some p)) = false →
  values (mount m (Some p)) = defaultValues m (Some p)
  ∧ submitDisabled (render (values (mount m (Some p))) false false) = false.
Proof.
  intros Hc.
  assert (values (mount m (Some p)) = defaultValues m (Some p)) as Hv.
  { unfold mount. apply (settle_fixed maxUpdateDepth
      {| values := defaultValues m (Some p); rendered := None;
         extraTimeRegistered := false |}).
    by apply complete_first_render. }
  split; [done|]. rewrite Hv. cbn. by rewrite Hc.
Qed.

End Sessions.

(** X6. The reset effects never loop. From any store, any page and either
    state of the registration, the renders stop because a render writes
    nothing, within four passes; so the bound on nested updates is never
    reached, and more than four passes give what four give. *)
Theorem effects_come_to_rest (s : instance) :
  comesToRest 4 s = true
  ∧ comesToRest maxUpdateDepth s = true
  ∧ (∀ n, (4 ≤ n)%nat → settle n s = settle 4 s).
Proof.
  split; [apply always_comesToRest|]. split; [apply comesToRest_maxUpdateDepth|].
  intros n Hn. apply settle_comesToRest; [apply always_comesToRest|done].
Qed.

(** The result of [onSubmit] in one equation. *)
Lemma onSubmit_eq (props : MatchContentProps) (data : FormData) (w : world) :
  onSubmit props data w =
    ({| calls := calls w ++
          (if predictionId_falsy (predictionId props) then [missingPredictionNotice]
           else
             onSave_call "ROUND_OF_32" [toMatchPrediction data]
             :: match onSave props "ROUND_OF_32" [toMatchPrediction data] with
                | Normal _ =>
                    [toast_success "Predicción guardada"
                       (Domain.team_name (Domain.homeTeam (match_ props)) ++ " vs "
                        ++ Domain.team_name (Domain.awayTeam (match_ props)));
                     onClose_call]
                | Throw error =>
                    [console_error "[KnockoutMatchDialog] Error saving prediction:" error;
                     toast_error "Error al guardar" (errorDescription error)]
                end);
        form := form w |}, Normal tt).
Proof.
  unfold onSubmit. destruct (predictionId_falsy (predictionId props)); [done|].
  run_eff. destruct (onSave props _ _) as [[]|error]; cbn;
    rewrite <- !app_assoc; reflexivity.
Qed.

(** X7. Whatever the props, the data and the outcome of the save callback,
    [onSubmit] completes without throwing and leaves the form store alone;
    it shows exactly one notice; it calls the save callback at most once,
    and exactly when there is a prediction identifier, with the phase
    [ROUND_OF_32] and the one prediction built from the data; and it calls
    the close handler exactly when that call resolved. *)
Theorem onSubmit_always_notifies (props : MatchContentProps) (data : FormData)
    (w : world) :
  ∃ added,
    onSubmit props data w
      = ({| calls := calls w ++ added; form := form w |}, Normal tt)
    ∧ length (List.filter isNotice added) = 1%nat
    ∧ List.filter isSaveCall added =
        (if predictionId_falsy (predictionId props) then []
         else [onSave_call "ROUND_OF_32" [toMatchPrediction data]])
    ∧ (existsb isCloseCall added = true ↔
       predictionId_falsy (predictionId props) = false
       ∧ onSave props "ROUND_OF_32" [toMatchPrediction data] = Normal tt).
Proof.
  eexists. split; [apply onSubmit_eq|].
  destruct (predictionId_falsy (predictionId props)).
  - cbn. split; [done|]. split; [done|]. split; [done|]. by intros [? _].
  - destruct (onSave props _ _) as [[]|error]; cbn.
    + split; [done|]. split; [done|]. done.
    + split; [done|]. split; [done|]. split; [done|]. by intros [_ ?].
Qed.

(** *** On sessions of the sample match *)

(** X1 on a fresh dialog in which 1 and 1 were typed: the page shows the
    tie without extra-time scores, the store holds [0] and [0], and the
    away score becomes 3. *)
Lemma renders_compute_settledDraft_witness :
  let s := dispatch (ChangeAwayScore "1")
             (dispatch (ChangeHomeScore "1") (mount sampleMatch None)) in
  let w := draft (Val 1%float) (Val 1%float) Null Null Null in
  values (dispatch (ChangeAwayScore "3") s)
  = (if available (ChangeAwayScore "3") w
     then settledDraft (extraTimeRegistered s) (Some w)
            (handle (ChangeAwayScore "3") (values s))
     else values s).
Proof.
  intros s w. refine (proj2 renders_compute_settledDraft _ s w _ _).
  - reach.
  - vm_compute. reflexivity.
Defined.

(** X2 on a fresh dialog in which 1 and 1 were typed: 1 is typed as the
    away score once more. *)
Lemma repeated_edit_absorbed_witness :
  let s := dispatch (ChangeHomeScore "1") (mount sampleMatch None) in
  values (dispatch (ChangeAwayScore "1") (dispatch (ChangeAwayScore "1") s))
  = values (dispatch (ChangeAwayScore "1") s)
  ∧ values (dispatch Rerender s) = values s
  ∧ rendered (dispatch Rerender s) = Some (values s).
Proof.
  intros s. refine (repeated_edit_absorbed (ChangeAwayScore "1") s _).
  reach.
Defined.

(** X3 on a stored 1-1 with extra time 1-1 whose home extra-time input was
    emptied: the home score is cleared and typed again. *)
Lemma clear_and_retype_witness :
  let s := dispatch (ChangeHomeScoreET "")
             (mount sampleMatch
                (Some (stored 1%float 1%float (Some 1%float) (Some 1%float) None))) in
  values (dispatch (ChangeHomeScore "1") (dispatch (ChangeHomeScore "") s))
  = setValue_penaltiesWinner Null
      (if isTied (values s) then registerExtraTime (values s) else values s).
Proof.
  intros s. refine (proj1 (clear_and_retype "1" s _) _).
  - reach.
  - vm_compute. reflexivity.
Defined.

(** X4 on a fresh dialog in which 1 and 1 were typed before the away score
    became 3. *)
Lemma decisive_scores_gate_witness :
  let s := dispatch (ChangeAwayScore "3")
             (dispatch (ChangeAwayScore "1")
                (dispatch (ChangeHomeScore "1") (mount sampleMatch None))) in
  rendered s = Some (values s)
  ∧ isFormIncomplete (values s) = extraTimeRegistered s
  ∧ shown s false false
    = Some {| extraTimeVisible := false; penaltiesVisible := false;
              submitDisabled := extraTimeRegistered s |}.
Proof.
  intros s. refine (decisive_scores_gate s _ _ _).
  - reach.
  - vm_compute. reflexivity.
  - vm_compute. reflexivity.
Defined.

(** X5 on a stored 1-1 that extra time decided 1-2. *)
Lemma mount_keeps_complete_prediction_witness :
  let p := stored 1%float 1%float (Some 1%float) (Some 2%float) None in
  values (mount sampleMatch (Some p)) = defaultValues sampleMatch (Some p)
  ∧ submitDisabled (render (values (mount sampleMatch (Some p))) false false) = false.
Proof.
  intros p. refine (mount_keeps_complete_prediction sampleMatch p _).
  vm_compute. reflexivity.
Defined.

(** Typing 2 and 0 into a fresh dialog can be submitted; typing 1 and 1
    first and then 2 and 0 cannot. On a stored 1-1 with extra time 1-1, the
    home extra-time input is emptied and the home score is cleared and typed
    again: the emptied extra-time score is [0]. *)
Example session_examples :
  let direct := session sampleMatch None [ChangeHomeScore "2"; ChangeAwayScore "0"] in
  let detour := session sampleMatch None
                  [ChangeHomeScore "1"; ChangeAwayScore "1"; ChangeHomeScore "2";
                   ChangeAwayScore "0"] in
  let emptied := session sampleMatch
                   (Some (stored 1%float 1%float (Some 1%float) (Some 1%float) None))
                   [ChangeHomeScoreET ""; ChangeHomeScore ""; ChangeHomeScore "1"] in
  values direct = draft (Val 2%float) (Val 0%float) Null Null Null
  ∧ extraTimeRegistered direct = false
  ∧ isFormIncomplete (values direct) = false
  ∧ values detour = draft (Val 2%float) (Val 0%float) (Val 0%float) (Val 0%float) Null
  ∧ extraTimeRegistered detour = true
  ∧ isFormIncomplete (values detour) = true
  ∧ values emptied
    = draft (Val 1%float) (Val 1%float) (Val 0%float) (Val 1%float) Null.
Proof. vm_compute. repeat split. Qed.

End KnockoutMatchDialogSessionFacts.

(** ** The knockout bracket component *)

Module KnockoutBracketComponentFacts.
Import JsNumber JsNumberFacts Domain KnockoutBracket KnockoutBracketComponent.
Import ProxyFacts Samples.

Lemma forEachIndexed_insert_lookup (key : nat → nat) (base : nat)
    (l : list KnockoutMatch) (start : nat) (map : gmap nat KnockoutMatch) (n : nat) :
  (∀ i, key i = base + i)%nat →
  forEachIndexed (λ map m index, <[key index := m]> map) l start map !! n
  = if decide (base + start ≤ n < base + start + length l)%nat
    then l !! (n - (base + start))%nat
    else map !! n.
Proof.
  intros Hkey.
  revert start map. induction l as [|x l IH]; intros start map; cbn [forEachIndexed length].
  - case_decide; [lia|done].
  - rewrite IH, Hkey. repeat case_decide; try lia.
    + replace (n - (base + start))%nat with (S (n - (base + S start)))%nat by lia. done.
    + assert (n = base + start)%nat as -> by lia.
      rewrite lookup_insert_eq. by rewrite Nat.sub_diag.
    + rewrite lookup_insert_ne by lia. done.
Qed.

(** The law of [tournamentMatchMap]: number 31 is the final; otherwise the
    latest round whose range holds the number wins. *)
Lemma tournamentMatchMap_lookup (k : Knockouts) (n : nat) :
  tournamentMatchMap (Some k) !! n =
    if decide (n = 31) then Some (final k)
    else if decide (29 ≤ n < 29 + length (semiFinals k))%nat
         then semiFinals k !! (n - 29)%nat
    else if decide (25 ≤ n < 25 + length (quarterFinals k))%nat
         then quarterFinals k !! (n - 25)%nat
    else if decide (17 ≤ n < 17 + length (roundOf16 k))%nat
         then roundOf16 k !! (n - 17)%nat
    else if decide (1 ≤ n < 1 + length (roundOf32 k))%nat
         then roundOf32 k !! (n - 1)%nat
    else None.
Proof.
  unfold tournamentMatchMap. cbn zeta.
  destruct (decide (n = 31)) as [->|Hn]; [by rewrite lookup_insert_eq|].
  rewrite lookup_insert_ne by done.
  rewrite (forEachIndexed_insert_lookup _ 29) by done.
  rewrite (forEachIndexed_insert_lookup _ 25) by done.
  rewrite (forEachIndexed_insert_lookup _ 17) by done.
  rewrite (forEachIndexed_insert_lookup _ 1) by (intros; lia).
  rewrite !Nat.add_0_r, lookup_empty. done.
Qed.

(** X8. Within the sizes of the bracket (16, 8, 4 and 2 matches) the drawn
    matches are numbered round after round: 1 to 16 for the round of 32, 17
    to 24 for the round of 16, 25 to 28 for the quarter-finals, 29 and 30
    for the semi-finals and 31 for the final, each in the order of its
    round; no match is found under 0 or a number above 31. *)
Theorem tournamentMatchMap_rounds (k : Knockouts) :
  (length (roundOf32 k) ≤ 16)%nat → (length (roundOf16 k) ≤ 8)%nat →
  (length (quarterFinals k) ≤ 4)%nat → (length (semiFinals k) ≤ 2)%nat →
  let map := tournamentMatchMap (Some k) in
  (∀ i m, roundOf32 k !! i = Some m → map !! (i + 1)%nat = Some m)
  ∧ (∀ i m, roundOf16 k !! i = Some m → map !! (17 + i)%nat = Some m)
  ∧ (∀ i m, quarterFinals k !! i = Some m → map !! (25 + i)%nat = Some m)
  ∧ (∀ i m, semiFinals k !! i = Some m → map !! (29 + i)%nat = Some m)
  ∧ map !! 31%nat = Some (final k)
  ∧ (∀ n, (n = 0 ∨ 31 < n)%nat → map !! n = None).
Proof.
  intros H32 H16 H4 H2. cbn zeta.
  repeat split; try intros i m Hm; try intros n Hn;
    rewrite tournamentMatchMap_lookup;
    try (apply lookup_lt_Some in Hm as Hlt);
    repeat case_decide; try lia; try done.
  - by replace (i + 1 - 1)%nat with i by lia.
  - by replace (17 + i - 17)%nat with i by lia.
  - by replace (25 + i - 25)%nat with i by lia.
  - by replace (29 + i - 29)%nat with i by lia.
Qed.

(** *** The predictions by match id *)

Lemma predictionsMap_fold (k : Knockouts) :
  predictionsMap (Some k) = foldl setPrediction ∅ (allMatches k).
Proof. unfold predictionsMap, allMatches. by rewrite !foldl_app. Qed.

Lemma foldl_setPrediction_other (l : list KnockoutMatch) map (i : string) :
  i ∉ km_id <$> l → foldl setPrediction map l !! i = map !! i.
Proof.
  revert map. induction l as [|m l IH]; intros map Hi; [done|].
  cbn [foldl]. rewrite fmap_cons, not_elem_of_cons in Hi. destruct Hi as [Hne Hi].
  rewrite IH by done. unfold setPrediction.
  destruct (km_userPrediction m); [|done]. by rewrite lookup_insert_ne.
Qed.

Lemma foldl_setPrediction_member (l : list KnockoutMatch) map (m : KnockoutMatch) :
  NoDup (km_id <$> l) → m ∈ l →
  foldl setPrediction map l !! km_id m =
    match km_userPrediction m with
    | Some pred => Some (convertPrediction (km_id m) pred)
    | None => map !! km_id m
    end.
Proof.
  revert map. induction l as [|x l IH]; intros map Hnd Hm; [by apply elem_of_nil in Hm|].
  rewrite fmap_cons in Hnd. apply NoDup_cons in Hnd as [Hx Hnd].
  cbn [foldl]. apply elem_of_cons in Hm as [->|Hm].
  - rewrite foldl_setPrediction_other by done. unfold setPrediction.
    destruct (km_userPrediction x); [|done]. by rewrite lookup_insert_eq.
  - rewrite IH by done. destruct (km_userPrediction m); [done|].
    unfold setPrediction. destruct (km_userPrediction x); [|done].
    rewrite lookup_insert_ne; [done|]. intros Heq. apply Hx. rewrite Heq.
    by apply list_elem_of_fmap_2.
Qed.

Lemma foldl_setPrediction_origin (l : list KnockoutMatch) map (i : string) q :
  foldl setPrediction map l !! i = Some q →
  map !! i = Some q
  ∨ ∃ m pred, m ∈ l ∧ km_id m = i ∧ km_userPrediction m = Some pred
      ∧ q = convertPrediction i pred.
Proof.
  revert map. induction l as [|x l IH]; intros map Hq; [by left|].
  cbn [foldl] in Hq. apply IH in Hq as [Hq|(m & pred & Hm & ? & ? & ?)].
  - unfold setPrediction in Hq. destruct (km_userPrediction x) as [pred|] eqn:Hx; [|by left].
    destruct (decide (km_id x = i)) as [<-|Hne].
    + rewrite lookup_insert_eq in Hq. injection Hq as <-.
      right. exists x, pred. split; [by left|done].
    + rewrite lookup_insert_ne in Hq by done. by left.
  - right. exists m, pred. split; [by right|done].
Qed.

Lemma tournamentMatchMap_member (k : Knockouts) (n : nat) (m : KnockoutMatch) :
  tournamentMatchMap (Some k) !! n = Some m → m ∈ allMatches k.
Proof.
  rewrite tournamentMatchMap_lookup. unfold allMatches.
  repeat case_decide; try done; intros Hm;
    try apply list_elem_of_lookup_2 in Hm; rewrite !elem_of_app; auto 10.
  injection Hm as <-. do 4 right. by left.
Qed.

(** X9. With match ids that are all different, the prediction filed under
    the id of a match is the converted prediction of that very match, and
    nothing is filed under an id that no match has. *)
Theorem predictionsMap_lookup (k : Knockouts) :
  NoDup (km_id <$> allMatches k) →
  (∀ m, m ∈ allMatches k →
     predictionsMap (Some k) !! km_id m
     = convertPrediction (km_id m) <$> km_userPrediction m)
  ∧ (∀ i, i ∉ km_id <$> allMatches k → predictionsMap (Some k) !! i = None).
Proof.
  intros Hnd. rewrite predictionsMap_fold. split.
  - intros m Hm. rewrite foldl_setPrediction_member by done.
    by destruct (km_userPrediction m).
  - intros i Hi. by rewrite foldl_setPrediction_other.
Qed.

(** X10. Whatever the ids, every prediction in the map is the converted
    prediction of a match that has that id; without knockouts the map is
    empty. *)
Theorem predictionsMap_origin (knockouts : option Knockouts) (i : string)
    (q : UserMatchPrediction) :
  predictionsMap knockouts !! i = Some q →
  ∃ k m pred, knockouts = Some k ∧ m ∈ allMatches k ∧ km_id m = i
    ∧ km_userPrediction m = Some pred ∧ q = convertPrediction i pred.
Proof.
  destruct knockouts as [k|]; [|done]. rewrite predictionsMap_fold.
  intros [Hq|(m & pred & ? & ? & ? & ?)]%foldl_setPrediction_origin; [done|].
  by exists k, m, pred.
Qed.

(** *** Clicks *)

(** X11. With match ids that are all different, a click on a drawn match
    whose two teams are known opens the dialog on that match with the
    prediction of that very match. *)
Theorem click_opens_own_prediction (k : Knockouts) (n : nat) (m : KnockoutMatch)
    (h a : Team) (st : state) :
  NoDup (km_id <$> allMatches k) →
  tournamentMatchMap (Some k) !! n = Some m →
  km_homeTeam m = Some h → km_awayTeam m = Some a →
  handleMatchClick (Some k) (Some n) st
  = {| selectedMatch :=
         Some {| match_id := km_id m; Domain.homeTeam := h; Domain.awayTeam := a |};
       selectedPrediction := convertPrediction (km_id m) <$> km_userPrediction m;
       isDialogOpen := true |}.
Proof.
  intros Hnd Hm Hh Ha. unfold handleMatchClick, knockoutMatchOf.
  rewrite Hm, Hh, Ha. cbn zeta.
  rewrite predictionsMap_fold, foldl_setPrediction_member;
    [|done|by eapply tournamentMatchMap_member].
  by destruct (km_userPrediction m).
Qed.

Lemma step_coherent knockouts st a :
  coherent knockouts st → coherent knockouts (step knockouts st a).
Proof.
  intros (Hopen & Hnone & Hsel). destruct a as [[n|]|]; cbn [step]; [| |].
  - unfold handleMatchClick.
    destruct (knockoutMatchOf knockouts (Some n)) as [km|] eqn:Hkm; [|done].
    destruct (km_homeTeam km) as [h|] eqn:Hh; [|done].
    destruct (km_awayTeam km) as [a|] eqn:Ha; [|done].
    split; [by eexists|]. split; [done|].
    intros lm [= <-]. by exists n, km.
  - done.
  - split; [done|]. done.
Qed.

(** X12. After any sequence of clicks and closings: an open dialog has a
    selected match; the selected match is a match of the bracket with both
    teams known, copied with its id and teams; and the selected prediction
    is the one filed under the id of that match. *)
Theorem run_coherent (knockouts : option Knockouts) (actions : list action) :
  coherent knockouts (run knockouts actions).
Proof.
  unfold run. induction actions as [|a actions IH] using rev_ind.
  - split; [done|]. split; [done|]. done.
  - rewrite foldl_app. cbn [foldl]. by apply step_coherent.
Qed.

(** A click that cannot be resolved changes nothing: a number that no
    match has, or a match with a team that is not known yet. *)
Lemma unresolved_click_ignored (knockouts : option Knockouts)
    (tournamentMatchId : option nat) (st : state) :
  (knockoutMatchOf knockouts tournamentMatchId = None
   ∨ ∃ km, knockoutMatchOf knockouts tournamentMatchId = Some km
       ∧ (km_homeTeam km = None ∨ km_awayTeam km = None)) →
  handleMatchClick knockouts tournamentMatchId st = st.
Proof.
  unfold handleMatchClick. intros [->|(km & -> & [Hh|Ha])]; [done| |].
  - by rewrite Hh.
  - rewrite Ha. by destruct (km_homeTeam km).
Qed.



(** *** Examples on the small bracket *)

Lemma sampleKnockouts_NoDup : NoDup (km_id <$> allMatches sampleKnockouts).
Proof.
  apply (bool_decide_unpack (NoDup (km_id <$> allMatches sampleKnockouts))).
  vm_compute. exact I.
Defined.

(** X8 on the small bracket: number 17 is the first match of the round
    of 16. *)
Lemma tournamentMatchMap_rounds_witness :
  tournamentMatchMap (Some sampleKnockouts) !! 17%nat
  = Some (knockoutMatch "m-89" (Some (team "team-esp" "Spain")) None None).
Proof.
  refine (proj1 (proj2 (tournamentMatchMap_rounds sampleKnockouts _ _ _ _)) 0%nat _ _).
  - cbn. lia.
  - cbn. lia.
  - cbn. lia.
  - cbn. lia.
  - reflexivity.
Defined.

(** X9 on the small bracket: the prediction of match [m-73]. *)
Lemma predictionsMap_lookup_witness :
  predictionsMap (Some sampleKnockouts) !! "m-73"
  = Some (convertPrediction "m-73" (knockoutPrediction 2%float 0%float None None None)).
Proof.
  refine (proj1 (predictionsMap_lookup sampleKnockouts sampleKnockouts_NoDup)
            (knockoutMatch "m-73" (Some (team "team-esp" "Spain"))
               (Some (team "team-jpn" "Japan"))
               (Some (knockoutPrediction 2%float 0%float None None None))) _).
  apply list_elem_of_here.
Defined.

(** X10 on the small bracket: where the prediction under [m-73] comes
    from. *)
Lemma predictionsMap_origin_witness :
  ∃ k m pred, Some sampleKnockouts = Some k ∧ m ∈ allMatches k ∧ km_id m = "m-73"
    ∧ km_userPrediction m = Some pred
    ∧ convertPrediction "m-73" (knockoutPrediction 2%float 0%float None None None)
      = convertPrediction "m-73" pred.
Proof.
  refine (predictionsMap_origin (Some sampleKnockouts) "m-73"
            (convertPrediction "m-73" (knockoutPrediction 2%float 0%float None None None)) _).
  vm_compute. reflexivity.
Defined.

(** X11 on the small bracket: a click on the first drawn match. *)
Lemma click_opens_own_prediction_witness :
  handleMatchClick (Some sampleKnockouts) (Some 1%nat) initialState
  = {| selectedMatch :=
         Some {| match_id := "m-73"; Domain.homeTeam := team "team-esp" "Spain";
                 Domain.awayTeam := team "team-jpn" "Japan" |};
       selectedPrediction :=
         Some (convertPrediction "m-73" (knockoutPrediction 2%float 0%float None None None));
       isDialogOpen := true |}.
Proof.
  refine (click_opens_own_prediction sampleKnockouts 1%nat
            (knockoutMatch "m-73" (Some (team "team-esp" "Spain"))
               (Some (team "team-jpn" "Japan"))
               (Some (knockoutPrediction 2%float 0%float None None None)))
            (team "team-esp" "Spain") (team "team-jpn" "Japan") initialState
            sampleKnockouts_NoDup _ _ _).
  - vm_compute. reflexivity.
  - reflexivity.
  - reflexivity.
Defined.

(** Matches beyond the size of a round are hidden by the next round: with
    seventeen matches in the round of 32, number 17 is still the first match
    of the round of 16. A click on a match whose team is not known yet, or
    on a number without a match, opens nothing. *)
Example bracket_examples :
  let extra := knockoutMatch "m-x" None None None in
  let crowded :=
    {| roundOf32 := replicate 17 extra; roundOf16 := roundOf16 sampleKnockouts;
       quarterFinals := []; semiFinals := []; final := final sampleKnockouts |} in
  (km_id <$> tournamentMatchMap (Some crowded) !! 17%nat) = Some "m-89"
  ∧ handleMatchClick (Some sampleKnockouts) (Some 17%nat) initialState = initialState
  ∧ handleMatchClick (Some sampleKnockouts) (Some 5%nat) initialState = initialState
  ∧ handleMatchClick (Some sampleKnockouts) None initialState = initialState
  ∧ isDialogOpen (run (Some sampleKnockouts) [ClickMatch (Some 2%nat); CloseDialog]) = false
  ∧ (match_id <$> selectedMatch
       (run (Some sampleKnockouts) [ClickMatch (Some 2%nat); CloseDialog])) = Some "m-74".
Proof. vm_compute. repeat split. Qed.

(** *** Round headers *)

Lemma replace_unfold (pattern replacement s : string) :
  replace pattern replacement s =
    if Proxy.startsWith s pattern then replacement ++ slice (String.length pattern) s
    else match s with
         | EmptyString => EmptyString
         | String c s' => String c (replace pattern replacement s')
         end.
Proof. by destruct s. Qed.

Lemma slice_append (p rest : string) : slice (String.length p) (p ++ rest) = rest.
Proof. induction p as [|c p IH]; [by destruct rest|]. rewrite append_cons. apply IH. Qed.

(** Replacing a pattern the string starts with. *)
Lemma replace_prefix (pattern replacement rest : string) :
  replace pattern replacement (pattern ++ rest) = replacement ++ rest.
Proof.
  rewrite replace_unfold.
  rewrite (proj2 (startsWith_spec (pattern ++ rest) pattern)) by by exists rest.
  by rewrite slice_append.
Qed.

(** X13. [removeRoundPrefix] removes one leading [Round ] from the text of
    a header and leaves every other text as it is; after the three timers a
    header [Round N] reads [N]. *)
Theorem removeRoundPrefix_spec (content : string) :
  (∀ rest, content = "Round " ++ rest → removeRoundPrefix content = rest)
  ∧ ((∀ rest, content ≠ "Round " ++ rest) → removeRoundPrefix content = content)
  ∧ (∀ rest, content = "Round " ++ rest → (∀ rest', rest ≠ "Round " ++ rest') →
       afterTimers content = rest).
Proof.
  assert (∀ rest, removeRoundPrefix ("Round " ++ rest) = rest) as Hstrip.
  { intros rest. unfold removeRoundPrefix.
    rewrite (proj2 (startsWith_spec ("Round " ++ rest) "Round ")) by by exists rest.
    cbn [negb andb]. replace (bool_decide ("Round " ++ rest = "")) with false by done.
    cbn [negb andb]. by rewrite replace_prefix. }
  assert (∀ text, (∀ rest, text ≠ "Round " ++ rest) → removeRoundPrefix text = text)
    as Hkeep.
  { intros text Hne. unfold removeRoundPrefix.
    destruct (Proxy.startsWith text "Round ") eqn:Hs; [|by rewrite andb_false_r].
    apply startsWith_spec in Hs as [rest ->]. by destruct (Hne rest). }
  split; [by intros rest ->|]. split; [apply Hkeep|].
  intros rest -> Hne. unfold afterTimers. rewrite Hstrip.
  by rewrite (Hkeep rest Hne), (Hkeep rest Hne).
Qed.

Example removeRoundPrefix_examples :
  removeRoundPrefix "Round 3" = "3"
  ∧ afterTimers "Round 3" = "3"
  ∧ removeRoundPrefix "Final" = "Final"
  ∧ removeRoundPrefix "Semi Round 1" = "Semi Round 1"
  ∧ removeRoundPrefix "" = ""
  ∧ afterTimers "Round Round Round Round 1" = "Round 1".
Proof. vm_compute. repeat split. Qed.

End KnockoutBracketComponentFacts.

(** ** From the page to the saved prediction *)

Module KnockoutFlowFacts.
Import JsNumber JsNumberFacts KnockoutMatchDialog KnockoutMatchDialogFacts.
Import KnockoutMatchDialogSessions KnockoutMatchDialogSessionFacts.
Import KnockoutBracket KnockoutBracketComponent KnockoutBracketComponentFacts.
Import Fixtures Samples.

(** A falsy penalty winner of a stored prediction. *)
Lemma stored_penaltiesWinner_Null (m : Domain.RoundOf32Match)
    (p : Domain.UserMatchPrediction) :
  penaltiesWinner (defaultValues m (Some p)) = Null →
  truthy (Domain.penaltiesWinner p) = false.
Proof.
  cbn. destruct (Domain.penaltiesWinner p) as [w|]; [|done].
  cbn. by case_bool_decide.
Qed.

Lemma stored_penaltiesWinner_Val (m : Domain.RoundOf32Match)
    (p : Domain.UserMatchPrediction) (w : string) :
  penaltiesWinner (defaultValues m (Some p)) = Val w → w ≠ "" →
  Domain.penaltiesWinner p = Some w ∧ truthy (Domain.penaltiesWinner p) = true.
Proof.
  cbn. destruct (Domain.penaltiesWinner p) as [w'|]; [|done].
  case_bool_decide; [done|]. intros [= ->] _. split; [done|].
  cbn. by rewrite bool_decide_eq_false_2.
Qed.

Lemma stored_extraTime_Null (v : option number) :
  match v with Some n => Val n | None => Null end = @Null number → v = None.
Proof. by destruct v. Qed.

Lemma stored_extraTime_holds (v : option number) (n : number) :
  holds (match v with Some n => Val n | None => Null end) n →
  v = Some n ∧ isNaN n = false.
Proof. destruct v; intros [Hv Hn]; [|done]. by injection Hv as ->. Qed.

Lemma winner_of_scores (x y : number) :
  isNaN x = false → isNaN y = false → eq x y = false →
  (if gt x y then Some "home" else if gt y x then Some "away" else Some "draw")
  = Some "home"
  ∨ (if gt x y then Some "home" else if gt y x then Some "away" else Some "draw")
  = Some "away".
Proof.
  intros Hx Hy Hne.
  destruct (trichotomy x y Hx Hy) as [(-> & _)|[(-> & -> & _)|(_ & _ & He)]];
    [by left|by right|congruence].
Qed.

(** X14. A stored prediction that passes the submit gate of the dialog is
    never drawn as a draw: with a penalty winner that is [home] or [away]
    when there is one, [getMatchWinner] names a side, and the bracket
    styles exactly one of the two teams as the winner. *)
Theorem complete_prediction_decides_winner (m : Domain.RoundOf32Match)
    (p : Domain.UserMatchPrediction) :
  isFormIncomplete (defaultValues m (Some p)) = false →
  (∀ w, Domain.penaltiesWinner p = Some w → w = "home" ∨ w = "away") →
  (getMatchWinner (Some p) = Some "home" ∨ getMatchWinner (Some p) = Some "away")
  ∧ homeWon (CustomMatch (Some p)) = negb (awayWon (CustomMatch (Some p))).
Proof.
  intros Hc Hpw.
  assert (getMatchWinner (Some p) = Some "home" ∨ getMatchWinner (Some p) = Some "away")
    as Hwinner.
  { unfold getMatchWinner.
    destruct (complete_decided _ Hc) as [HB|[HD|HF]].
    - destruct HB as (h & a & [Hh Hhn] & [Ha Han] & Hne & HhE & HaE & Hw).
      cbn in Hh, Ha. injection Hh as <-. injection Ha as <-.
      rewrite (stored_penaltiesWinner_Null m p Hw).
      cbn in HhE. apply stored_extraTime_Null in HhE. rewrite HhE.
      by apply winner_of_scores.
    - destruct HD as (h & a & he & ae & _ & _ & _ & Hhe & Hae & _ & _ & Hne & Hw).
      rewrite (stored_penaltiesWinner_Null m p Hw).
      cbn in Hhe, Hae.
      apply stored_extraTime_holds in Hhe as [-> Hhn], Hae as [-> Han].
      by apply winner_of_scores.
    - destruct HF as (h & a & he & ae & w & _ & _ & _ & _ & _ & _ & _ & _ & Hw & Hne).
      destruct (stored_penaltiesWinner_Val m p w Hw Hne) as [Hp ->].
      rewrite Hp. destruct (Hpw w Hp) as [-> | ->]; [by left|by right]. }
  split; [done|]. unfold CustomMatch. cbn [homeWon awayWon].
  destruct Hwinner as [-> | ->]; done.
Qed.

(** X14 on a stored 1-1 that extra time decided 1-2. *)
Lemma complete_prediction_decides_winner_witness :
  (getMatchWinner (Some (stored 1%float 1%float (Some 1%float) (Some 2%float) None))
   = Some "home"
   ∨ getMatchWinner (Some (stored 1%float 1%float (Some 1%float) (Some 2%float) None))
   = Some "away")
  ∧ homeWon (CustomMatch (Some (stored 1%float 1%float (Some 1%float) (Some 2%float) None)))
    = negb (awayWon (CustomMatch
                       (Some (stored 1%float 1%float (Some 1%float) (Some 2%float) None)))).
Proof.
  refine (complete_prediction_decides_winner sampleMatch
            (stored 1%float 1%float (Some 1%float) (Some 2%float) None) _ _).
  - vm_compute. reflexivity.
  - intros w Hw. discriminate Hw.
Defined.

Section Flow.
Context `{StringToNumber}.

Lemma session_reachable m up events : reachable (session m up events).
Proof.
  unfold session. induction events as [|e events IH] using rev_ind; [constructor|].
  rewrite foldl_app. cbn [foldl]. by constructor.
Qed.

Lemma handle_identifiers e f :
  matchId (handle e f) = matchId f
  ∧ homeTeamId (handle e f) = homeTeamId f
  ∧ awayTeamId (handle e f) = awayTeamId f.
Proof. by destruct e. Qed.

Lemma dispatch_identifiers e s :
  matchId (values (dispatch e s)) = matchId (values s)
  ∧ homeTeamId (values (dispatch e s)) = homeTeamId (values s)
  ∧ awayTeamId (values (dispatch e s)) = awayTeamId (values s).
Proof.
  unfold dispatch. destruct (rendered s) as [watched|]; [|done].
  destruct (available e watched); [|done].
  set (s0 := {| values := handle e (values s); rendered := Some watched;
                extraTimeRegistered := extraTimeRegistered s |}).
  destruct (settle_frame maxUpdateDepth s0) as (-> & -> & ->).
  apply handle_identifiers.
Qed.

(** The identifiers of the draft are those of the match, whatever is
    edited. *)
Lemma session_identifiers m up events :
  matchId (values (session m up events)) = Domain.match_id m
  ∧ homeTeamId (values (session m up events)) = Domain.team_id (Domain.homeTeam m)
  ∧ awayTeamId (values (session m up events)) = Domain.team_id (Domain.awayTeam m).
Proof.
  induction events as [|e events IH] using rev_ind.
  - unfold session, mount. cbn [foldl].
    by destruct (settle_frame maxUpdateDepth
                   {| values := defaultValues m up; rendered := None;
                      extraTimeRegistered := false |}) as (-> & -> & ->).
  - unfold session. rewrite foldl_app. cbn [foldl]. fold (session m up events).
    by destruct (dispatch_identifiers e (session m up events)) as (-> & -> & ->).
Qed.

(** X15. From the click to the save call. A click on a drawn match whose
    teams are known hands that match to the dialog; whatever the user then
    edits, submitting the values of the form with a prediction identifier
    calls the save callback first, with the phase [ROUND_OF_32] whatever the
    round of the match, and with one prediction that carries the id of the
    clicked match and the ids of its two teams. *)
Theorem click_edit_submit (k : Knockouts) (n : nat) (m : KnockoutMatch)
    (h a : Domain.Team) (st0 : state) (pid : string)
    (onSave : Domain.MatchPhase → list Domain.MatchPrediction → completion unit)
    (events : list event) (w : world) :
  tournamentMatchMap (Some k) !! n = Some m →
  km_homeTeam m = Some h → km_awayTeam m = Some a → pid ≠ "" →
  let st := handleMatchClick (Some k) (Some n) st0 in
  ∃ props,
    matchContentProps (Some pid) onSave st = Some props
    ∧ let data := values (session (match_ props) (selectedPrediction st) events) in
      ∃ p rest,
        calls (onSubmit props data w).1
        = (calls w ++ onSave_call "ROUND_OF_32" [p] :: rest)%list
        ∧ Domain.mp_matchId p = km_id m
        ∧ Domain.mp_homeTeamId p = Domain.team_id h
        ∧ Domain.mp_awayTeamId p = Domain.team_id a.
Proof.
  intros Hm Hh Ha Hpid. cbn zeta.
  unfold handleMatchClick, knockoutMatchOf, matchContentProps.
  rewrite Hm, Hh, Ha. cbn [selectedMatch selectedPrediction].
  eexists. split; [reflexivity|]. cbn [match_].
  set (lm := {| Domain.match_id := km_id m; Domain.homeTeam := h; Domain.awayTeam := a |}).
  set (data := values (session lm _ events)).
  exists (toMatchPrediction data). rewrite onSubmit_eq. cbn [fst calls predictionId].
  unfold predictionId_falsy. rewrite bool_decide_eq_false_2 by done.
  eexists. split; [reflexivity|]. cbn [toMatchPrediction Domain.mp_matchId
    Domain.mp_homeTeamId Domain.mp_awayTeamId].
  apply (session_identifiers lm).
Qed.

End Flow.

(** X15 on the small bracket: the first drawn match is clicked, the home
    score is set to 3 and the form is submitted. *)
Lemma click_edit_submit_witness :
  let st := handleMatchClick (Some sampleKnockouts) (Some 1%nat) initialState in
  ∃ props,
    matchContentProps (Some "pred-1") (λ _ _, Normal tt) st = Some props
    ∧ let data := values (session (match_ props) (selectedPrediction st)
                            [ChangeHomeScore "3"]) in
      ∃ p rest,
        calls (onSubmit props data
                 {| calls := [];
                    form := draft (Val 3%float) (Val 0%float) Null Null Null |}).1
        = ([] ++ onSave_call "ROUND_OF_32" [p] :: rest)%list
        ∧ Domain.mp_matchId p = "m-73"
        ∧ Domain.mp_homeTeamId p = "team-esp"
        ∧ Domain.mp_awayTeamId p = "team-jpn".
Proof.
  refine (click_edit_submit sampleKnockouts 1%nat
            (knockoutMatch "m-73" (Some (team "team-esp" "Spain"))
               (Some (team "team-jpn" "Japan"))
               (Some (knockoutPrediction 2%float 0%float None None None)))
            (team "team-esp" "Spain") (team "team-jpn" "Japan") initialState
            "pred-1" (λ _ _, Normal tt) [ChangeHomeScore "3"]
            {| calls := []; form := draft (Val 3%float) (Val 0%float) Null Null Null |}
            _ _ _ _).
  - vm_compute. reflexivity.
  - reflexivity.
  - reflexivity.
  - discriminate.
Defined.

(** X16. Without a prediction of the user (none, one without an id, or one
    with an empty id) the bracket the page shows cannot save: every
    submission from its dialog stops at the error notice and the save
    callback is not called. *)
Theorem page_without_prediction_cannot_save
    (prediction : option (option string)) (matches : list Domain.MatchWithPrediction)
    (isSaving : bool) (roundOf32Matches : option (list Domain.RoundOf32Match))
    (knockouts : option PredictionsPage.Knockouts)
    (bracketProps : PredictionsPage.KnockoutBracketProps) :
  prediction = None ∨ prediction = Some None ∨ prediction = Some (Some "") →
  PredictionsPage.knockoutTab
    (PredictionsPage.PredictionsPageContent prediction matches isSaving
       roundOf32Matches knockouts)
  = PredictionsPage.Bracket bracketProps →
  ∀ onSave st props data w,
    matchContentProps (PredictionsPage.kb_predictionId bracketProps) onSave st
    = Some props →
    onSubmit props data w
    = ({| calls := calls w ++ [missingPredictionNotice]; form := form w |}, Normal tt).
Proof.
  intros Hprediction Htab onSave st props data w Hprops.
  assert (PredictionsPage.kb_predictionId bracketProps = None) as Hid.
  { unfold PredictionsPage.PredictionsPageContent in Htab. cbn in Htab.
    destruct (negb _); [done|]. destruct knockouts as [k|]; [|done].
    case_bool_decide; [|done]. injection Htab as <-. cbn.
    by destruct Hprediction as [->|[->| ->]]. }
  unfold matchContentProps in Hprops. rewrite Hid in Hprops.
  destruct (selectedMatch st); [|done]. injection Hprops as <-.
  by rewrite onSubmit_eq.
Qed.

(** X16 on a page without a prediction whose group matches are all
    predicted. *)
Lemma page_without_prediction_cannot_save_witness :
  onSubmit (sampleProps None (Normal tt))
    (draft (Val 2%float) (Val 0%float) Null Null Null)
    {| calls := []; form := draft (Val 2%float) (Val 0%float) Null Null Null |}
  = ({| calls := [] ++ [missingPredictionNotice];
        form := draft (Val 2%float) (Val 0%float) Null Null Null |}, Normal tt).
Proof.
  refine (page_without_prediction_cannot_save None [groupMatch (Some "p1")] false None
            (Some {| PredictionsPage.roundOf32 := [sampleMatch] |})
            {| PredictionsPage.kb_matches := [];
               PredictionsPage.kb_knockouts := {| PredictionsPage.roundOf32 := [sampleMatch] |};
               PredictionsPage.kb_predictionId := None;
               PredictionsPage.kb_isSaving := false |}
            _ _ (λ _ _, Normal tt)
            {| selectedMatch := Some sampleMatch; selectedPrediction := None;
               isDialogOpen := true |}
            (sampleProps None (Normal tt))
            (draft (Val 2%float) (Val 0%float) Null Null Null)
            {| calls := []; form := draft (Val 2%float) (Val 0%float) Null Null Null |} _).
  - by left.
  - reflexivity.
  - reflexivity.
Defined.

End KnockoutFlowFacts.

(** ** The request middleware: routes *)

Module ProxyRouteFacts.
Import JsNumber Proxy ProxyFacts Fixtures.

(** A path that starts with an auth-only route. *)
Lemma authRoute_cases (path : string) :
  hasPrefixIn authRoutes path →
  ∃ rest, path = "/login" ++ rest ∨ path = "/signup" ++ rest.
Proof.
  intros (route & rest & Hin & ->). exists rest.
  unfold authRoutes in Hin. rewrite !elem_of_cons in Hin.
  destruct Hin as [->|[->|Hin]]; [by left|by right|by apply elem_of_nil in Hin].
Qed.

Lemma protectedRoute_cases (path : string) :
  hasPrefixIn protectedRoutes path →
  ∃ route rest, path = route ++ rest
    ∧ (route = "/dashboard" ∨ route = "/projects" ∨ route = "/analytics"
       ∨ route = "/settings" ∨ route = "/predictions" ∨ route = "/schedule"
       ∨ route = "/stadiums" ∨ route = "/teams" ∨ route = "/leagues"
       ∨ route = "/leaderboard" ∨ route = "/rules").
Proof.
  intros (route & rest & Hin & ->). exists route, rest. split; [done|].
  unfold protectedRoutes in Hin. rewrite !elem_of_cons in Hin.
  destruct Hin as [?|[?|[?|[?|[?|[?|[?|[?|[?|[?|[?|Hin]]]]]]]]]]];
    [auto 12..|by apply elem_of_nil in Hin].
Qed.

(** The paths under a listed route carry no locale prefix of their own. *)
Lemma listed_route_unprefixed (path : string) :
  hasPrefixIn protectedRoutes path ∨ hasPrefixIn authRoutes path →
  pathnameWithoutLocale path = path
  ∧ pathnameWithoutLocale ("/en" ++ path) = path
  ∧ pathnameWithoutLocale ("/es" ++ path) = path.
Proof.
  intros [(route & rest & -> & Hr)%protectedRoute_cases
         | [rest [-> | ->]]%authRoute_cases].
  - repeat destruct Hr as [->|Hr]; try subst route; repeat split.
  - repeat split.
  - repeat split.
Qed.

Section Guard.
Context `{JsonParser} `{Intl}.

(** X17. No path is both protected and auth-only, with or without a locale
    prefix: at most one of the two redirections of the guard applies to a
    request. *)
Theorem route_classes_disjoint (pathname : string) :
  isProtectedRoute pathname && isAuthRoute pathname = false.
Proof.
  unfold isProtectedRoute, isAuthRoute.
  destruct (existsb _ authRoutes) eqn:Ha; [|apply andb_false_r].
  apply existsb_startsWith, authRoute_cases in Ha as [rest [-> | ->]]; reflexivity.
Qed.

(** X18. The locale prefix does not change the class of a listed route: a
    path under a protected route is protected as it is, under [/en] and
    under [/es], and likewise for the auth-only routes. *)
Theorem locale_prefix_keeps_class (path : string) :
  (hasPrefixIn protectedRoutes path →
     isProtectedRoute path = true
     ∧ isProtectedRoute ("/en" ++ path) = true
     ∧ isProtectedRoute ("/es" ++ path) = true)
  ∧ (hasPrefixIn authRoutes path →
     isAuthRoute path = true
     ∧ isAuthRoute ("/en" ++ path) = true
     ∧ isAuthRoute ("/es" ++ path) = true).
Proof.
  unfold isProtectedRoute, isAuthRoute. split; intros Hpath.
  - destruct (listed_route_unprefixed path (or_introl Hpath)) as (-> & -> & ->).
    by rewrite existsb_startsWith.
  - destruct (listed_route_unprefixed path (or_intror Hpath)) as (-> & -> & ->).
    by rewrite existsb_startsWith.
Qed.

Lemma isUserAuthenticated_cookies (r1 r2 : NextRequest) :
  cookies r1 = cookies r2 → isUserAuthenticated r1 = isUserAuthenticated r2.
Proof. unfold isUserAuthenticated. by intros ->. Qed.

(** X19. The guard does not redirect twice. When the guard itself
    redirects a request (the i18n middleware did not) and the locale is
    [en] or [es], the request for the target that comes back with the same
    cookies is not redirected by the guard again: it gets the response of
    the i18n middleware. *)
Theorem no_redirect_loop (request request' : NextRequest) (u : URL) :
  proxy request = Normal (NextResponse_redirect u) →
  handleI18nRouting request ≠ NextResponse_redirect u →
  localeOf (handleI18nRouting request) = "en"
  ∨ localeOf (handleI18nRouting request) = "es" →
  cookies request' = cookies request →
  nextUrl_pathname request' = pathname u →
  proxy request' = Normal (handleI18nRouting request').
Proof.
  intros Hproxy Hguard Hlocale Hcookies Hpath.
  unfold proxy in *. rewrite (isUserAuthenticated_cookies request' request Hcookies).
  destruct (isUserAuthenticated request) as [isAuthenticated|e]; [|done].
  destruct (isProtectedRoute (nextUrl_pathname request) && negb isAuthenticated) eqn:Hp.
  - injection Hproxy as <-. apply andb_true_iff in Hp as [_ Hauth%negb_true_iff].
    subst isAuthenticated. rewrite Hpath. cbn [loginUrl URL_searchParams_set pathname URL_new].
    rewrite andb_false_r.
    destruct Hlocale as [-> | ->]; reflexivity.
  - destruct (isAuthRoute (nextUrl_pathname request) && isAuthenticated) eqn:Ha.
    + injection Hproxy as <-. apply andb_true_iff in Ha as [_ ->].
      rewrite Hpath. cbn [dashboardUrl pathname URL_new].
      destruct Hlocale as [-> | ->]; reflexivity.
    + injection Hproxy as Heq. by destruct Hguard.
Qed.

End Guard.



(** X19 on the request for [/dashboard] without cookies: it is sent to
    [/es/login], and the request for [/es/login] passes. *)
Lemma no_redirect_loop_witness :
  @proxy sampleParser sampleIntl (sampleRequest "/es/login" [])
  = Normal (@handleI18nRouting sampleIntl (sampleRequest "/es/login" [])).
Proof.
  refine (@no_redirect_loop sampleParser sampleIntl
            (sampleRequest "/dashboard" []) (sampleRequest "/es/login" [])
            {| base := "https://porraza.example/dashboard";
               pathname := "/es/login";
               searchParams := [("from", "/dashboard")] |} _ _ _ _ _).
  - reflexivity.
  - intros Heq. discriminate Heq.
  - right. reflexivity.
  - reflexivity.
  - reflexivity.
Defined.

(** A path with two locale prefixes keeps the second one, and a path that
    only resembles a listed route is classified by its prefix. *)
Example route_examples :
  pathnameWithoutLocale "/en/es/dashboard" = "/es/dashboard"
  ∧ isProtectedRoute "/en/es/dashboard" = false
  ∧ isProtectedRoute "/es/teams/42" = true
  ∧ isProtectedRoute "/teamsheet" = true
  ∧ isProtectedRoute "/english" = false
  ∧ isAuthRoute "/en/signup" = true
  ∧ isAuthRoute "/" = false.
Proof. repeat split. Qed.

End ProxyRouteFacts.

(** ** The predictions page: contents of the tabs *)

Module PredictionsPageContentFacts.
Import Domain PredictionsPage PredictionsPageFacts Fixtures.

Lemma filter_length_le {A} (f : A → bool) (l : list A) :
  (length (List.filter f l) ≤ length l)%nat.
Proof. induction l as [|x l IH]; cbn; [done|]. destruct (f x); cbn; lia. Qed.

(** Some element fails the test exactly when the filtered list is shorter. *)
Lemma forallb_filter_length {A} (f : A → bool) (l : list A) :
  forallb f l = false ↔ (length (List.filter f l) < length l)%nat.
Proof.
  induction l as [|x l IH]; cbn; [split; [done|lia]|].
  pose proof (filter_length_le f l). destruct (f x); cbn; [rewrite IH|]; split; try lia; done.
Qed.

(** X20. The progress shown on a locked tab is never complete: the count of
    predicted matches is below the total, the total is the number of
    matches, and the knockout and awards tabs show the same two numbers.
    The count never exceeds the total. *)
Theorem locked_progress_below_total
    (prediction : option (option string)) (matches : list MatchWithPrediction)
    (isSaving : bool) (roundOf32Matches : option (list RoundOf32Match))
    (knockouts : option Knockouts) :
  let p := PredictionsPageContent prediction matches isSaving roundOf32Matches knockouts in
  (completedMatches matches ≤ totalMatches matches)%nat
  ∧ (∀ completed total, knockoutTab p = LockedWithProgress completed total →
       (completed < total)%nat ∧ total = length matches
       ∧ awardsTab p = AwardsLockedWithProgress completed total)
  ∧ (∀ completed total, awardsTab p = AwardsLockedWithProgress completed total →
       (completed < total)%nat ∧ total = length matches
       ∧ knockoutTab p = LockedWithProgress completed total).
Proof.
  cbn zeta. unfold PredictionsPageContent. cbn [knockoutTab awardsTab].
  split; [apply filter_length_le|].
  destruct (allGroupPredictionsCompleted matches) eqn:Hall; cbn [negb].
  - split; [|done]. intros completed total.
    destruct knockouts as [k|]; [|done]. by case_bool_decide.
  - apply forallb_filter_length in Hall.
    split; intros completed total [= <- <-]; done.
Qed.

(** What the knockout tab shows once it is unlocked. The bracket is
    shown exactly when every match is predicted and the knockouts have at
    least one match in the round of 32; it gets the knockouts and the saving
    flag as they are, an empty list for missing round-of-32 matches, and as
    prediction identifier the id of the prediction, or [null] without a
    prediction, without an id or with an empty id. With every match
    predicted and no such knockouts the pending notice is shown. *)
Lemma unlocked_knockout_tab
    (prediction : option (option string)) (matches : list MatchWithPrediction)
    (isSaving : bool) (roundOf32Matches : option (list RoundOf32Match))
    (knockouts : option Knockouts) :
  let p := PredictionsPageContent prediction matches isSaving roundOf32Matches knockouts in
  (∀ props, knockoutTab p = Bracket props ↔
     allGroupPredictionsCompleted matches = true
     ∧ ∃ k, knockouts = Some k ∧ roundOf32 k ≠ []
        ∧ kb_knockouts props = k ∧ kb_isSaving props = isSaving
        ∧ kb_matches props = default [] roundOf32Matches
        ∧ kb_predictionId props =
            match prediction with
            | Some (Some i) => if bool_decide (i = "") then None else Some i
            | _ => None
            end)
  ∧ (knockoutTab p = PairingsPending ↔
     allGroupPredictionsCompleted matches = true
     ∧ (knockouts = None ∨ ∃ k, knockouts = Some k ∧ roundOf32 k = [])).
Proof.
  cbn zeta. unfold PredictionsPageContent. cbn [knockoutTab].
  destruct (allGroupPredictionsCompleted matches); cbn [negb].
  - destruct knockouts as [k|].
    + case_bool_decide as Hlen.
      * assert (roundOf32 k ≠ []) as Hne by (destruct (roundOf32 k); [cbn in Hlen; lia|done]).
        split.
        -- intros props. split.
           ++ intros [= <-]. split; [done|]. by exists k.
           ++ intros (_ & k' & [= <-] & _ & Hk & Hs & Hm & Hi).
              destruct props. cbn in *. by subst.
        -- split; [done|]. intros (_ & [?|(k' & [= <-] & ?)]); done.
      * assert (roundOf32 k = []) as Hnil by (destruct (roundOf32 k); [done|cbn in Hlen; lia]).
        split.
        -- intros props. split; [done|]. by intros (_ & k' & [= <-] & ? & _).
        -- split; [|done]. intros _. split; [done|]. right. by exists k.
    + split.
      * intros props. split; [done|]. by intros (_ & k' & ? & _).
      * split; [|done]. intros _. split; [done|]. by left.
  - split.
    + intros props. split; [done|]. by intros [? _].
    + split; [done|]. by intros [? _].
Qed.

End PredictionsPageContentFacts.
